(** * MacJet power monitor: a shallow embedding of [power_monitor.py]

    The development follows the source file top to bottom: the shell helper
    [run_cmd], the six data-collection functions, the progress bar
    [make_bar], and the loop of [draw_dashboard].

    Modelling conventions.
    - A Python [str] is a list of code points ([N]); [txt] turns an ASCII
      literal into one.  The character predicates of the interpreter
      ([\d], [\s], [str.isdigit], [str.lower], [str.strip]) are given on the
      Basic Latin and Latin-1 range; code points from 256 on are treated as
      letters without case that are neither digits nor white space.
    - A Python [int] is a [Z].  A Python [float] is an exact rational [Q]
      where the program scales, compares and formats it, and a binary64
      number ([spec_float], rounding to nearest even) where it divides two
      integers and truncates the product to the minutes it prints, in the
      two time lines of the charging and discharging blocks; there a
      quotient too large for a float raises [OverflowError].
    - A Python exception is a value of [exn]; code that can raise returns a
      [result].
    - The operating system is an input: every iteration of the loop is given
      a [tick_input] holding what [time.time()], [stdscr.getch()] and the
      shell commands answer during that iteration.
    - The terminal is the list of [addstr] calls of a frame; a write is
      taken to succeed whatever the size of the window. *)

From Stdlib Require Import ZArith QArith Qabs Qround Qminmax Lqa List Bool Ascii String Lia.
From Stdlib Require Import DecimalString DecimalPos SpecFloat.
Import ListNotations.

Local Open Scope Z_scope.

(** ** Strings *)

Definition char := N.
Definition str := list char.

Definition txt (s : string) : str :=
  List.map N_of_ascii (list_ascii_of_string s).

Definition chr_eqb (a b : char) : bool := N.eqb a b.

Fixpoint str_eqb (a b : str) : bool :=
  match a, b with
  | [], [] => true
  | x :: a', y :: b' => chr_eqb x y && str_eqb a' b'
  | _, _ => false
  end.

(** [s.startswith(p)], returning what follows the prefix. *)
Fixpoint strip_prefix (p s : str) : option str :=
  match p, s with
  | [], _ => Some s
  | x :: p', y :: s' => if chr_eqb x y then strip_prefix p' s' else None
  | _ :: _, [] => None
  end.

(** [p in s]. *)
Fixpoint contains (p s : str) : bool :=
  match strip_prefix p s with
  | Some _ => true
  | None => match s with
            | [] => false
            | _ :: s' => contains p s'
            end
  end.

(** [s * n] for a string [s] and an integer [n]: empty when [n <= 0]. *)
Definition str_repeat (s : str) (n : Z) : str :=
  List.concat (List.repeat s (Z.to_nat n)).

Definition len (s : str) : Z := Z.of_nat (List.length s).

(** [\d], also [str.isdigit] on ASCII. *)
Definition is_digit (c : char) : bool := (48 <=? c)%N && (c <=? 57)%N.

(** [str.isdigit] per character: the decimal digits, and below 256 the
    superscripts two, three and one. *)
Definition isdigit_char (c : char) : bool :=
  is_digit c || (c =? 178)%N || (c =? 179)%N || (c =? 185)%N.

(** [\s] and [str.isspace] per character. *)
Definition is_space (c : char) : bool :=
  ((9 <=? c)%N && (c <=? 13)%N) || ((28 <=? c)%N && (c <=? 32)%N)
  || (c =? 133)%N || (c =? 160)%N.

(** [.] without DOTALL: anything but a line feed. *)
Definition is_dot (c : char) : bool := negb (c =? 10)%N.

Definition lower_char (c : char) : char :=
  if ((65 <=? c)%N && (c <=? 90)%N)
     || ((192 <=? c)%N && (c <=? 222)%N && negb (c =? 215)%N)
  then (c + 32)%N else c.

(** [s.lower()]. *)
Definition lower (s : str) : str := List.map lower_char s.

Fixpoint lstrip (s : str) : str :=
  match s with
  | c :: s' => if is_space c then lstrip s' else s
  | [] => []
  end.

(** [s.strip()]. *)
Definition strip (s : str) : str := rev (lstrip (rev (lstrip s))).

(** [s.isdigit()]: every character is a digit and there is at least one. *)
Definition isdigit (s : str) : bool :=
  match s with
  | [] => false
  | _ => forallb isdigit_char s
  end.

(** [s.split('\n')]. *)
Fixpoint split_lines_aux (cur : str) (s : str) : list str :=
  match s with
  | [] => [rev cur]
  | c :: s' => if (c =? 10)%N then rev cur :: split_lines_aux [] s'
               else split_lines_aux (c :: cur) s'
  end.

Definition split_lines (s : str) : list str := split_lines_aux [] s.

(** ** Exceptions *)

Inductive exn :=
| ZeroDivisionError
| ValueError
| TypeError
| IndexError
| OverflowError
| KeyboardInterrupt.

Inductive result (A : Type) :=
| Ok (a : A)
| Raise (e : exn).
Arguments Ok {A} a.
Arguments Raise {A} e.

(** A computation that reads the wall clock and lets time pass: from the
    clock at its start to its result and the clock at its end. *)
Definition io (A : Type) := Q -> result A * Q.

Class Monad (m : Type -> Type) := {
  ret : forall {A}, A -> m A;
  bind : forall {A B}, m A -> (A -> m B) -> m B
}.

#[export] Instance result_monad : Monad result := {
  ret := fun A a => Ok a;
  bind := fun A B r f =>
    match r with
    | Ok a => f a
    | Raise e => Raise e
    end
}.

#[export] Instance io_monad : Monad io := {
  ret := fun A a t => (Ok a, t);
  bind := fun A B c f t =>
    match c t with
    | (Ok a, t') => f a t'
    | (Raise e, t') => (Raise e, t')
    end
}.

Notation "x <- c ;; k" := (bind c (fun x => k))
  (at level 61, c at next level, right associativity).
Notation "' pat <- c ;; k" := (bind c (fun x => match x with pat => k end))
  (at level 61, pat pattern, c at next level, right associativity).

(** A computation that takes no time. *)
Definition lift {A} (r : result A) : io A := fun t => (r, t).

(** ** Numbers *)

Definition Qz (z : Z) : Q := inject_Z z.

(** [a / b] on numbers. *)
Definition truediv (a b : Q) : result Q :=
  if Qeq_bool b 0 then Raise ZeroDivisionError else Ok (a / b)%Q.

(** [int(x)] for a float [x]: truncation towards zero. *)
Definition py_int (x : Q) : Z := Z.quot (Qnum x) (Zpos (Qden x)).

(** *** Binary64

    The floats of the interpreter, when the digit that is printed depends
    on their rounding: [spec_float] with 53 bits of precision, every
    operation rounded to the nearest float, ties to the even one. *)
Definition float := spec_float.
Definition float_prec : Z := 53.
Definition float_emax : Z := 1024.

(** An integer as the pair of a mantissa and the exponent 0, not rounded:
    the operand of a division of integers. *)
Definition exact (z : Z) : float :=
  match z with
  | Z0 => S754_zero false
  | Zpos p => S754_finite false p 0
  | Zneg p => S754_finite true p 0
  end.

(** [float(n)] for an integer: the nearest float. *)
Definition float_of_int (z : Z) : float :=
  binary_normalize float_prec float_emax z 0 false.

Definition float_mul (x y : float) : float := SFmul float_prec float_emax x y.
Definition float_div (x y : float) : float := SFdiv float_prec float_emax x y.

(** [a / b] on integers: the float nearest to the quotient.  The
    interpreter rounds the exact quotient once, whatever the size of [a]
    and [b], and raises [OverflowError] when the result is out of range. *)
Definition int_truediv (a b : Z) : result float :=
  if b =? 0 then Raise ZeroDivisionError
  else match float_div (exact a) (exact b) with
       | S754_infinity _ => Raise OverflowError
       | q => Ok q
       end.

(** [int(x)] for a float: truncation towards zero, [OverflowError] for an
    infinity and [ValueError] for a NaN. *)
Definition int_of_float (x : float) : result Z :=
  match x with
  | S754_zero _ => Ok 0
  | S754_finite s m e => Ok (cond_Zopp s (Z.shiftl (Zpos m) e))
  | S754_infinity _ => Raise OverflowError
  | S754_nan => Raise ValueError
  end.

(** A float that is a number: a zero, a finite float or an infinity. *)
Definition defined (x : float) : Prop :=
  match x with
  | S754_nan => False
  | _ => True
  end.

(** A float that is 0 or finite and below [2 ^ B] in absolute value: its
    mantissa and exponent have [B] bits together at most, and the exponent
    is one of the format. *)
Definition below (B : Z) (x : float) : Prop :=
  match x with
  | S754_zero _ => True
  | S754_finite _ m e => Zdigits2 (Zpos m) + e <= B /\ e <= 971
  | _ => False
  end.

Definition Qltb (a b : Q) : bool := negb (Qle_bool b a).
Definition Qgeb (a b : Q) : bool := Qle_bool b a.
Definition Qgtb (a b : Q) : bool := negb (Qle_bool a b).

(** [min(a, b)] and [max(a, b)]: the first argument unless the second is
    strictly smaller (larger). *)
Definition py_min (a b : Q) : Q := if Qltb b a then b else a.
Definition py_max (a b : Q) : Q := if Qgtb b a then b else a.

(** The decimal digits of an integer, as [str(n)] prints them. *)
Definition str_of_Z (n : Z) : str :=
  txt (NilZero.string_of_int (Z.to_int n)).

(** [int(s)] for a string of ASCII digits. *)
Definition int_of_digits (s : str) : Z :=
  fold_left (fun acc c => 10 * acc + (Z.of_N c - 48)) s 0.

(** [float(s)] for a string made of digits and dots, which is all that the
    patterns of this program capture: one dot at most and one digit at
    least, else [ValueError]. *)
Fixpoint split_dot (acc : str) (s : str) : str * option str :=
  match s with
  | [] => (rev acc, None)
  | c :: s' => if (c =? 46)%N then (rev acc, Some s')
               else split_dot (c :: acc) s'
  end.

Definition py_float (s : str) : result Q :=
  let '(ip, rest) := split_dot [] s in
  let fp := match rest with Some f => f | None => [] end in
  if forallb is_digit ip && forallb is_digit fp
     && negb (Nat.eqb (List.length ip + List.length fp) 0)
  then Ok (Qz (int_of_digits ip)
           + Qz (int_of_digits fp) / Qz (10 ^ Z.of_nat (List.length fp)))%Q
  else Raise ValueError.

(** Rounding to the nearest integer, ties to the even one, of [x >= 0]. *)
Definition round_half_even (x : Q) : Z :=
  let f := Qfloor x in
  match ((x - Qz f) ?= (1 # 2))%Q with
  | Lt => f
  | Gt => f + 1
  | Eq => if Z.even f then f else f + 1
  end.

Definition pad_left (w : nat) (c : char) (s : str) : str :=
  List.repeat c (w - List.length s) ++ s.

(** [format(x, '.<prec>f')]. *)
Definition fmt_f (prec : nat) (x : Q) : str :=
  let scale := 10 ^ Z.of_nat prec in
  let n := round_half_even (Qabs x * Qz scale) in
  (if Qltb x 0 then txt "-" else [])
  ++ str_of_Z (n / scale)
  ++ match prec with
     | O => []
     | _ => txt "." ++ pad_left prec 48%N (str_of_Z (n mod scale))
     end.

(** [format(n, '02d')]. *)
Definition fmt_02d (n : Z) : str :=
  if n <? 0 then txt "-" ++ pad_left 1 48%N (str_of_Z (- n))
  else pad_left 2 48%N (str_of_Z n).

(** [divmod(a, 60)]. *)
Definition divmod60 (a : Z) : Z * Z := (a / 60, a mod 60).

(** [s.center(width)] with spaces. *)
Definition center (s : str) (width : Z) : str :=
  let pad := width - len s in
  if pad <=? 0 then s
  else
    let left := pad / 2 + (if Z.odd pad && Z.odd width then 1 else 0) in
    str_repeat [32%N] left ++ s ++ str_repeat [32%N] (pad - left).

(** ** Regular expressions

    The patterns of the program repeat single characters only, so the
    syntax has repetition over character classes.  Matching is by
    backtracking with a continuation, as [re] does: greedy repetitions try
    the longest run first, the lazy one the shortest; a capturing group
    records the text it consumed. *)

Inductive regex :=
| Lit (s : str)
| Star (p : char -> bool)
| Plus (p : char -> bool)
| LazyStar (p : char -> bool)
| Opt (p : char -> bool)
| Alt (r1 r2 : regex)
| Seq (r1 r2 : regex)
| Group (r : regex).

Definition or_else {A} (a : option A) (b : option A) : option A :=
  match a with
  | Some x => Some x
  | None => b
  end.

Fixpoint star_greedy {R} (p : char -> bool) (s : str) (k : str -> option R)
  : option R :=
  match s with
  | c :: s' => if p c then or_else (star_greedy p s' k) (k s) else k s
  | [] => k []
  end.

Fixpoint star_lazy {R} (p : char -> bool) (s : str) (k : str -> option R)
  : option R :=
  match k s with
  | Some r => Some r
  | None => match s with
            | c :: s' => if p c then star_lazy p s' k else None
            | [] => None
            end
  end.

Definition groups := list str.

Fixpoint rmatch (r : regex) (s : str) (caps : groups)
  (k : str -> groups -> option groups) : option groups :=
  match r with
  | Lit l => match strip_prefix l s with
             | Some s' => k s' caps
             | None => None
             end
  | Star p => star_greedy p s (fun s' => k s' caps)
  | Plus p => match s with
              | c :: s' => if p c then star_greedy p s' (fun s'' => k s'' caps)
                           else None
              | [] => None
              end
  | LazyStar p => star_lazy p s (fun s' => k s' caps)
  | Opt p => match s with
             | c :: s' => if p c then or_else (k s' caps) (k s caps)
                          else k s caps
             | [] => k s caps
             end
  | Alt a b => or_else (rmatch a s caps k) (rmatch b s caps k)
  | Seq a b => rmatch a s caps (fun s' caps' => rmatch b s' caps' k)
  | Group a =>
      rmatch a s caps (fun s' caps' =>
        k s' (caps' ++ [firstn (List.length s - List.length s') s]))
  end.

(** [re.match(r, s)]: a match at the start of [s]; the groups, in order. *)
Definition re_match (r : regex) (s : str) : option groups :=
  rmatch r s [] (fun _ caps => Some caps).

(** [re.search(r, s)]: the leftmost match. *)
Fixpoint re_search (r : regex) (s : str) : option groups :=
  match re_match r s with
  | Some g => Some g
  | None => match s with
            | [] => None
            | _ :: s' => re_search r s'
            end
  end.

(** [m.group(i)], for [i] from 1. *)
Definition group (g : groups) (i : nat) : str := nth (i - 1) g [].

Fixpoint seq_of (rs : list regex) : regex :=
  match rs with
  | [] => Lit []
  | [r] => r
  | r :: rs' => Seq r (seq_of rs')
  end.

(** A key of the registry dump between double quotes. *)
Definition quoted (s : string) : str := 34%N :: txt s ++ [34%N].

Definition is_chr (c : N) (x : char) : bool := (x =? c)%N.

(** ** Shell command execution *)

(** What [subprocess.run(cmd, shell=True, capture_output=True, text=True,
    timeout=5)] does: it returns with the standard output of the command,
    raises [TimeoutExpired], raises another [Exception], or is interrupted
    from the keyboard ([KeyboardInterrupt] is not an [Exception]). *)
Inductive proc :=
| Completed (stdout : str)
| TimeoutExpired
| Failed
| Interrupted.

(** The machine, as far as the program sees it: what each command does and
    the seconds it takes. *)
Record os := {
  sh : str -> proc;
  took : str -> Q
}.

Definition run_cmd (m : os) (cmd : str) : io str :=
  fun t =>
    (match sh m cmd with
     | Completed stdout => Ok stdout
     | TimeoutExpired => Ok []
     | Failed => Ok []
     | Interrupted => Raise KeyboardInterrupt
     end,
     (t + took m cmd)%Q).

(** ** Data collection *)

(** [int(s)] for an optional minus sign and digits. *)
Definition int_of_str (s : str) : Z :=
  match s with
  | 45%N :: s' => - int_of_digits s'
  | _ => int_of_digits s
  end.

(** [int(match.group(1)) if match else d], the idiom of every numeric field. *)
Definition int_field (r : regex) (output : str) (d : Z) : Z :=
  match re_search r output with
  | Some g => int_of_str (group g 1)
  | None => d
  end.

(** [match.group(1) == 'Yes' if match else False]. *)
Definition yes_field (r : regex) (output : str) : bool :=
  match re_search r output with
  | Some g => str_eqb (group g 1) (txt "Yes")
  | None => false
  end.

(** ["Key"\s*=\s*(\d+)] *)
Definition re_key_spaced (key : string) : regex :=
  seq_of [Lit (quoted key); Star is_space; Lit (txt "="); Star is_space;
          Group (Plus is_digit)].

(** ["Key"=(\d+)] *)
Definition re_key_tight (key : string) : regex :=
  seq_of [Lit (quoted key); Lit (txt "="); Group (Plus is_digit)].

(** ["InstantAmperage"\s*=\s*(-?\d+)] *)
Definition re_amperage : regex :=
  seq_of [Lit (quoted "InstantAmperage"); Star is_space; Lit (txt "=");
          Star is_space; Group (Seq (Opt (is_chr 45)) (Plus is_digit))].

(** ["Key"\s*=\s*(Yes|No)] *)
Definition re_key_yes_no (key : string) : regex :=
  seq_of [Lit (quoted key); Star is_space; Lit (txt "="); Star is_space;
          Group (Alt (Lit (txt "Yes")) (Lit (txt "No")))].

(** ["CellVoltage"=\((\d+),(\d+),(\d+)\)] *)
Definition re_cell_voltage : regex :=
  seq_of [Lit (quoted "CellVoltage"); Lit (txt "=("); Group (Plus is_digit);
          Lit (txt ","); Group (Plus is_digit); Lit (txt ",");
          Group (Plus is_digit); Lit (txt ")")].

Record battery_info := {
  current_capacity_mah : Z;
  max_capacity_mah : Z;
  design_capacity_mah : Z;
  voltage_mv : Z;
  amperage_ma : Z;
  is_charging : bool;
  external_connected : bool;
  cycle_count : Z;
  adapter_watts : Z;
  adapter_voltage_mv : Z;
  adapter_current_ma : Z;
  system_power_mw : Z;
  charging_current_ma : Z;
  charging_voltage_mv : Z;
  cell_voltages : list Z
}.

Definition parse_ioreg_battery (m : os) : io battery_info :=
  output <- run_cmd m (txt "ioreg -rn AppleSmartBattery") ;;
  ret {|
    current_capacity_mah := int_field (re_key_spaced "CurrentCapacity") output 0;
    max_capacity_mah := int_field (re_key_spaced "MaxCapacity") output 0;
    design_capacity_mah := int_field (re_key_tight "DesignCapacity") output 0;
    voltage_mv := int_field (re_key_spaced "Voltage") output 0;
    amperage_ma := int_field re_amperage output 0;
    is_charging := yes_field (re_key_yes_no "IsCharging") output;
    external_connected := yes_field (re_key_yes_no "ExternalConnected") output;
    cycle_count := int_field (re_key_tight "CycleCount") output 0;
    adapter_watts := int_field (re_key_tight "Watts") output 0;
    adapter_voltage_mv := int_field (re_key_tight "AdapterVoltage") output 0;
    adapter_current_ma := int_field (re_key_tight "Current") output 0;
    system_power_mw := int_field (re_key_tight "SystemPowerIn") output 0;
    charging_current_ma := int_field (re_key_tight "ChargingCurrent") output 0;
    charging_voltage_mv := int_field (re_key_tight "ChargingVoltage") output 0;
    cell_voltages :=
      match re_search re_cell_voltage output with
      | Some g => List.map (fun i => int_of_str (group g i)) [1; 2; 3]%nat
      | None => [0; 0; 0]
      end
  |}.

Record pmset_info := {
  percentage : Z;
  status : str;
  time_remaining : str
}.

(** [(\d+)%] *)
Definition re_percent : regex := Seq (Group (Plus is_digit)) (Lit (txt "%")).

(** [(\d+:\d+)\s*remaining] *)
Definition re_remaining : regex :=
  seq_of [Group (seq_of [Plus is_digit; Lit (txt ":"); Plus is_digit]);
          Star is_space; Lit (txt "remaining")].

(** The [if]/[elif] chain of [parse_pmset] that names the battery status. *)
Definition pmset_status (output : str) : str :=
  if contains (txt "charging") (lower output)
     && negb (contains (txt "discharging") (lower output))
  then txt "Charging"
  else if contains (txt "discharging") (lower output)
  then txt "Discharging"
  else if contains (txt "charged") (lower output)
  then txt "Fully Charged"
  else if contains (txt "AC Power") output
  then txt "On AC"
  else txt "Unknown".

Definition parse_pmset (m : os) : io pmset_info :=
  output <- run_cmd m (txt "pmset -g batt") ;;
  ret {|
    percentage := int_field re_percent output 0;
    status := pmset_status output;
    time_remaining :=
      match re_search re_remaining output with
      | Some g => group g 1
      | None => txt "N/A"
      end
  |}.

Record thermal_info := { cpu_speed_limit : Z }.

(** [CPU_Speed_Limit\s*=\s*(\d+)] *)
Definition re_speed_limit : regex :=
  seq_of [Lit (txt "CPU_Speed_Limit"); Star is_space; Lit (txt "=");
          Star is_space; Group (Plus is_digit)].

Definition parse_thermal (m : os) : io thermal_info :=
  output <- run_cmd m (txt "pmset -g therm") ;;
  ret {| cpu_speed_limit := int_field re_speed_limit output 100 |}.

(** [(D)%\s*user.*?(D)%\s*sys] where [D] is [\d+\.?\d*], a group. *)
Definition re_decimal : regex :=
  Group (seq_of [Plus is_digit; Opt (is_chr 46); Star is_digit]).

Definition re_cpu_usage : regex :=
  seq_of [re_decimal; Lit (txt "%"); Star is_space; Lit (txt "user");
          LazyStar is_dot; re_decimal; Lit (txt "%"); Star is_space;
          Lit (txt "sys")].

Definition get_cpu_usage (m : os) : io Q :=
  output <- run_cmd m (txt "top -l 1 -n 0 | grep 'CPU usage'") ;;
  match re_search re_cpu_usage output with
  | Some g =>
      user <- lift (py_float (group g 1)) ;;
      sys <- lift (py_float (group g 2)) ;;
      ret (user + sys)%Q
  | None => ret 0%Q
  end.

(** [int(s)] for a string that passed [isdigit]: the superscript digits
    pass that test and are refused by [int]. *)
Definition int_of_isdigit (s : str) : result Z :=
  if forallb is_digit s then Ok (int_of_digits s) else Raise ValueError.

(** A [dict] from strings to integers: the latest binding of a key wins. *)
Definition dict := list (str * Z).

Definition dict_set (k : str) (v : Z) (d : dict) : dict := (k, v) :: d.

Fixpoint dict_get (d : dict) (k : str) (default : Z) : Z :=
  match d with
  | [] => default
  | (k', v) :: d' => if str_eqb k' k then v else dict_get d' k default
  end.

(** [(.+):\s+(\d+)] *)
Definition re_vm_stat_line : regex :=
  seq_of [Group (Plus is_dot); Lit (txt ":"); Plus is_space;
          Group (Plus is_digit)].

Definition GiB : Z := 1024 ^ 3.

Module Memory.
Record info := {
  total_gb : Q;
  app_gb : Q;
  wired_gb : Q;
  compressed_gb : Q;
  cached_gb : Q;
  free_gb : Q;
  purgeable_gb : Q;
  used_pct : Q
}.
End Memory.

Definition get_memory_info (m : os) : io Memory.info :=
  output <- run_cmd m (txt "sysctl -n hw.memsize") ;;
  total_bytes <- lift (if isdigit (strip output)
                       then int_of_isdigit (strip output)
                       else Ok (16 * GiB)) ;;
  let total_gb := (Qz total_bytes / Qz GiB)%Q in
  output <- run_cmd m (txt "vm_stat") ;;
  let pages :=
    fold_left (fun pages line =>
                 match re_match re_vm_stat_line line with
                 | Some g => dict_set (strip (group g 1))
                                      (int_of_str (group g 2)) pages
                 | None => pages
                 end)
              (split_lines output) [] in
  page_size_output <- run_cmd m (txt "pagesize") ;;
  page_size <- lift (if isdigit (strip page_size_output)
                     then int_of_isdigit (strip page_size_output)
                     else Ok 16384) ;;
  let free := dict_get pages (txt "Pages free") 0 * page_size in
  let active := dict_get pages (txt "Pages active") 0 * page_size in
  let inactive := dict_get pages (txt "Pages inactive") 0 * page_size in
  let speculative := dict_get pages (txt "Pages speculative") 0 * page_size in
  let wired := dict_get pages (txt "Pages wired down") 0 * page_size in
  let compressed :=
    dict_get pages (txt "Pages occupied by compressor") 0 * page_size in
  let purgeable := dict_get pages (txt "Pages purgeable") 0 * page_size in
  let app_memory := active + wired in
  let cached := inactive + purgeable + speculative in
  used <- lift (truediv (Qz (app_memory + compressed)) (Qz total_bytes)) ;;
  ret {|
    Memory.total_gb := total_gb;
    Memory.app_gb := Qz app_memory / Qz GiB;
    Memory.wired_gb := Qz wired / Qz GiB;
    Memory.compressed_gb := Qz compressed / Qz GiB;
    Memory.cached_gb := Qz cached / Qz GiB;
    Memory.free_gb := Qz free / Qz GiB;
    Memory.purgeable_gb := Qz purgeable / Qz GiB;
    Memory.used_pct := used * 100
  |}%Q.

Module Disk.
Record info := {
  total_gb : Q;
  used_gb : Q;
  available_gb : Q;
  used_pct : Z;
  purgeable_gb : Q
}.
End Disk.

Definition is_digit_or_dot (c : char) : bool := is_digit c || is_chr 46 c.

(** [<label>\s*([\d.]+)\s*(<unit>|...)] *)
Definition re_space (label : string) (units : regex) : regex :=
  seq_of [Lit (txt label); Star is_space; Group (Plus is_digit_or_dot);
          Star is_space; Group units].

Definition GB_TB : regex := Alt (Lit (txt "GB")) (Lit (txt "TB")).
Definition GB_TB_MB : regex := Alt (Lit (txt "GB")) (Alt (Lit (txt "TB")) (Lit (txt "MB"))).

(** The size a match stands for, in GB. *)
Definition size_gb (g : groups) : result Q :=
  size <- py_float (group g 1) ;;
  if str_eqb (group g 2) (txt "TB") then Ok (size * 1024)%Q
  else if str_eqb (group g 2) (txt "MB") then Ok (size / 1024)%Q
  else Ok size.

Definition get_disk_info (m : os) : io Disk.info :=
  let info := {| Disk.total_gb := 0; Disk.used_gb := 0; Disk.available_gb := 0;
                 Disk.used_pct := 0; Disk.purgeable_gb := 0 |} in
  output <- run_cmd m (txt "diskutil info /") ;;
  total <- lift match re_search (re_space "Container Total Space:" GB_TB)
                         output with
                | Some g => size_gb g
                | None => Ok (Disk.total_gb info)
                end ;;
  free <- lift match re_search (re_space "Container Free Space:" GB_TB)
                        output with
               | Some g => size <- size_gb g ;; Ok (size, size)
               | None => Ok (Disk.available_gb info, Disk.purgeable_gb info)
               end ;;
  used <- lift match re_search (re_space "Volume Used Space:" GB_TB_MB)
                        output with
               | Some g => size_gb g
               | None => Ok (Disk.used_gb info)
               end ;;
  let used :=
    if Qeq_bool used 0 && Qgtb total 0 then (total - fst free)%Q else used in
  pct <- lift (if Qgtb total 0
               then ratio <- truediv used total ;; Ok (py_int (ratio * 100))
               else Ok (Disk.used_pct info)) ;;
  ret {| Disk.total_gb := total; Disk.used_gb := used;
        Disk.available_gb := fst free; Disk.used_pct := pct;
        Disk.purgeable_gb := snd free |}.

(** ** Display *)

(** The default glyphs of [make_bar], as the source file stores them. *)
Definition fill_default : str := [226; 8211; 710]%N.
Definition empty_default : str := [226; 8211; 8216]%N.

Definition make_bar (pct : Q) (width : Z) (fill empty : str) : str :=
  let pct := py_max 0 (py_min 100 pct) in
  let filled := py_int (Qz width * pct / 100) in
  str_repeat fill filled ++ str_repeat empty (width - filled).

Inductive color := GREEN | YELLOW | RED | CYAN | WHITE.

(** An attribute: a colour pair, with [curses.A_BOLD] or without. *)
Definition attr := (color * bool)%type.
Definition plain (c : color) : attr := (c, false).
Definition BOLD (c : color) : attr := (c, true).

(** One call [stdscr.addstr(row, col, text, attr)]. *)
Record cell := {
  at_row : Z;
  at_col : Z;
  text : str;
  look : attr
}.

Definition addstr (row col : Z) (t : str) (a : attr) : cell :=
  {| at_row := row; at_col := col; text := t; look := a |}.

(** [GREEN if x < lo else YELLOW if x < hi else RED] *)
Definition band_below (x lo hi : Q) : color :=
  if Qltb x lo then GREEN else if Qltb x hi then YELLOW else RED.

(** [GREEN if x > hi else YELLOW if x > lo else RED] *)
Definition band_above (x hi lo : Q) : color :=
  if Qgtb x hi then GREEN else if Qgtb x lo then YELLOW else RED.

(** [x[...]] on a local that may hold [None]. *)
Definition subscript {A} (x : option A) : result A :=
  match x with
  | Some a => Ok a
  | None => Raise TypeError
  end.

(** [cells[i]] *)
Definition item (l : list Z) (i : nat) : result Z :=
  match nth_error l i with
  | Some v => Ok v
  | None => Raise IndexError
  end.

(** [mins = int(hours * 60); h, m = divmod(mins, 60)] and the text
    ["{h}h {m:02d}m"]. *)
Definition h_m (hours : float) : result str :=
  mins <- int_of_float (float_mul hours (float_of_int 60)) ;;
  let '(h, m) := divmod60 mins in
  Ok (str_of_Z h ++ txt "h " ++ fmt_02d m ++ txt "m").

(** The rule of [=] signs under and over the header and over the footer. *)
Definition rule (width : Z) : str := str_repeat (txt "=") (Z.min (width - 1) 65).

Definition icon_power : str := [226; 353; 161]%N.
Definition icon_system : str := [240; 376; 8217; 187]%N.
Definition icon_memory : str := [240; 376; 167; 160]%N.
Definition icon_disk : str := [240; 376; 8217; 190]%N.
Definition icon_battery : str := [240; 376; 8221; 8249]%N.
Definition icon_plug : str := [240; 376; 8221; 338]%N.
Definition icon_chart : str := [240; 376; 8220; 352]%N.

Definition bar (pct : Q) (width : Z) : str :=
  make_bar pct width fill_default empty_default.

(** *** Derived quantities of the battery block *)

(** [(max / design * 100) if design > 0 else 0] *)
Definition battery_health (b : battery_info) : result Q :=
  if 0 <? design_capacity_mah b
  then q <- truediv (Qz (max_capacity_mah b)) (Qz (design_capacity_mah b)) ;;
       Ok (q * 100)%Q
  else Ok 0%Q.

(** [charging_current_ma * voltage_mv / 1000000] *)
Definition charge_power (b : battery_info) : Q :=
  (Qz (charging_current_ma b * voltage_mv b) / 1000000)%Q.

(** The time-to-full line of the charging block, when one is written. *)
Definition time_to_full (b : battery_info) : result (option str) :=
  let remaining_mah := max_capacity_mah b - current_capacity_mah b in
  if 0 <? charging_current_ma b
  then hours_to_full <- int_truediv remaining_mah (charging_current_ma b) ;;
       t <- h_m hours_to_full ;;
       Ok (Some (txt "Time to Full:   " ++ t))
  else Ok None.

(** [abs(amperage_ma)] and the power it stands for. *)
Definition discharge_ma (b : battery_info) : Z := Z.abs (amperage_ma b).

Definition discharge_power (b : battery_info) : Q :=
  (Qz (discharge_ma b * voltage_mv b) / 1000000)%Q.

(** The time-to-empty line of the discharging block, when one is written. *)
Definition time_to_empty (b : battery_info) : result (option str) :=
  if 0 <? discharge_ma b
  then hours <- int_truediv (current_capacity_mah b) (discharge_ma b) ;;
       t <- h_m hours ;;
       Ok (Some (txt "Time to Empty:  " ++ t))
  else Ok None.

(** The figures of the power balance block. *)
Definition system_w (b : battery_info) : Q := (Qz (system_power_mw b) / 1000)%Q.

Definition balance_charge (b : battery_info) : Q :=
  if is_charging b then charge_power b else 0%Q.

Definition balance_total (b : battery_info) : Q :=
  (system_w b + balance_charge b)%Q.

Definition balance_headroom (b : battery_info) : Q :=
  (Qz (adapter_watts b) - balance_total b)%Q.

(** [min(100, total / adapter_max * 100) if adapter_max > 0 else 0] *)
Definition balance_pct (b : battery_info) : result Q :=
  if 0 <? adapter_watts b
  then q <- truediv (balance_total b) (Qz (adapter_watts b)) ;;
       Ok (py_min 100 (q * 100))%Q
  else Ok 0%Q.

(** *** The frame, section by section

    Every section takes the current [row], and returns the calls of
    [addstr] it makes and the row it leaves. *)

Definition frame := list cell.

Definition header_section (width : Z) (now : str) (row : Z) : frame * Z :=
  let header := txt " MacBook Power Monitor - " ++ now ++ txt " " in
  ([addstr row 0 (rule width) (BOLD CYAN);
    addstr (row + 1) 0 (center header 65) (BOLD CYAN);
    addstr (row + 2) 0 (rule width) (BOLD CYAN)],
   row + 4).

Definition power_source_section (b : battery_info) (row : Z) : frame * Z :=
  let title := addstr row 0 (icon_power ++ txt " POWER SOURCE") (BOLD YELLOW) in
  let row := row + 1 in
  if external_connected b
  then ([title;
         addstr row 2
           (txt "Adapter:        " ++ str_of_Z (adapter_watts b) ++ txt "W")
           (plain GREEN);
         addstr (row + 1) 2
           (txt "Voltage:        "
            ++ fmt_f 1 (Qz (adapter_voltage_mv b) / 1000) ++ txt "V @ "
            ++ fmt_f 1 (Qz (adapter_current_ma b) / 1000) ++ txt "A max")
           (plain WHITE)],
        row + 1 + 2)
  else ([title; addstr row 2 (txt "Source:         Battery Only") (plain YELLOW)],
        row + 2).

Definition system_section (b : battery_info) (cpu : Q)
  (thermal : option thermal_info) (row : Z) : result (frame * Z) :=
  let title := addstr row 0 (icon_system ++ txt " SYSTEM") (BOLD YELLOW) in
  let row := row + 1 in
  let draw := addstr row 2
    (txt "Power Draw:     " ++ fmt_f 1 (system_w b) ++ txt "W") (plain WHITE) in
  let row := row + 1 in
  let cpu_color := band_below cpu 50 80 in
  let usage :=
    [addstr row 2 (txt "CPU Usage:      ") (plain WHITE);
     addstr row 18 (bar cpu 20) (plain cpu_color);
     addstr row 40 (txt " " ++ fmt_f 1 cpu ++ txt "%") (plain WHITE)] in
  let row := row + 1 in
  th <- subscript thermal ;;
  let throttle_color := if cpu_speed_limit th =? 100 then WHITE else RED in
  Ok ([title; draw] ++ usage
      ++ [addstr row 2
            (txt "CPU Throttle:   " ++ str_of_Z (cpu_speed_limit th) ++ txt "%")
            (plain throttle_color)],
      row + 2).

Definition memory_section (memory : option Memory.info) (row : Z)
  : result (frame * Z) :=
  let title := addstr row 0 (icon_memory ++ txt " MEMORY") (BOLD YELLOW) in
  let row := row + 1 in
  m <- subscript memory ;;
  let mem_color := band_below (Memory.used_pct m) 70 90 in
  Ok ([title;
       addstr row 2
         (txt "Used:           " ++ fmt_f 1 (Memory.app_gb m) ++ txt "/"
          ++ fmt_f 0 (Memory.total_gb m) ++ txt " GB ("
          ++ fmt_f 0 (Memory.used_pct m) ++ txt "%)  ")
         (plain WHITE);
       addstr row 42 (bar (Memory.used_pct m) 15) (plain mem_color);
       addstr (row + 1) 2
         (txt "Wired: " ++ fmt_f 1 (Memory.wired_gb m)
          ++ txt "GB  Compressed: " ++ fmt_f 1 (Memory.compressed_gb m)
          ++ txt "GB  Cached: " ++ fmt_f 1 (Memory.cached_gb m) ++ txt "GB")
         (plain WHITE)],
      row + 1 + 2).

Definition disk_section (disk : option Disk.info) (row : Z)
  : result (frame * Z) :=
  let title := addstr row 0 (icon_disk ++ txt " DISK") (BOLD YELLOW) in
  let row := row + 1 in
  d <- subscript disk ;;
  let disk_color := band_below (Qz (Disk.used_pct d)) 70 90 in
  Ok ([title;
       addstr row 2
         (txt "Used:           " ++ fmt_f 0 (Disk.used_gb d) ++ txt "/"
          ++ fmt_f 0 (Disk.total_gb d) ++ txt " GB ("
          ++ str_of_Z (Disk.used_pct d) ++ txt "%)  ")
         (plain WHITE);
       addstr row 42 (bar (Qz (Disk.used_pct d)) 15) (plain disk_color);
       addstr (row + 1) 2
         (txt "Available: " ++ fmt_f 0 (Disk.available_gb d)
          ++ txt "GB  Purgeable: " ++ fmt_f 1 (Disk.purgeable_gb d) ++ txt "GB")
         (plain WHITE)],
      row + 1 + 2).

Definition battery_section (b : battery_info) (pmset : option pmset_info)
  (row : Z) : result (frame * Z) :=
  let title := addstr row 0 (icon_battery ++ txt " BATTERY") (BOLD YELLOW) in
  let row := row + 1 in
  pm <- subscript pmset ;;
  let batt_pct := percentage pm in
  let batt_color := band_above (Qz batt_pct) 50 20 in
  let status_color := if is_charging b then GREEN else WHITE in
  let charge :=
    [addstr row 2 (txt "Charge:         ") (plain WHITE);
     addstr row 18 (bar (Qz batt_pct) 20) (plain batt_color);
     addstr row 40 (txt " " ++ str_of_Z batt_pct ++ txt "% " ++ status pm)
       (plain status_color)] in
  let row := row + 1 in
  let capacity := addstr row 2
    (txt "Capacity:       " ++ str_of_Z (current_capacity_mah b) ++ txt "/"
     ++ str_of_Z (max_capacity_mah b) ++ txt " mAh") (plain WHITE) in
  let row := row + 1 in
  health <- battery_health b ;;
  let health_color := band_above health 80 60 in
  let health_row := addstr row 2
    (txt "Health:         " ++ fmt_f 1 health ++ txt "%  Cycles: "
     ++ str_of_Z (cycle_count b)) (plain health_color) in
  let row := row + 1 in
  let voltage := addstr row 2
    (txt "Voltage:        " ++ fmt_f 2 (Qz (voltage_mv b) / 1000) ++ txt "V")
    (plain WHITE) in
  let row := row + 1 in
  let cells := cell_voltages b in
  c0 <- item cells 0 ;;
  c1 <- item cells 1 ;;
  c2 <- item cells 2 ;;
  Ok ([title] ++ charge
      ++ [capacity; health_row; voltage;
          addstr row 2
            (txt "Cells:          " ++ str_of_Z c0 ++ txt "mV | "
             ++ str_of_Z c1 ++ txt "mV | " ++ str_of_Z c2 ++ txt "mV")
            (plain WHITE)],
      row + 2).

(** The charging block when [is_charging], else the discharging block when
    no adapter is connected, else nothing. *)
Definition charge_section (b : battery_info) (row : Z) : result (frame * Z) :=
  if is_charging b then
    let title := addstr row 0 (icon_power ++ txt " CHARGING") (BOLD GREEN) in
    let row := row + 1 in
    let power := addstr row 2
      (txt "Power:          " ++ fmt_f 1 (charge_power b) ++ txt "W ("
       ++ fmt_f 2 (Qz (charging_current_ma b) / 1000) ++ txt "A @ "
       ++ fmt_f 2 (Qz (charging_voltage_mv b) / 1000) ++ txt "V)")
      (plain WHITE) in
    let row := row + 1 in
    line <- time_to_full b ;;
    Ok ([title; power]
        ++ match line with
           | Some t => [addstr row 2 t (plain GREEN)]
           | None => []
           end,
        row + 2)
  else if negb (external_connected b) then
    let title := addstr row 0 (icon_plug ++ txt " DISCHARGING") (BOLD YELLOW) in
    let row := row + 1 in
    let power := addstr row 2
      (txt "Power:          " ++ fmt_f 1 (discharge_power b) ++ txt "W ("
       ++ fmt_f 2 (Qz (discharge_ma b) / 1000) ++ txt "A)")
      (plain WHITE) in
    let row := row + 1 in
    line <- time_to_empty b ;;
    Ok ([title; power]
        ++ match line with
           | Some t => [addstr row 2 t (plain YELLOW)]
           | None => []
           end,
        row + 2)
  else Ok ([], row + 2).

(** The bar line of the power balance block: ["[{make_bar(pct, 40)}] {pct:.0f}%"]. *)
Definition balance_bar_text (pct : Q) : str :=
  txt "[" ++ bar pct 40 ++ txt "] " ++ fmt_f 0 pct ++ txt "%".

Definition balance_section (b : battery_info) (row : Z) : result (frame * Z) :=
  if external_connected b then
    let title := addstr row 0 (icon_chart ++ txt " POWER BALANCE") (BOLD YELLOW) in
    let row := row + 1 in
    let adapter_max := adapter_watts b in
    let system := system_w b in
    let charge := balance_charge b in
    let total := balance_total b in
    let headroom := balance_headroom b in
    pct <- balance_pct b ;;
    let sum := addstr row 2
      (txt "System: " ++ fmt_f 0 system ++ txt "W + Charging: "
       ++ fmt_f 0 charge ++ txt "W = " ++ fmt_f 0 total ++ txt "W / "
       ++ str_of_Z adapter_max ++ txt "W") (plain WHITE) in
    let row := row + 1 in
    let bar_color := band_below pct 70 90 in
    let gauge := addstr row 2 (balance_bar_text pct) (plain bar_color) in
    let row := row + 1 in
    let margin :=
      if Qgeb headroom 0
      then addstr row 2 (txt "Headroom: " ++ fmt_f 0 headroom ++ txt "W")
             (plain (if Qgtb headroom 20 then GREEN else YELLOW))
      else addstr row 2
             (txt "Battery supplementing: " ++ fmt_f 0 (- headroom)
              ++ txt "W (adapter maxed)") (plain RED) in
    Ok ([title; sum; gauge; margin], row + 2)
  else Ok ([], row).

Definition update_interval : Q := 10.

Definition footer_section (width : Z) (current_time last_update : Q) (row : Z)
  : frame :=
  let countdown := py_int (update_interval - (current_time - last_update)) in
  [addstr row 0 (rule width) (plain CYAN);
   addstr (row + 1) 0
     (txt " [Q] Quit  [R] Refresh  Next update: " ++ str_of_Z countdown
      ++ txt "s ") (plain WHITE)].

(** ** The loop of [draw_dashboard] *)

(** The locals of [draw_dashboard] that live across iterations. *)
Record locals := {
  last_update : Q;
  battery : option battery_info;
  pmset : option pmset_info;
  thermal : option thermal_info;
  cpu : Q;
  memory : option Memory.info;
  disk : option Disk.info
}.

(** Their values before the loop. *)
Definition initial : locals := {|
  last_update := 0;
  battery := None; pmset := None; thermal := None;
  cpu := 0;
  memory := None; disk := None
|}.

(** What the world answers during one iteration. *)
Record tick_input := {
  current_time : Q;         (* [time.time()] at the top of the iteration *)
  key : Z;                  (* [stdscr.getch()], -1 when no key is pending *)
  machine : os;             (* the commands, were they run now *)
  width : Z;                (* of [stdscr.getmaxyx()] *)
  now : str                 (* [datetime.now().strftime(...)] *)
}.

(** The body of the loop from [stdscr.erase()] to the footer. *)
Definition draw (i : tick_input) (v : locals) : result frame :=
  b <- subscript (battery v) ;;
  let row := 0 in
  let '(f1, row) := header_section (width i) (now i) row in
  let '(f2, row) := power_source_section b row in
  '(f3, row) <- system_section b (cpu v) (thermal v) row ;;
  '(f4, row) <- memory_section (memory v) row ;;
  '(f5, row) <- disk_section (disk v) row ;;
  '(f6, row) <- battery_section b (pmset v) row ;;
  '(f7, row) <- charge_section b row ;;
  '(f8, row) <- balance_section b row ;;
  Ok (f1 ++ f2 ++ f3 ++ f4 ++ f5 ++ f6 ++ f7 ++ f8
      ++ footer_section (width i) (current_time i) (last_update v) row).

(** The six data-collection functions, as the loop calls them. *)
Inductive provider :=
| Pioreg      (* parse_ioreg_battery *)
| Ppmset      (* parse_pmset *)
| Pthermal    (* parse_thermal *)
| Pcpu        (* get_cpu_usage *)
| Pmemory     (* get_memory_info *)
| Pdisk.      (* get_disk_info *)

(** What an iteration does that the world can see: it calls a provider (at
    a given reading of the clock), it assigns [last_update] (at a given
    reading of the clock, with a given value), it draws a frame from the
    locals it holds, it sleeps. *)
Inductive event :=
| Called (p : provider) (at_time : Q)
| Committed (at_time : Q) (value : Q)
| Drew (seen : locals) (f : frame)
| Slept.

Definition trace := list event.

(** A call of a provider from the loop: the call is recorded, and the
    clock moves as the provider lets it. *)
Definition call {A} (p : provider) (c : io A) (log : trace) (t : Q)
  : trace * result A * Q :=
  let '(r, t') := c t in
  (log ++ [Called p t], r, t').

(** The assignments to the locals. *)
Definition set_battery (x : battery_info) (v : locals) : locals := {|
  last_update := last_update v;
  battery := Some x; pmset := pmset v; thermal := thermal v;
  cpu := cpu v; memory := memory v; disk := disk v
|}.

Definition set_pmset (x : pmset_info) (v : locals) : locals := {|
  last_update := last_update v;
  battery := battery v; pmset := Some x; thermal := thermal v;
  cpu := cpu v; memory := memory v; disk := disk v
|}.

Definition set_thermal (x : thermal_info) (v : locals) : locals := {|
  last_update := last_update v;
  battery := battery v; pmset := pmset v; thermal := Some x;
  cpu := cpu v; memory := memory v; disk := disk v
|}.

Definition set_cpu (x : Q) (v : locals) : locals := {|
  last_update := last_update v;
  battery := battery v; pmset := pmset v; thermal := thermal v;
  cpu := x; memory := memory v; disk := disk v
|}.

Definition set_memory (x : Memory.info) (v : locals) : locals := {|
  last_update := last_update v;
  battery := battery v; pmset := pmset v; thermal := thermal v;
  cpu := cpu v; memory := Some x; disk := disk v
|}.

Definition set_disk (x : Disk.info) (v : locals) : locals := {|
  last_update := last_update v;
  battery := battery v; pmset := pmset v; thermal := thermal v;
  cpu := cpu v; memory := memory v; disk := Some x
|}.

Definition set_last_update (x : Q) (v : locals) : locals := {|
  last_update := x;
  battery := battery v; pmset := pmset v; thermal := thermal v;
  cpu := cpu v; memory := memory v; disk := disk v
|}.

(** The body of [if current_time - last_update >= update_interval:],
    started when the clock reads [t]: six calls, each assigned to its
    local as it returns, then [last_update = current_time].  An exception
    leaves [draw_dashboard], and its locals with it. *)
Definition refresh (i : tick_input) (v : locals) (t : Q) : trace * result locals :=
  let m := machine i in
  let '(log, r, t) := call Pioreg (parse_ioreg_battery m) [] t in
  match r with
  | Raise e => (log, Raise e)
  | Ok x =>
  let v := set_battery x v in
  let '(log, r, t) := call Ppmset (parse_pmset m) log t in
  match r with
  | Raise e => (log, Raise e)
  | Ok x =>
  let v := set_pmset x v in
  let '(log, r, t) := call Pthermal (parse_thermal m) log t in
  match r with
  | Raise e => (log, Raise e)
  | Ok x =>
  let v := set_thermal x v in
  let '(log, r, t) := call Pcpu (get_cpu_usage m) log t in
  match r with
  | Raise e => (log, Raise e)
  | Ok x =>
  let v := set_cpu x v in
  let '(log, r, t) := call Pmemory (get_memory_info m) log t in
  match r with
  | Raise e => (log, Raise e)
  | Ok x =>
  let v := set_memory x v in
  let '(log, r, t) := call Pdisk (get_disk_info m) log t in
  match r with
  | Raise e => (log, Raise e)
  | Ok x =>
  let v := set_disk x v in
  (log ++ [Committed t (current_time i)],
   Ok (set_last_update (current_time i) v))
  end end end end end end.

(** [ord(c)] *)
Definition ord (c : ascii) : Z := Z.of_N (N_of_ascii c).

Definition is_quit (k : Z) : bool := (k =? ord "q") || (k =? ord "Q").
Definition is_refresh (k : Z) : bool := (k =? ord "r") || (k =? ord "R").

(** How an iteration ends: the loop goes on with new locals, [break]
    leaves it, or an exception leaves [draw_dashboard]. *)
Inductive outcome :=
| Next (v : locals)
| Break
| Raised (e : exn).

(** The test of the scheduler, on the locals as the key handling left
    them. *)
Definition due (i : tick_input) (v : locals) : bool :=
  Qgeb (current_time i - last_update v) update_interval.

(** One iteration of [while True:]. *)
Definition tick (i : tick_input) (v : locals) : trace * outcome :=
  if is_quit (key i) then ([], Break)
  else
    let v := if is_refresh (key i) then set_last_update 0 v else v in
    let '(log, r) :=
      if due i v then refresh i v (current_time i) else ([], Ok v) in
    match r with
    | Raise e => (log, Raised e)
    | Ok v =>
        match battery v with
        | None => (log, Next v)
        | Some _ =>
            match draw i v with
            | Ok f => (log ++ [Drew v f; Slept], Next v)
            | Raise e => (log, Raised e)
            end
        end
    end.

(** The loop over the iterations that the inputs describe, from given
    locals: it stops at the first [break] or exception. *)
Fixpoint run (ins : list tick_input) (v : locals) : trace * outcome :=
  match ins with
  | [] => ([], Next v)
  | i :: ins' =>
      let '(log, o) := tick i v in
      match o with
      | Next v' => let '(log', o') := run ins' v' in (log ++ log', o')
      | _ => (log, o)
      end
  end.

(** [draw_dashboard], for as many iterations as there are inputs. *)
Definition draw_dashboard (ins : list tick_input) : trace * outcome :=
  run ins initial.

(** ** Samples used below *)

(** A pack that discharges at 2.5 A under 11.1 V with 4000 mAh left. *)
Definition on_battery : battery_info := {|
  current_capacity_mah := 4000; max_capacity_mah := 5000;
  design_capacity_mah := 5500; voltage_mv := 11100; amperage_ma := -2500;
  is_charging := false; external_connected := false; cycle_count := 120;
  adapter_watts := 0; adapter_voltage_mv := 0; adapter_current_ma := 0;
  system_power_mw := 0; charging_current_ma := 0; charging_voltage_mv := 0;
  cell_voltages := [3700; 3701; 3699]
|}.


(** An adapter is connected and the registry dump has no ["Watts"] key. *)
Definition unrated : battery_info := {|
  current_capacity_mah := 4000; max_capacity_mah := 5000;
  design_capacity_mah := 5500; voltage_mv := 12000; amperage_ma := 0;
  is_charging := false; external_connected := true; cycle_count := 120;
  adapter_watts := 0; adapter_voltage_mv := 20000; adapter_current_ma := 4800;
  system_power_mw := 12000; charging_current_ma := 0;
  charging_voltage_mv := 0;
  cell_voltages := [4000; 4000; 4000]
|}.

(** A pack that charges at 1000 mA with 4100 mAh to go. *)
Definition topping_up : battery_info := {|
  current_capacity_mah := 900; max_capacity_mah := 5000;
  design_capacity_mah := 5500; voltage_mv := 12000; amperage_ma := 1000;
  is_charging := true; external_connected := true; cycle_count := 120;
  adapter_watts := 96; adapter_voltage_mv := 20000; adapter_current_ma := 4800;
  system_power_mw := 12000; charging_current_ma := 1000;
  charging_voltage_mv := 12600;
  cell_voltages := [4000; 4000; 4000]
|}.

(** A machine on which every command runs into the timeout. *)
Definition silent : os := {|
  sh := fun _ => TimeoutExpired;
  took := fun _ => 5%Q
|}.

(** A machine on which [sysctl -n hw.memsize] prints 0 and every other
    command prints nothing. *)
Definition no_memory : os := {|
  sh := fun c => if str_eqb c (txt "sysctl -n hw.memsize")
                 then Completed (txt "0") else Completed [];
  took := fun _ => 0%Q
|}.

Definition no_key : Z := -1.

Definition at_time (t : Q) (k : Z) (m : os) : tick_input := {|
  current_time := t; key := k; machine := m; width := 80;
  now := txt "2025-11-29 10:00:00"
|}.

(** Locals after a refresh of [silent] at 1000 s. *)
Definition cached : locals :=
  match refresh (at_time 1000 no_key silent) initial 1000 with
  | (_, Ok v) => v
  | (_, Raise _) => initial
  end.

(** ** What the claims speak of *)

(** A command that gives [run_cmd] nothing to return: it runs into the
    timeout or cannot be run. *)
Definition fails (m : os) (cmd : string) : Prop :=
  sh m (txt cmd) = TimeoutExpired \/ sh m (txt cmd) = Failed.

(** A frame shows the marker of an undefined figure, a dash. *)
Definition shows_dash (f : frame) : Prop :=
  exists c, In c f /\ contains (txt "-") (text c) = true.

Definition calls (log : trace) : list provider :=
  flat_map (fun e => match e with Called p _ => [p] | _ => [] end) log.

Definition all_six : list provider :=
  [Pioreg; Ppmset; Pthermal; Pcpu; Pmemory; Pdisk].

(** No sample is held: the locals are as before the loop. *)
Definition unset (v : locals) : Prop :=
  battery v = None /\ pmset v = None /\ thermal v = None /\ cpu v = 0%Q
  /\ memory v = None /\ disk v = None.

(** The six samples that the providers return when called in turn on the
    machine of iteration [i], from its reading of the clock on; [ts] holds
    the clock at each of the six calls and, last, when the sixth has
    returned. *)
Record batch := {
  b_battery : battery_info;
  b_pmset : pmset_info;
  b_thermal : thermal_info;
  b_cpu : Q;
  b_memory : Memory.info;
  b_disk : Disk.info
}.

Definition collected (i : tick_input) (s : batch) (ts : list Q) : Prop :=
  exists t1 t2 t3 t4 t5 t6,
    ts = [current_time i; t1; t2; t3; t4; t5; t6]
    /\ parse_ioreg_battery (machine i) (current_time i) = (Ok (b_battery s), t1)
    /\ parse_pmset (machine i) t1 = (Ok (b_pmset s), t2)
    /\ parse_thermal (machine i) t2 = (Ok (b_thermal s), t3)
    /\ get_cpu_usage (machine i) t3 = (Ok (b_cpu s), t4)
    /\ get_memory_info (machine i) t4 = (Ok (b_memory s), t5)
    /\ get_disk_info (machine i) t5 = (Ok (b_disk s), t6).

(** The locals hold exactly the samples of [s]. *)
Definition holds (v : locals) (s : batch) : Prop :=
  battery v = Some (b_battery s) /\ pmset v = Some (b_pmset s)
  /\ thermal v = Some (b_thermal s) /\ cpu v = b_cpu s
  /\ memory v = Some (b_memory s) /\ disk v = Some (b_disk s).

(** The locals hold the batch of one refresh, that of iteration [i]. *)
Definition batch_of (i : tick_input) (v : locals) : Prop :=
  exists s ts, collected i s ts /\ holds v s.

(** The trace of a refresh that ran to its end: the six calls in the order
    of the source, each at its reading of the clock, and the assignment of
    [last_update]. *)
Definition refresh_trace (i : tick_input) (ts : list Q) : trace :=
  List.map (fun x => Called (fst x) (snd x)) (combine all_six ts)
  ++ [Committed (last ts 0%Q) (current_time i)].

(** The clock reading recorded by the calls of a trace, in order. *)
Definition call_times (log : trace) : list Q :=
  flat_map (fun e => match e with Called _ t => [t] | _ => [] end) log.

Definition commits (log : trace) : list (Q * Q) :=
  flat_map (fun e => match e with Committed t x => [(t, x)] | _ => [] end) log.

(** The locals are as before the loop, or hold the batch of one of the
    iterations that [P] admits. *)
Definition settled (P : tick_input -> Prop) (v : locals) : Prop :=
  unset v \/ exists j, P j /\ batch_of j v.

(** A computation under which the clock does not run backwards. *)
Definition advances {A} (c : io A) : Prop :=
  forall t, (t <= snd (c t))%Q.

(** ** What a pattern matches

    [captures r w cs]: the pattern [r] matches the whole of [w], and its
    groups, in order, hold the texts [cs]. *)
Fixpoint captures (r : regex) (w : str) (cs : groups) : Prop :=
  match r with
  | Lit l => w = l /\ cs = []
  | Star p => forallb p w = true /\ cs = []
  | Plus p => w <> [] /\ forallb p w = true /\ cs = []
  | LazyStar p => forallb p w = true /\ cs = []
  | Opt p => (w = [] \/ exists c, w = [c] /\ p c = true) /\ cs = []
  | Alt a b => captures a w cs \/ captures b w cs
  | Seq a b =>
      exists w1 w2 c1 c2,
        w = w1 ++ w2 /\ cs = c1 ++ c2 /\ captures a w1 c1 /\ captures b w2 c2
  | Group a => exists c0, captures a w c0 /\ cs = c0 ++ [w]
  end.

(** A string of decimal digits, one at least. *)
Definition digits (w : str) : Prop := w <> [] /\ forallb is_digit w = true.

(** A machine that answers as a laptop on battery does. *)
Definition laptop : os := {|
  sh := fun c =>
    if str_eqb c (txt "ioreg -rn AppleSmartBattery") then
      Completed
        (txt "      " ++ quoted "CurrentCapacity" ++ txt " = 4000
      " ++ quoted "MaxCapacity" ++ txt " = 5000
      " ++ quoted "DesignCapacity" ++ txt "=5500
      " ++ quoted "Voltage" ++ txt " = 11100
      " ++ quoted "InstantAmperage" ++ txt " = -2500
      " ++ quoted "IsCharging" ++ txt " = No
      " ++ quoted "ExternalConnected" ++ txt " = No
      " ++ quoted "CycleCount" ++ txt "=120
      " ++ quoted "CellVoltage" ++ txt "=(3700,3701,3699)
")
    else if str_eqb c (txt "pmset -g batt") then
      Completed (txt "Now drawing from 'Battery Power'
 -InternalBattery-0 (id=1234)	82%; discharging; 3:15 remaining present: true")
    else if str_eqb c (txt "pmset -g therm") then
      Completed (txt "CPU_Speed_Limit 	= 90")
    else if str_eqb c (txt "top -l 1 -n 0 | grep 'CPU usage'") then
      Completed (txt "CPU usage: 12.34% user, 5.6% sys, 82.06% idle")
    else if str_eqb c (txt "sysctl -n hw.memsize") then
      Completed (txt "17179869184
")
    else if str_eqb c (txt "vm_stat") then
      Completed (txt "Mach Virtual Memory Statistics: (page size of 16384 bytes)
Pages free:                                3000.
Pages active:                            200000.
Pages inactive:                          150000.
Pages wired down:                        100000.
Pages occupied by compressor:             50000.")
    else if str_eqb c (txt "pagesize") then
      Completed (txt "16384
")
    else if str_eqb c (txt "diskutil info /") then
      Completed (txt "   Container Total Space:     994.7 GB (994662584320 Bytes)
   Container Free Space:      500.1 GB (500100000000 Bytes)
   Volume Used Space:         10.5 GB (10500000000 Bytes)")
    else Failed;
  took := fun _ => (1 # 10)%Q
|}.

(** What a provider returns when run at 0 s, or a default if it raises. *)
Definition sample {A} (c : io A) (d : A) : A :=
  match fst (c 0%Q) with
  | Ok a => a
  | Raise _ => d
  end.

(** A size read from text: a number that is not negative, or [ValueError]. *)
Definition size_result (r : result Q) : Prop :=
  match r with
  | Ok q => (0 <= q)%Q
  | Raise e => e = ValueError
  end.

(** The exceptions that a provider of this embedding raises, its floats
    being exact. *)
Definition may_raise (p : provider) (e : exn) : Prop :=
  e = KeyboardInterrupt
  \/ (p = Pmemory /\ (e = ValueError \/ e = ZeroDivisionError))
  \/ (p = Pdisk /\ e = ValueError).

(** Every write of a frame is at a row from [lo] up to, not including,
    [hi]. *)
Definition within (lo hi : Z) (f : frame) : Prop :=
  Forall (fun c => lo <= at_row c < hi) f.

(** The same iteration with another key read. *)
Definition with_key (k : Z) (i : tick_input) : tick_input := {|
  current_time := current_time i; key := k; machine := machine i;
  width := width i; now := now i
|}.

(** The frame of the first iteration on [silent], at 1000 s. *)
Definition first_frame : frame :=
  match draw (at_time 1000 no_key silent) cached with
  | Ok f => f
  | Raise _ => []
  end.

(** The last line of a frame: the key legend with the seconds to the next
    refresh. *)
Definition legend (row n : Z) : cell :=
  addstr row 0
    (txt " [Q] Quit  [R] Refresh  Next update: " ++ str_of_Z n ++ txt "s ")
    (plain WHITE).

(** [s] is empty or starts with a character outside the class [p]. *)
Definition stops (p : char -> bool) (s : str) : Prop :=
  match s with
  | [] => True
  | c :: _ => p c = false
  end.

(** The frames and the sleeps of a trace, counted. *)
Definition frames (log : trace) : nat :=
  List.length (filter (fun e => match e with Drew _ _ => true | _ => false end) log).

Definition sleeps (log : trace) : nat :=
  List.length (filter (fun e => match e with Slept => true | _ => false end) log).

(** ** A disk that prints no used space *)

(** A machine on which [diskutil] prints the total and the free space of
    the container and no used space. *)
Definition no_used : os := {|
  sh := fun c =>
    if str_eqb c (txt "diskutil info /") then
      Completed (txt "   Container Total Space:     500.0 GB
   Container Free Space:      200.0 GB
")
    else Failed;
  took := fun _ => 0%Q
|}.

Definition no_used_disk : Disk.info :=
  sample (get_disk_info no_used)
    {| Disk.total_gb := 0; Disk.used_gb := 0; Disk.available_gb := 0;
       Disk.used_pct := 0; Disk.purgeable_gb := 0 |}.

(** * Properties *)

(** ** Numbers *)

Lemma Qz_nonzero (z : Z) : z <> 0 -> Qeq_bool (Qz z) 0 = false.
Proof.
  intros Hz. destruct z; [congruence | reflexivity | reflexivity].
Qed.

Lemma truediv_nonzero (a : Q) (z : Z) :
  z <> 0 -> truediv a (Qz z) = Ok (a / Qz z)%Q.
Proof.
  intros Hz. unfold truediv. now rewrite Qz_nonzero.
Qed.

Lemma Qltb_lt (a b : Q) : Qltb a b = true <-> (a < b)%Q.
Proof.
  unfold Qltb. rewrite negb_true_iff.
  split; intros H.
  - apply Qnot_le_lt. intros Hle. apply Qle_bool_iff in Hle. congruence.
  - destruct (Qle_bool b a) eqn:E; [|reflexivity].
    apply Qle_bool_iff in E. exfalso. eapply Qlt_not_le; eauto.
Qed.

Lemma Qltb_ge (a b : Q) : Qltb a b = false <-> (b <= a)%Q.
Proof.
  unfold Qltb. rewrite negb_false_iff. apply Qle_bool_iff.
Qed.

Lemma Qgtb_gt (a b : Q) : Qgtb a b = true <-> (b < a)%Q.
Proof. apply (Qltb_lt b a). Qed.

Lemma Qgtb_le (a b : Q) : Qgtb a b = false <-> (a <= b)%Q.
Proof. apply (Qltb_ge b a). Qed.

Lemma py_min_spec (a b : Q) : (py_min a b == Qmin a b)%Q.
Proof.
  unfold py_min. destruct (Qltb b a) eqn:E.
  - apply Qltb_lt in E. symmetry. apply Q.min_r. now apply Qlt_le_weak.
  - apply Qltb_ge in E. symmetry. now apply Q.min_l.
Qed.

(** [int(x)] is the floor of a number that is not negative. *)
Lemma py_int_floor (x : Q) : (0 <= x)%Q -> py_int x = Qfloor x.
Proof.
  destruct x as [n d]. unfold Qle, py_int, Qfloor. simpl.
  rewrite Z.mul_1_r. intros Hn.
  apply Z.quot_div_nonneg; lia.
Qed.

(** ** C3: battery health *)

(** C3. The health of the battery is [max / design * 100] when the design
    capacity is positive and 0 when it is 0; the derivation returns a
    number for every sample, it never raises. *)
Theorem battery_health_total (b : battery_info) :
  (0 < design_capacity_mah b ->
   battery_health b
   = Ok (Qz (max_capacity_mah b) / Qz (design_capacity_mah b) * 100)%Q)
  /\ (design_capacity_mah b = 0 -> battery_health b = Ok 0%Q)
  /\ (exists h, battery_health b = Ok h).
Proof.
  unfold battery_health.
  destruct (0 <? design_capacity_mah b) eqn:E.
  - apply Z.ltb_lt in E.
    rewrite truediv_nonzero by lia. cbn.
    split; [reflexivity | split].
    + intros H0. exfalso. lia.
    + eexists. reflexivity.
  - apply Z.ltb_ge in E.
    split; [| split].
    + intros H0. exfalso. lia.
    + reflexivity.
    + eexists. reflexivity.
Qed.

(** ** C4: the progress bar *)

Lemma length_str_repeat (s : str) (n : Z) :
  List.length (str_repeat s n) = (Z.to_nat n * List.length s)%nat.
Proof.
  unfold str_repeat. induction (Z.to_nat n) as [|k IH]; simpl.
  - reflexivity.
  - rewrite length_app, IH. reflexivity.
Qed.

(** The percentage as [make_bar] clamps it. *)
Lemma clamp_bounds (p : Q) : (0 <= py_max 0 (py_min 100 p) <= 100)%Q.
Proof.
  unfold py_max, py_min.
  destruct (Qltb p 100) eqn:E1.
  - apply Qltb_lt in E1.
    destruct (Qgtb p 0) eqn:E2.
    + apply Qgtb_gt in E2. split; lra.
    + split; lra.
  - destruct (Qgtb 100 0) eqn:E2; split; lra.
Qed.

Lemma filled_bounds (p : Q) (w : Z) :
  0 <= w ->
  0 <= py_int (Qz w * py_max 0 (py_min 100 p) / 100) <= w.
Proof.
  intros Hw.
  pose proof (clamp_bounds p) as [Hlo Hhi].
  set (c := py_max 0 (py_min 100 p)) in *.
  assert (HwQ : (0 <= Qz w)%Q) by (unfold Qz, Qle; simpl; lia).
  assert (H0 : (0 <= Qz w * c / 100)%Q).
  { apply Qle_shift_div_l; [reflexivity|]. rewrite Qmult_0_l.
    apply Qmult_le_0_compat; assumption. }
  assert (H1 : (Qz w * c / 100 <= Qz w)%Q).
  { apply Qle_shift_div_r; [reflexivity|].
    rewrite (Qmult_comm (Qz w) c), (Qmult_comm (Qz w) 100).
    apply Qmult_le_compat_r; assumption. }
  rewrite py_int_floor by exact H0.
  split.
  - change 0 with (Qfloor 0). apply Qfloor_resp_le. exact H0.
  - apply Qfloor_resp_le in H1. unfold Qz in H1 at 2.
    now rewrite Qfloor_Z in H1.
Qed.

(** C4. For every percentage and every width that is not negative, the
    bar is made of exactly [w] glyphs, each the fill or the empty one (so it
    has [w] characters when both glyphs are single characters), and the
    percentage is clamped to the range from 0 to 100: below 0 (as -5) the
    bar is that of 0, above 100 (as 150) that of 100. *)
Theorem make_bar_width (p : Q) (w : Z) (fill empty : str) :
  0 <= w ->
  (exists gs : list str,
      make_bar p w fill empty = List.concat gs
      /\ Z.of_nat (List.length gs) = w
      /\ Forall (fun g => g = fill \/ g = empty) gs)
  /\ (List.length fill = 1%nat -> List.length empty = 1%nat ->
      len (make_bar p w fill empty) = w)
  /\ make_bar (-5) w fill empty = make_bar 0 w fill empty
  /\ make_bar 150 w fill empty = make_bar 100 w fill empty
  /\ ((p <= 0)%Q -> make_bar p w fill empty = make_bar 0 w fill empty)
  /\ ((100 <= p)%Q -> make_bar p w fill empty = make_bar 100 w fill empty).
Proof.
  intros Hw.
  pose proof (filled_bounds p w Hw) as Hf.
  unfold make_bar.
  set (filled := py_int (Qz w * py_max 0 (py_min 100 p) / 100)) in *.
  split; [| split; [| split; [| split; [| split]]]].
  - exists (List.repeat fill (Z.to_nat filled)
            ++ List.repeat empty (Z.to_nat (w - filled))).
    split; [| split].
    + unfold str_repeat. now rewrite concat_app.
    + rewrite length_app, !repeat_length. lia.
    + apply Forall_app. split; apply Forall_forall; intros g Hg;
        apply repeat_spec in Hg; auto.
  - intros Hfill Hempty. unfold len.
    rewrite length_app, !length_str_repeat, Hfill, Hempty. lia.
  - reflexivity.
  - reflexivity.
  - intros Hp. subst filled.
    replace (py_max 0 (py_min 100 p)) with 0%Q; [reflexivity|].
    unfold py_max, py_min.
    destruct (Qltb p 100) eqn:E1.
    + destruct (Qgtb p 0) eqn:E2; [|reflexivity].
      apply Qgtb_gt in E2. exfalso. lra.
    + apply Qltb_ge in E1. exfalso. lra.
  - intros Hp. subst filled.
    replace (py_max 0 (py_min 100 p)) with 100%Q; [reflexivity|].
    unfold py_max, py_min.
    destruct (Qltb p 100) eqn:E1.
    + apply Qltb_lt in E1. exfalso. lra.
    + reflexivity.
Qed.

Lemma make_bar_width_witness :
  0 <= 20
  /\ len (make_bar 75 20 [9608%N] [9617%N]) = 20
  /\ make_bar (-5) 20 [9608%N] [9617%N] = make_bar 0 20 [9608%N] [9617%N].
Proof.
  split; [lia|].
  destruct (make_bar_width 75 20 [9608%N] [9617%N]) as (_ & Hlen & H5 & _);
    [lia|].
  split; [apply Hlen; reflexivity | exact H5].
Defined.

(** The example of the docstring: fifteen glyphs filled, five empty. *)
Example make_bar_docstring :
  make_bar 75 20 fill_default empty_default
  = str_repeat fill_default 15 ++ str_repeat empty_default 5.
Proof. reflexivity. Qed.

(** ** C7: the discharging scenario *)

(** C7. A pack at -2500 mA, 11100 mV and 4000 mAh that neither charges nor
    has an adapter gets the discharging block: the power is
    2500 * 11100 / 1e6 = 27.75 W, the time to empty 4000 / 2500 = 1.6 hours,
    written [1h 36m]. *)
Theorem discharging_scenario (b : battery_info) (row : Z) :
  amperage_ma b = -2500 -> voltage_mv b = 11100 ->
  current_capacity_mah b = 4000 ->
  is_charging b = false -> external_connected b = false ->
  (discharge_power b == 27.75)%Q
  /\ (Qz (current_capacity_mah b) / Qz (discharge_ma b) == 1.6)%Q
  /\ time_to_empty b = Ok (Some (txt "Time to Empty:  1h 36m"))
  /\ charge_section b row
     = Ok ([addstr row 0 (icon_plug ++ txt " DISCHARGING") (BOLD YELLOW);
            addstr (row + 1) 2 (txt "Power:          27.8W (2.50A)")
              (plain WHITE);
            addstr (row + 1 + 1) 2 (txt "Time to Empty:  1h 36m")
              (plain YELLOW)],
           row + 1 + 1 + 2).
Proof.
  intros Ha Hv Hc Hch Hext.
  unfold charge_section, time_to_empty, discharge_power, discharge_ma.
  rewrite Ha, Hv, Hc, Hch, Hext.
  repeat split; reflexivity.
Qed.

Lemma discharging_scenario_witness :
  amperage_ma on_battery = -2500
  /\ time_to_empty on_battery = Ok (Some (txt "Time to Empty:  1h 36m")).
Proof.
  split; [reflexivity|].
  apply (discharging_scenario on_battery 27); reflexivity.
Defined.

(** ** Binary64: how large a rounded number is *)

Lemma digits2_size (p : positive) : digits2_pos p = Pos.size p.
Proof. induction p; simpl; congruence. Qed.

Lemma Zdigits2_log2 (p : positive) : Zdigits2 (Zpos p) = Z.log2 (Zpos p) + 1.
Proof. unfold Zdigits2. rewrite digits2_size. destruct p; simpl; lia. Qed.

Lemma Zdigits2_nonneg (z : Z) : 0 <= Zdigits2 z.
Proof. destruct z; simpl; lia. Qed.

Lemma Zdigits2_le (a b : Z) : 0 <= a <= b -> Zdigits2 a <= Zdigits2 b.
Proof.
  intros [Ha Hab]. destruct a as [|a|a]; [apply Zdigits2_nonneg| |lia].
  destruct b as [|b|b]; try lia.
  rewrite !Zdigits2_log2. apply Z.add_le_mono_r, Z.log2_le_mono. exact Hab.
Qed.

Lemma Zdigits2_succ (a : Z) : 0 <= a -> Zdigits2 (a + 1) <= Zdigits2 a + 1.
Proof.
  intros Ha. destruct a as [|a|a]; [simpl; lia| |lia].
  replace (Z.pos a + 1) with (Z.pos (a + 1)) by lia.
  rewrite !Zdigits2_log2.
  pose proof (Z.log2_succ_le (Z.pos a)) as H.
  replace (Z.succ (Z.pos a)) with (Z.pos (a + 1)) in H by lia. lia.
Qed.

Lemma Zdigits2_mul (a b : positive) :
  Zdigits2 (Zpos (a * b)) <= Zdigits2 (Zpos a) + Zdigits2 (Zpos b).
Proof.
  rewrite !Zdigits2_log2.
  pose proof (Z.log2_mul_above (Zpos a) (Zpos b)) as H.
  replace (Z.pos a * Z.pos b) with (Z.pos (a * b)) in H by lia. lia.
Qed.

Lemma Zdigits2_shiftl (a : positive) (s : Z) :
  0 <= s -> Zdigits2 (Z.shiftl (Zpos a) s) = Zdigits2 (Zpos a) + s.
Proof.
  intros Hs.
  assert (H : 0 < Z.shiftl (Zpos a) s).
  { rewrite Z.shiftl_mul_pow2 by exact Hs.
    apply Z.mul_pos_pos; [lia|]. apply Z.pow_pos_nonneg; lia. }
  destruct (Z.shiftl (Zpos a) s) as [|q|q] eqn:E; try lia.
  rewrite !Zdigits2_log2, <- E, Z.log2_shiftl by lia. lia.
Qed.


Lemma shr_1_digits (s : shr_record) :
  Zdigits2 (shr_m (shr_1 s)) = Z.max 0 (Zdigits2 (shr_m s) - 1)
  /\ (0 <= shr_m s -> 0 <= shr_m (shr_1 s)).
Proof.
  destruct s as [m r st]. unfold shr_1.
  destruct m as [|p|p]; [simpl; lia| |].
  - destruct p; unfold Zdigits2, shr_m, digits2_pos; lia.
  - destruct p; unfold Zdigits2, shr_m, digits2_pos; lia.
Qed.

Lemma iter_shr_digits (p : positive) : forall s,
  Zdigits2 (shr_m (iter_pos shr_1 p s)) = Z.max 0 (Zdigits2 (shr_m s) - Zpos p)
  /\ (0 <= shr_m s -> 0 <= shr_m (iter_pos shr_1 p s)).
Proof.
  induction p as [p IH | p IH |]; intros s; cbn [iter_pos].
  - destruct (IH (iter_pos shr_1 p (shr_1 s))) as [H1 N1].
    destruct (IH (shr_1 s)) as [H2 N2].
    destruct (shr_1_digits s) as [H3 N3].
    split; [rewrite H1, H2, H3; lia | auto].
  - destruct (IH (iter_pos shr_1 p s)) as [H1 N1].
    destruct (IH s) as [H2 N2].
    split; [rewrite H1, H2; lia | auto].
  - apply shr_1_digits.
Qed.

Lemma shr_record_of_loc_m (m : Z) (l : location) :
  shr_m (shr_record_of_loc m l) = m.
Proof. destruct l as [|[]]; reflexivity. Qed.

(** The shift that brings a mantissa to the precision of the format: the
    exponent it ends at and the bits it keeps. *)
Lemma shr_fexp_digits (m e : Z) (l : location) :
  0 <= m ->
  let '(mrs, e') := shr_fexp float_prec float_emax m e l in
  0 <= shr_m mrs
  /\ e' = Z.max e (fexp float_prec float_emax (Zdigits2 m + e))
  /\ Zdigits2 (shr_m mrs) = Z.max 0 (Zdigits2 m + e - e').
Proof.
  intros Hm. unfold shr_fexp, shr.
  pose proof (Zdigits2_nonneg m) as Hd.
  destruct (fexp float_prec float_emax (Zdigits2 m + e) - e) as [|p|p] eqn:E;
    rewrite ?shr_record_of_loc_m.
  - split; [exact Hm|]. split; lia.
  - destruct (iter_shr_digits p (shr_record_of_loc m l)) as [H N].
    rewrite shr_record_of_loc_m in H, N.
    split; [auto|]. split; [lia|]. rewrite H. lia.
  - split; [exact Hm|]. split; lia.
Qed.

Lemma round_nearest_even_bounds (m : Z) (l : location) :
  m <= round_nearest_even m l <= m + 1.
Proof.
  unfold round_nearest_even. destruct l as [|[]]; try lia.
  destruct (Z.even m); lia.
Qed.

(** Rounding a mantissa that is not negative gives a zero, a finite float
    or an infinity, never a NaN. *)
Lemma round_defined (sx : bool) (mx ex : Z) (lx : location) :
  0 <= mx -> defined (binary_round_aux float_prec float_emax sx mx ex lx).
Proof.
  intros Hm. unfold binary_round_aux.
  pose proof (shr_fexp_digits mx ex lx Hm) as H1.
  destruct (shr_fexp float_prec float_emax mx ex lx) as [mrs1 e1].
  destruct H1 as (N1 & _ & _).
  pose proof (round_nearest_even_bounds (shr_m mrs1) (loc_of_shr_record mrs1))
    as R.
  set (m2 := round_nearest_even (shr_m mrs1) (loc_of_shr_record mrs1)) in *.
  assert (N2 : 0 <= m2) by lia.
  pose proof (shr_fexp_digits m2 e1 loc_Exact N2) as H2.
  destruct (shr_fexp float_prec float_emax m2 e1 loc_Exact) as [mrs2 e2].
  destruct H2 as (N3 & _ & _).
  destruct (shr_m mrs2) as [|m|m]; [exact I | | lia].
  destruct (e2 <=? float_emax - float_prec); exact I.
Qed.

(** A number below [2 ^ B], with [B] at most 1023, rounds to a zero or to a
    finite float, which is below [2 ^ (B + 1)]. *)
Lemma round_below (sx : bool) (mx ex : Z) (lx : location) (B : Z) :
  0 <= mx -> ex <= 971 -> Zdigits2 mx + ex <= B -> -1074 <= B <= 1023 ->
  below (B + 1) (binary_round_aux float_prec float_emax sx mx ex lx).
Proof.
  intros Hm He Hd HB. unfold binary_round_aux.
  pose proof (shr_fexp_digits mx ex lx Hm) as H1.
  destruct (shr_fexp float_prec float_emax mx ex lx) as [mrs1 e1].
  destruct H1 as (N1 & E1 & D1).
  pose proof (round_nearest_even_bounds (shr_m mrs1) (loc_of_shr_record mrs1))
    as R.
  set (m2 := round_nearest_even (shr_m mrs1) (loc_of_shr_record mrs1)) in *.
  assert (N2 : 0 <= m2) by lia.
  pose proof (shr_fexp_digits m2 e1 loc_Exact N2) as H2.
  destruct (shr_fexp float_prec float_emax m2 e1 loc_Exact) as [mrs2 e2].
  destruct H2 as (N3 & E2 & D2).
  assert (D3 : Zdigits2 m2 <= Zdigits2 (shr_m mrs1) + 1).
  { etransitivity; [apply (Zdigits2_le m2 (shr_m mrs1 + 1)); lia|].
    now apply Zdigits2_succ. }
  unfold fexp, emin, float_prec, float_emax in *.
  destruct (shr_m mrs2) as [|m|m] eqn:Em; cbn [below]; [exact I | | lia].
  assert (Hle : e2 <= 971) by lia.
  replace (e2 <=? 1024 - 53) with true by (symmetry; apply Z.leb_le; lia).
  cbn [below]. split; [|exact Hle].
  assert (P : 1 <= Zdigits2 (Z.pos m)) by (cbn; lia).
  pose proof (Zdigits2_nonneg mx). lia.
Qed.

Lemma below_defined (B : Z) (x : float) : below B x -> defined x.
Proof. destruct x; cbn; tauto. Qed.

(** The quotient of two integers, the divisor not 0. *)
Lemma float_div_exact (a b : Z) :
  b <> 0 ->
  defined (float_div (exact a) (exact b))
  /\ forall B, Zdigits2 a <= B -> 0 <= B <= 1023 ->
               below (B + 1) (float_div (exact a) (exact b)).
Proof.
  intros Hb.
  assert (Hcore : forall (s : bool) (ma mb : positive),
    defined (float_div (S754_finite s ma 0) (S754_finite false mb 0))
    /\ forall B, Zdigits2 (Zpos ma) <= B -> 0 <= B <= 1023 ->
         below (B + 1) (float_div (S754_finite s ma 0) (S754_finite false mb 0))).
  { intros s ma mb. unfold float_div, SFdiv, SFdiv_core_binary.
    set (e' := Z.min _ _).
    assert (He : e' <= 0) by (subst e'; lia).
    set (m' := match 0 - 0 - e' with
               | 0 => Z.pos ma
               | Z.pos _ => Z.shiftl (Z.pos ma) (0 - 0 - e')
               | Z.neg _ => 0
               end).
    assert (Hm' : 0 <= m' /\ Zdigits2 m' + e' <= Zdigits2 (Zpos ma)).
    { subst m'. destruct (0 - 0 - e') as [|p|p] eqn:E; [lia| |lia].
      rewrite Zdigits2_shiftl by lia.
      split; [|lia]. rewrite Z.shiftl_mul_pow2 by lia.
      apply Z.mul_nonneg_nonneg; [lia|]. apply Z.pow_nonneg. lia. }
    pose proof (Z_div_mod m' (Zpos mb) eq_refl) as Hq.
    destruct (Z.div_eucl m' (Z.pos mb)) as [q r].
    destruct Hq as [Hq Hr]. destruct Hm' as [Hm0 Hmd].
    assert (Hq0 : 0 <= q <= m') by nia.
    split; [apply round_defined; lia|].
    intros B Hd HB. apply round_below; [lia | lia | | lia].
    pose proof (Zdigits2_le q m' Hq0). lia. }
  assert (Hsign : forall (s t : bool) (ma mb : positive),
    float_div (S754_finite s ma 0) (S754_finite t mb 0)
    = float_div (S754_finite (xorb s t) ma 0) (S754_finite false mb 0)).
  { intros s t ma mb. unfold float_div, SFdiv.
    now rewrite xorb_false_r. }
  destruct a as [|ma|ma], b as [|mb|mb]; try congruence;
    cbn [exact]; try (split; [exact I | intros; exact I]).
  - apply Hcore.
  - rewrite Hsign. apply Hcore.
  - apply Hcore.
  - rewrite Hsign. apply Hcore.
Qed.

(** The product by a float whose exponent is not positive. *)
Lemma float_mul_below (x : float) (sy : bool) (my : positive) (ey B C : Z) :
  below B x -> ey <= 0 -> Zdigits2 (Zpos my) + ey <= C ->
  -1074 <= B + C <= 1023 ->
  below (B + C + 1) (float_mul x (S754_finite sy my ey)).
Proof.
  intros Hx He Hy HB. destruct x as [s | s | | s mx ex]; cbn [below] in Hx;
    try contradiction.
  - exact I.
  - destruct Hx as [Hx1 Hx2]. unfold float_mul, SFmul.
    apply round_below; [lia | lia | | lia].
    pose proof (Zdigits2_mul mx my). lia.
Qed.

Lemma float_mul_defined (x : float) (sy : bool) (my : positive) (ey : Z) :
  defined x -> defined (float_mul x (S754_finite sy my ey)).
Proof.
  destruct x as [s | s | | s mx ex]; cbn; try tauto.
  intros _. apply round_defined. lia.
Qed.

(** [a / b] on integers raises [OverflowError] only, when [b] is not 0, and
    returns a float when [a] is below [2 ^ 1023]. *)
Lemma int_truediv_result (a b : Z) :
  b <> 0 ->
  (forall e, int_truediv a b = Raise e -> e = OverflowError)
  /\ (forall q, int_truediv a b = Ok q -> defined q)
  /\ (forall B, Zdigits2 a <= B -> 0 <= B <= 1023 ->
        exists q, int_truediv a b = Ok q /\ below (B + 1) q).
Proof.
  intros Hb. unfold int_truediv.
  apply Z.eqb_neq in Hb as Hb'. rewrite Hb'.
  destruct (float_div_exact a b Hb) as [Hd Hbelow].
  split; [| split].
  - intros e. destruct (float_div (exact a) (exact b)); congruence.
  - intros q. destruct (float_div (exact a) (exact b)); intros [= <-];
      exact Hd || exact I.
  - intros B HB1 HB2. specialize (Hbelow B HB1 HB2).
    destruct (float_div (exact a) (exact b)); cbn in Hbelow;
      try contradiction; eexists; (split; [reflexivity|]); exact Hbelow.
Qed.

Lemma sixty : float_of_int 60 = S754_finite false 8444249301319680 (-47).
Proof. reflexivity. Qed.

(** The text of the hours and minutes: it fails with [OverflowError] only,
    and not for hours below [2 ^ 1016]. *)
Lemma h_m_result (hours : float) :
  defined hours ->
  (forall e, h_m hours = Raise e -> e = OverflowError)
  /\ (forall B, below B hours -> -1080 <= B <= 1017 ->
        exists mins,
          int_of_float (float_mul hours (float_of_int 60)) = Ok mins
          /\ h_m hours
             = Ok (str_of_Z (mins / 60) ++ txt "h " ++ fmt_02d (mins mod 60)
                   ++ txt "m")).
Proof.
  intros Hd. unfold h_m. rewrite sixty.
  split.
  - intros e.
    pose proof (float_mul_defined hours false 8444249301319680 (-47) Hd) as H.
    destruct (float_mul hours _); cbn in H |- *; try contradiction;
      congruence.
  - intros B HB Hr.
    pose proof (float_mul_below hours false 8444249301319680 (-47) B 6 HB)
      as H.
    specialize (H ltac:(lia) ltac:(cbn; lia) ltac:(lia)).
    destruct (float_mul hours _); cbn in H; try contradiction;
      eexists; (split; [reflexivity|]); reflexivity.
Qed.

(** ** C5: time to full *)

Lemma time_to_full_raise (b : battery_info) (e : exn) :
  time_to_full b = Raise e -> e = OverflowError.
Proof.
  unfold time_to_full. destruct (0 <? charging_current_ma b) eqn:E;
    [|discriminate].
  apply Z.ltb_lt in E.
  destruct (int_truediv_result (max_capacity_mah b - current_capacity_mah b)
              (charging_current_ma b) ltac:(lia)) as (Hr & Hd & _).
  destruct (int_truediv _ _) as [hours | e1]; cbn [bind result_monad].
  - destruct (h_m_result hours (Hd hours eq_refl)) as [Hh _].
    destruct (h_m hours) as [t | e2]; cbn [bind result_monad];
      [discriminate|].
    intros [= <-]. now apply Hh.
  - intros [= <-]. now apply Hr.
Qed.

Lemma time_to_empty_raise (b : battery_info) (e : exn) :
  time_to_empty b = Raise e -> e = OverflowError.
Proof.
  unfold time_to_empty. destruct (0 <? discharge_ma b) eqn:E;
    [|discriminate].
  apply Z.ltb_lt in E.
  destruct (int_truediv_result (current_capacity_mah b) (discharge_ma b)
              ltac:(lia)) as (Hr & Hd & _).
  destruct (int_truediv _ _) as [hours | e1]; cbn [bind result_monad].
  - destruct (h_m_result hours (Hd hours eq_refl)) as [Hh _].
    destruct (h_m hours) as [t | e2]; cbn [bind result_monad];
      [discriminate|].
    intros [= <-]. now apply Hh.
  - intros [= <-]. now apply Hr.
Qed.


(** At 1000 mA with 4100 mAh to go the hours are the float nearest to 4.1,
    which is below it, and the minutes are 245, not 246. *)
Example topping_up_line :
  time_to_full topping_up = Ok (Some (txt "Time to Full:   4h 05m"))
  /\ int_truediv 4100 1000 = Ok (S754_finite false 4616189618054758 (-50))
  /\ (4616189618054758 * 60 < 246 * 2 ^ 50).
Proof. split; [vm_compute; reflexivity | split; [reflexivity | lia]]. Qed.


(** ** C6: power balance *)

(** C6, as the code has it.  With an adapter rating that is not positive
    the percentage is the number 0, drawn as an empty bar and [0%]; with a
    positive rating it is the smaller of 100 and
    [(system + charging) / rating * 100].  It never raises. *)
Theorem balance_pct_cases (b : battery_info) :
  (adapter_watts b <= 0 -> balance_pct b = Ok 0%Q)
  /\ (0 < adapter_watts b ->
      exists u, balance_pct b = Ok u
                /\ (u == Qmin 100 ((system_w b + balance_charge b)
                                   / Qz (adapter_watts b) * 100))%Q)
  /\ (exists u, balance_pct b = Ok u)
  /\ balance_bar_text 0
     = txt "[" ++ str_repeat empty_default 40 ++ txt "] 0%".
Proof.
  unfold balance_pct.
  destruct (0 <? adapter_watts b) eqn:E.
  - apply Z.ltb_lt in E. rewrite truediv_nonzero by lia. cbn.
    split; [| split; [| split]].
    + intros H0. exfalso. lia.
    + intros _. eexists. split; [reflexivity|]. apply py_min_spec.
    + eexists. reflexivity.
    + reflexivity.
  - apply Z.ltb_ge in E.
    split; [| split; [| split]].
    + reflexivity.
    + intros H0. exfalso. lia.
    + eexists. reflexivity.
    + reflexivity.
Qed.

(** C6, as the claim has it, fails on [unrated]: an adapter is connected,
    its rating is 0, and the block shows the figure [0%] under an empty
    bar; no text of the block holds a dash. *)
Lemma unrated_shows_zero :
  external_connected unrated = true
  /\ adapter_watts unrated = 0
  /\ balance_pct unrated = Ok 0%Q
  /\ exists f r,
       balance_section unrated 27 = Ok (f, r)
       /\ In (addstr 29 2 (txt "[" ++ str_repeat empty_default 40 ++ txt "] 0%")
                (plain GREEN)) f
       /\ ~ shows_dash f.
Proof.
  split; [reflexivity|]. split; [reflexivity|]. split; [reflexivity|].
  eexists. eexists. split; [reflexivity|]. split.
  - right. right. left. reflexivity.
  - intros (c & Hin & Hc).
    destruct Hin as [<- | [<- | [<- | [<- | []]]]];
      vm_compute in Hc; discriminate.
Qed.

(** ** Substrings *)

Lemma strip_prefix_spec (p s r : str) :
  strip_prefix p s = Some r <-> s = p ++ r.
Proof.
  revert s; induction p as [|x p IH]; intros s; simpl.
  - split; [intros [= ->] | intros ->]; reflexivity.
  - destruct s as [|y s].
    + split; [discriminate | intros [=]].
    + unfold chr_eqb. destruct (N.eqb_spec x y) as [->|Hne].
      * rewrite IH. split; [intros -> | intros [= ->]]; reflexivity.
      * split; [discriminate | intros [= -> _]; congruence].
Qed.

Lemma strip_prefix_app (p s : str) : strip_prefix p (p ++ s) = Some s.
Proof. now apply strip_prefix_spec. Qed.

(** [p in s] holds when [s] is [a ++ p ++ c] for some [a] and [c]. *)
Lemma contains_spec (p s : str) :
  contains p s = true <-> exists a c, s = a ++ p ++ c.
Proof.
  induction s as [|y s IH].
  - simpl. destruct (strip_prefix p []) as [r|] eqn:E.
    + apply strip_prefix_spec in E. split; [|reflexivity].
      intros _. exists [], r. exact E.
    + split; [discriminate|]. intros (a & c & H).
      destruct a; [|discriminate]. simpl in H.
      apply strip_prefix_spec in H. congruence.
  - simpl. destruct (strip_prefix p (y :: s)) as [r|] eqn:E.
    + apply strip_prefix_spec in E. split; [|reflexivity].
      intros _. exists [], r. exact E.
    + rewrite IH. split.
      * intros (a & c & ->). exists (y :: a), c. reflexivity.
      * intros (a & c & H). destruct a as [|z a].
        -- simpl in H. apply strip_prefix_spec in H. congruence.
        -- injection H as _ ->. eauto.
Qed.

Lemma contains_suffix (x p s : str) :
  contains (x ++ p) s = true -> contains p s = true.
Proof.
  rewrite !contains_spec. intros (a & c & ->).
  exists (a ++ x), c. now rewrite <- !app_assoc.
Qed.

(** ** C9: the status of the power-management sample *)

Lemma bind_io {A B} (c : io A) (f : A -> io B) (t : Q) :
  bind c f t = match c t with
               | (Ok a, t') => f a t'
               | (Raise e, t') => (Raise e, t')
               end.
Proof. reflexivity. Qed.

Lemma bind_io_ok {A B} (c : io A) (f : A -> io B) (t t' : Q) (b : B) :
  bind c f t = (Ok b, t') ->
  exists a t1, c t = (Ok a, t1) /\ f a t1 = (Ok b, t').
Proof.
  rewrite bind_io. destruct (c t) as [[a|e] t1]; [eauto | discriminate].
Qed.

Lemma bind_run_cmd_completed {B} (m : os) (cmd output : str)
  (f : str -> io B) (t : Q) :
  sh m cmd = Completed output ->
  bind (run_cmd m cmd) f t = f output (t + took m cmd)%Q.
Proof. intros H. rewrite bind_io. unfold run_cmd. now rewrite H. Qed.

(** C9. An output that holds [discharging], in any case of letters, gives
    the status [Discharging] and not [Charging], although [charging] is part
    of [discharging]; the status is [Charging] exactly when the output holds
    [charging] and not [discharging].  This is the status of the sample
    that [parse_pmset] returns. *)
Theorem pmset_status_discharging (output : str) :
  (contains (txt "discharging") (lower output) = true ->
   pmset_status output = txt "Discharging"
   /\ pmset_status output <> txt "Charging")
  /\ (pmset_status output = txt "Charging" <->
      contains (txt "charging") (lower output) = true
      /\ contains (txt "discharging") (lower output) = false)
  /\ (contains (txt "discharging") (lower output) = true ->
      contains (txt "charging") (lower output) = true)
  /\ (forall m t, sh m (txt "pmset -g batt") = Completed output ->
      exists p t', parse_pmset m t = (Ok p, t')
                   /\ status p = pmset_status output).
Proof.
  split; [| split; [| split]].
  - intros H. unfold pmset_status. rewrite H.
    rewrite andb_false_r. split; [reflexivity | discriminate].
  - unfold pmset_status.
    destruct (contains (txt "charging") (lower output));
      destruct (contains (txt "discharging") (lower output)); simpl.
    + split; [discriminate | intros [_ [=]]].
    + split; [auto | reflexivity].
    + split; [discriminate | intros [[=] _]].
    + destruct (contains (txt "charged") (lower output)).
      * split; [discriminate | intros [[=] _]].
      * destruct (contains (txt "AC Power") output);
          (split; [discriminate | intros [[=] _]]).
  - apply (contains_suffix (txt "dis") (txt "charging")).
  - intros m t Hsh. unfold parse_pmset.
    rewrite (bind_run_cmd_completed _ _ _ _ _ Hsh).
    eexists. eexists. split; reflexivity.
Qed.

Example pmset_status_on_battery :
  pmset_status (txt "-InternalBattery-0  82%; discharging; 3:15 remaining")
  = txt "Discharging"
  /\ pmset_status (txt "-InternalBattery-0  40%; charging; 1:10 remaining")
     = txt "Charging"
  /\ pmset_status (txt "-InternalBattery-0  40%; DISCHARGING;") = txt "Discharging".
Proof. repeat split. Qed.

(** ** C10: what the providers return when their command fails *)

Lemma bind_run_cmd_failed {B} (m : os) (cmd : str) (f : str -> io B) (t : Q) :
  sh m cmd = TimeoutExpired \/ sh m cmd = Failed ->
  bind (run_cmd m cmd) f t = f [] (t + took m cmd)%Q.
Proof.
  intros H. rewrite bind_io. unfold run_cmd. now destruct H as [-> | ->].
Qed.

(** A pattern that starts with a literal matches only where the literal
    stands. *)
Lemma re_search_literal (l : str) (r : regex) (s : str) :
  contains l s = false -> re_search (Seq (Lit l) r) s = None.
Proof.
  induction s as [|y s IH]; simpl; unfold re_match; simpl.
  - destruct (strip_prefix l []); [discriminate | reflexivity].
  - destruct (strip_prefix l (y :: s)); [discriminate | exact IH].
Qed.

Lemma thermal_without_figure (output : str) :
  contains (txt "CPU_Speed_Limit") output = false ->
  re_search re_speed_limit output = None.
Proof. apply re_search_literal. Qed.

(** C10, as the code has it.  When the thermal query fails or times out, or
    prints no [CPU_Speed_Limit] figure, the speed limit is 100, not 0.  Each
    of the battery, pmset, cpu and disk providers, when its own command
    fails, returns zeros (and the texts [Unknown] and [N/A]), whatever the
    other commands do.  The memory provider, like the thermal one, has a
    default that is not zero: when [sysctl] fails its total is 16 GB, and
    when its three commands fail the rest of its sample is zeros. *)
Theorem thermal_default_unthrottled (m : os) (t : Q) :
  ((sh m (txt "pmset -g therm") = TimeoutExpired
    \/ sh m (txt "pmset -g therm") = Failed
    \/ exists output,
         sh m (txt "pmset -g therm") = Completed output
         /\ (contains (txt "CPU_Speed_Limit") output = false
             \/ re_search re_speed_limit output = None)) ->
   fst (parse_thermal m t) = Ok {| cpu_speed_limit := 100 |})
  /\ (fails m "ioreg -rn AppleSmartBattery" ->
      fst (parse_ioreg_battery m t)
      = Ok {| current_capacity_mah := 0; max_capacity_mah := 0;
              design_capacity_mah := 0; voltage_mv := 0; amperage_ma := 0;
              is_charging := false; external_connected := false;
              cycle_count := 0; adapter_watts := 0; adapter_voltage_mv := 0;
              adapter_current_ma := 0; system_power_mw := 0;
              charging_current_ma := 0; charging_voltage_mv := 0;
              cell_voltages := [0; 0; 0] |})
  /\ (fails m "pmset -g batt" ->
      fst (parse_pmset m t)
      = Ok {| percentage := 0; status := txt "Unknown";
              time_remaining := txt "N/A" |})
  /\ (fails m "top -l 1 -n 0 | grep 'CPU usage'" ->
      fst (get_cpu_usage m t) = Ok 0%Q)
  /\ (fails m "diskutil info /" ->
      fst (get_disk_info m t)
      = Ok {| Disk.total_gb := 0; Disk.used_gb := 0;
              Disk.available_gb := 0; Disk.used_pct := 0;
              Disk.purgeable_gb := 0 |})
  /\ (fails m "sysctl -n hw.memsize" ->
      forall mem, fst (get_memory_info m t) = Ok mem ->
                  (Memory.total_gb mem == 16)%Q)
  /\ (fails m "sysctl -n hw.memsize" -> fails m "vm_stat" ->
      fails m "pagesize" ->
      exists mem,
        fst (get_memory_info m t) = Ok mem
        /\ (Memory.total_gb mem == 16)%Q
        /\ (Memory.app_gb mem == 0)%Q /\ (Memory.wired_gb mem == 0)%Q
        /\ (Memory.compressed_gb mem == 0)%Q
        /\ (Memory.cached_gb mem == 0)%Q /\ (Memory.free_gb mem == 0)%Q
        /\ (Memory.purgeable_gb mem == 0)%Q
        /\ (Memory.used_pct mem == 0)%Q).
Proof.
  unfold fails.
  split; [| split; [| split; [| split; [| split; [| split]]]]].
  - intros [H | [H | (output & H & Hno)]]; unfold parse_thermal.
    + rewrite bind_run_cmd_failed by auto. reflexivity.
    + rewrite bind_run_cmd_failed by auto. reflexivity.
    + rewrite (bind_run_cmd_completed _ _ _ _ _ H).
      assert (Hnone : re_search re_speed_limit output = None).
      { destruct Hno as [Hno | Hno]; [now apply thermal_without_figure | exact Hno]. }
      unfold int_field. rewrite Hnone. reflexivity.
  - intros H. unfold parse_ioreg_battery.
    rewrite bind_run_cmd_failed by exact H. reflexivity.
  - intros H. unfold parse_pmset.
    rewrite bind_run_cmd_failed by exact H. reflexivity.
  - intros H. unfold get_cpu_usage.
    rewrite bind_run_cmd_failed by exact H. reflexivity.
  - intros H. unfold get_disk_info.
    rewrite bind_run_cmd_failed by exact H. reflexivity.
  - intros H mem. destruct (get_memory_info m t) as [r t'] eqn:E.
    cbn [fst]. intros ->. unfold get_memory_info in E. cbv zeta in E.
    rewrite bind_run_cmd_failed in E by exact H.
    cbn [isdigit strip lstrip rev app] in E. rewrite bind_io in E.
    cbn [lift] in E.
    apply bind_io_ok in E. destruct E as (o2 & t3 & _ & E).
    apply bind_io_ok in E. destruct E as (o3 & t4 & _ & E).
    apply bind_io_ok in E. destruct E as (page_size & t5 & _ & E).
    apply bind_io_ok in E. destruct E as (used & t6 & _ & E).
    injection E as <- _. reflexivity.
  - intros H1 H2 H3. unfold get_memory_info.
    rewrite bind_run_cmd_failed by exact H1.
    cbn [isdigit strip lstrip rev app]. rewrite bind_io. cbn [lift].
    rewrite bind_run_cmd_failed by exact H2.
    rewrite bind_run_cmd_failed by exact H3.
    eexists. split; [reflexivity|].
    repeat split.
Qed.

(** C10, as the claim has it, fails on [silent]: the thermal sample is not
    the only one with a default that is not zero, the memory sample has a
    total of 16 GB. *)
Lemma memory_default_not_zero :
  fst (parse_thermal silent 0%Q) = Ok {| cpu_speed_limit := 100 |}
  /\ exists mem,
       fst (get_memory_info silent 0%Q) = Ok mem
       /\ (Memory.total_gb mem == 16)%Q
       /\ ~ (Memory.total_gb mem == 0)%Q.
Proof.
  split; [reflexivity|].
  eexists. split; [reflexivity|]. split; [reflexivity | discriminate].
Qed.

(** ** The loop *)

(** A refresh that returns has called the six providers in order, each
    from the clock that the one before left, and has assigned all seven
    locals. *)
Lemma refresh_ok (i : tick_input) (v v' : locals) (log : trace) :
  refresh i v (current_time i) = (log, Ok v') ->
  exists s ts,
    collected i s ts /\ holds v' s
    /\ last_update v' = current_time i
    /\ log = refresh_trace i ts.
Proof.
  unfold refresh, call.
  destruct (parse_ioreg_battery (machine i) (current_time i)) as [[x1|e] t1] eqn:E1;
    [|discriminate].
  destruct (parse_pmset (machine i) t1) as [[x2|e] t2] eqn:E2; [|discriminate].
  destruct (parse_thermal (machine i) t2) as [[x3|e] t3] eqn:E3; [|discriminate].
  destruct (get_cpu_usage (machine i) t3) as [[x4|e] t4] eqn:E4; [|discriminate].
  destruct (get_memory_info (machine i) t4) as [[x5|e] t5] eqn:E5; [|discriminate].
  destruct (get_disk_info (machine i) t5) as [[x6|e] t6] eqn:E6; [|discriminate].
  intros [= <- <-].
  exists {| b_battery := x1; b_pmset := x2; b_thermal := x3; b_cpu := x4;
            b_memory := x5; b_disk := x6 |},
         [current_time i; t1; t2; t3; t4; t5; t6].
  split; [| split; [| split]].
  - exists t1, t2, t3, t4, t5, t6. cbn. repeat split; assumption.
  - repeat split.
  - reflexivity.
  - reflexivity.
Qed.

(** Whatever its end, a refresh calls the providers in the order of the
    source, starting with the first, and stops at the one that raises. *)
Lemma refresh_calls (i : tick_input) (v : locals) (t : Q) :
  exists rest,
    all_six = calls (fst (refresh i v t)) ++ rest
    /\ calls (fst (refresh i v t)) <> []
    /\ (forall v', snd (refresh i v t) = Ok v' -> rest = []).
Proof.
  unfold refresh, call.
  destruct (parse_ioreg_battery (machine i) t) as [[x1|e] t1].
  2:{ eexists. cbn. split; [reflexivity|]. split; [discriminate | discriminate]. }
  destruct (parse_pmset (machine i) t1) as [[x2|e] t2].
  2:{ eexists. cbn. split; [reflexivity|]. split; [discriminate | discriminate]. }
  destruct (parse_thermal (machine i) t2) as [[x3|e] t3].
  2:{ eexists. cbn. split; [reflexivity|]. split; [discriminate | discriminate]. }
  destruct (get_cpu_usage (machine i) t3) as [[x4|e] t4].
  2:{ eexists. cbn. split; [reflexivity|]. split; [discriminate | discriminate]. }
  destruct (get_memory_info (machine i) t4) as [[x5|e] t5].
  2:{ eexists. cbn. split; [reflexivity|]. split; [discriminate | discriminate]. }
  destruct (get_disk_info (machine i) t5) as [[x6|e] t6].
  2:{ exists []. cbn. split; [reflexivity|]. split; [discriminate | discriminate]. }
  exists []. cbn. split; [reflexivity|]. split; [discriminate | reflexivity].
Qed.

Lemma calls_app (a b : trace) : calls (a ++ b) = calls a ++ calls b.
Proof. unfold calls. apply flat_map_app. Qed.

Lemma commits_app (a b : trace) : commits (a ++ b) = commits a ++ commits b.
Proof. unfold commits. apply flat_map_app. Qed.

Lemma calls_refresh_trace (i : tick_input) (s : batch) (ts : list Q) :
  collected i s ts -> calls (refresh_trace i ts) = all_six.
Proof. intros (t1 & t2 & t3 & t4 & t5 & t6 & -> & _). reflexivity. Qed.

Lemma commits_refresh_trace (i : tick_input) (s : batch) (ts : list Q) :
  collected i s ts ->
  commits (refresh_trace i ts) = [(last ts 0%Q, current_time i)].
Proof. intros (t1 & t2 & t3 & t4 & t5 & t6 & -> & _). reflexivity. Qed.

Lemma no_draw_in_refresh_trace (i : tick_input) (s : batch) (ts : list Q)
  (seen : locals) (f : frame) :
  collected i s ts -> ~ In (Drew seen f) (refresh_trace i ts).
Proof.
  intros (t1 & t2 & t3 & t4 & t5 & t6 & -> & _) H. cbn in H.
  repeat (destruct H as [H | H]; [discriminate|]). exact H.
Qed.

(** Assigning [last_update] leaves the samples alone. *)
Lemma holds_set_last_update (x : Q) (v : locals) (s : batch) :
  holds (set_last_update x v) s <-> holds v s.
Proof. reflexivity. Qed.

Lemma unset_set_last_update (x : Q) (v : locals) :
  unset (set_last_update x v) <-> unset v.
Proof. reflexivity. Qed.

Lemma refresh_no_draw (i : tick_input) (v seen : locals) (t : Q) (f : frame) :
  ~ In (Drew seen f) (fst (refresh i v t)).
Proof.
  unfold refresh, call.
  destruct (parse_ioreg_battery (machine i) t) as [[x1|e] t1];
  [destruct (parse_pmset (machine i) t1) as [[x2|e] t2];
   [destruct (parse_thermal (machine i) t2) as [[x3|e] t3];
    [destruct (get_cpu_usage (machine i) t3) as [[x4|e] t4];
     [destruct (get_memory_info (machine i) t4) as [[x5|e] t5];
      [destruct (get_disk_info (machine i) t5) as [[x6|e] t6]|]|]|]|]|];
  cbn; intros H;
  repeat (destruct H as [H | H]; [discriminate|]); exact H.
Qed.

(** One iteration keeps the locals settled, and draws settled locals only. *)
Lemma tick_settled (P : tick_input -> Prop) (i : tick_input) (v : locals) :
  P i -> settled P v ->
  (forall v', snd (tick i v) = Next v' -> settled P v')
  /\ (forall seen f, In (Drew seen f) (fst (tick i v)) ->
      exists j, P j /\ batch_of j seen).
Proof.
  intros Pi Hv. unfold tick.
  destruct (is_quit (key i)); [split; [discriminate | intros ? ? []]|].
  set (v0 := if is_refresh (key i) then set_last_update 0 v else v).
  assert (H0 : settled P v0).
  { subst v0. destruct (is_refresh (key i)); [|exact Hv].
    destruct Hv as [Hu | (j & Pj & s & ts & Hc & Hh)].
    - left. exact Hu.
    - right. exists j. split; [exact Pj|]. exists s, ts. split; assumption. }
  clearbody v0.
  destruct (due i v0).
  - assert (Hnd : forall seen f,
               ~ In (Drew seen f) (fst (refresh i v0 (current_time i)))).
    { intros seen f. apply refresh_no_draw. }
    destruct (refresh i v0 (current_time i)) as [log [v1|e]] eqn:R;
      cbn [fst] in Hnd.
    + destruct (refresh_ok _ _ _ _ R) as (s & ts & Hc & Hh & _ & _).
      assert (Hb : batch_of i v1) by (exists s, ts; split; assumption).
      destruct Hh as (Hbat & _). rewrite Hbat.
      destruct (draw i v1) as [f|e]; cbn.
      * split.
        -- intros v' [= <-]. right. exists i. split; assumption.
        -- intros seen f' Hin. apply in_app_or in Hin.
           destruct Hin as [Hin | [Heq | [Heq | []]]].
           ++ exfalso. exact (Hnd seen f' Hin).
           ++ injection Heq as <- <-. exists i. split; assumption.
           ++ discriminate.
      * split; [discriminate|].
        intros seen f' Hin. exfalso. exact (Hnd seen f' Hin).
    + cbn. split; [discriminate|].
      intros seen f' Hin. exfalso. exact (Hnd seen f' Hin).
  - destruct (battery v0) eqn:Eb.
    + destruct (draw i v0) as [f|e]; cbn.
      * split.
        -- intros v' [= <-]. exact H0.
        -- intros seen f' [Heq | [Heq | []]]; [|discriminate].
           injection Heq as <- <-.
           destruct H0 as [(Hn & _) | Hb]; [congruence | exact Hb].
      * split; [discriminate | intros ? ? []].
    + cbn. split; [intros v' [= <-]; exact H0 | intros ? ? []].
Qed.

Lemma run_settled (P : tick_input -> Prop) (ins : list tick_input) :
  (forall i, In i ins -> P i) ->
  forall v, settled P v ->
  (forall v', snd (run ins v) = Next v' -> settled P v')
  /\ (forall seen f, In (Drew seen f) (fst (run ins v)) ->
      exists j, P j /\ batch_of j seen).
Proof.
  induction ins as [|i ins IH]; intros HP v Hv.
  - cbn. split; [intros v' [= <-]; exact Hv | intros ? ? []].
  - assert (Pi : P i) by (apply HP; left; reflexivity).
    destruct (tick_settled P i v Pi Hv) as [Hnext Hdrew].
    cbn [run]. destruct (tick i v) as [log o].
    cbn [fst snd] in Hnext, Hdrew.
    destruct o as [v1 | | e]; cbn [fst snd].
    + destruct (IH (fun j Hj => HP j (or_intror Hj)) v1 (Hnext v1 eq_refl))
        as [Hnext' Hdrew'].
      destruct (run ins v1) as [log' o']. cbn [fst snd] in *.
      split; [exact Hnext'|].
      intros seen f Hin. apply in_app_or in Hin.
      destruct Hin as [Hin | Hin]; [eapply Hdrew | eapply Hdrew']; exact Hin.
    + split; [discriminate | exact Hdrew].
    + split; [discriminate | exact Hdrew].
Qed.

(** ** C1: what a frame is drawn from *)

(** C1. Whatever the iterations, the locals after them hold no sample at
    all (they are as before the loop) or the six samples of one refresh,
    that of one of the iterations; and every frame is drawn from locals
    that hold the six samples of one refresh: never while a sample is
    missing, never from samples of two refreshes. *)
Theorem render_sees_one_batch (ins : list tick_input) :
  (forall v, snd (draw_dashboard ins) = Next v ->
             unset v \/ exists i, In i ins /\ batch_of i v)
  /\ (forall seen f, In (Drew seen f) (fst (draw_dashboard ins)) ->
      exists i, In i ins /\ batch_of i seen)
  /\ (forall seen f, In (Drew seen f) (fst (draw_dashboard ins)) ->
      battery seen <> None /\ pmset seen <> None /\ thermal seen <> None
      /\ memory seen <> None /\ disk seen <> None).
Proof.
  assert (Hinit : settled (fun i => In i ins) initial).
  { left. repeat split. }
  destruct (run_settled (fun i => In i ins) ins (fun i H => H) initial Hinit)
    as [Hnext Hdrew].
  unfold draw_dashboard. split; [exact Hnext | split; [exact Hdrew|]].
  intros seen f Hin.
  destruct (Hdrew seen f Hin) as (i & _ & s & ts & _ & H1 & H2 & H3 & _ & H5 & H6).
  rewrite H1, H2, H3, H5, H6. repeat split; discriminate.
Qed.

(** ** C2: when the providers are called *)

Lemma due_false (i : tick_input) (v : locals) :
  (current_time i - last_update v < update_interval)%Q -> due i v = false.
Proof.
  intros H. unfold due, Qgeb.
  destruct (Qle_bool update_interval (current_time i - last_update v)) eqn:E;
    [|reflexivity].
  apply Qle_bool_iff in E. exfalso. eapply Qlt_not_le; eauto.
Qed.

Lemma due_true (i : tick_input) (v : locals) :
  (update_interval <= current_time i - last_update v)%Q -> due i v = true.
Proof. intros H. unfold due, Qgeb. now apply Qle_bool_iff. Qed.

(** C2, as the code has it.  An iteration that reads no refresh key while
    [now - last_update < 10] calls no provider and leaves the seven locals
    as they were.  An iteration that reads no quit key, and either reads no
    refresh key while [now - last_update >= 10] or reads a refresh key (the
    key sets [last_update] to 0 and the same test follows, which the clock
    of [time.time()], seconds since 1970, passes), and that goes on to the
    next iteration, has called the six providers, in the order of the
    source. *)
Theorem scheduler_frame (i : tick_input) (v : locals) :
  (is_refresh (key i) = false ->
   (current_time i - last_update v < update_interval)%Q ->
   calls (fst (tick i v)) = []
   /\ forall v', snd (tick i v) = Next v' -> v' = v)
  /\ (is_quit (key i) = false ->
      (is_refresh (key i) = false
       /\ (update_interval <= current_time i - last_update v)%Q)
      \/ (is_refresh (key i) = true
          /\ (update_interval <= current_time i)%Q) ->
      forall v', snd (tick i v) = Next v' ->
                 calls (fst (tick i v)) = all_six).
Proof.
  split.
  - intros Hr Hlt. unfold tick.
    destruct (is_quit (key i)); [split; [reflexivity | discriminate]|].
    rewrite Hr, (due_false i v Hlt).
    destruct (battery v); [destruct (draw i v)|]; cbn;
      (split; [reflexivity | intros v' [= <-]; reflexivity])
      || (split; [reflexivity | discriminate]).
  - intros Hq Hdue. unfold tick. rewrite Hq.
    set (v0 := if is_refresh (key i) then set_last_update 0 v else v).
    assert (Hd : due i v0 = true).
    { subst v0. destruct Hdue as [[-> H] | [-> H]].
      - now apply due_true.
      - apply due_true. cbn. lra. }
    rewrite Hd.
    destruct (refresh_calls i v0 (current_time i)) as (rest & Hall & Hne & Hok).
    destruct (refresh i v0 (current_time i)) as [log [v1|e]];
      cbn [fst snd] in *; [|discriminate].
    rewrite (Hok v1 eq_refl), app_nil_r in Hall.
    destruct (battery v1); [destruct (draw i v1)|]; cbn [fst snd];
      rewrite ?calls_app, ?app_nil_r; intros; symmetry; exact Hall.
Qed.

(** On a machine whose commands all time out, an iteration at a due time
    and an iteration at which [r] is read both call the six providers and
    go on. *)
Example due_ticks_refresh :
  calls (fst (tick (at_time 1000 no_key silent) initial)) = all_six
  /\ snd (tick (at_time 1000 no_key silent) initial) = Next cached
  /\ calls (fst (tick (at_time 1001 (ord "r") silent) cached)) = all_six
  /\ exists v', snd (tick (at_time 1001 (ord "r") silent) cached) = Next v'.
Proof.
  split; [reflexivity|]. split; [reflexivity|]. split; [reflexivity|].
  eexists. reflexivity.
Qed.

(** C2, as the claim has it, fails when [q] is read: a refresh is due, and
    the loop is left before the test of the elapsed time, so that no
    provider is called. *)
Lemma due_without_six_calls :
  is_quit (key (at_time 1000 (ord "q") silent)) = true
  /\ (update_interval <= current_time (at_time 1000 (ord "q") silent)
                         - last_update initial)%Q
  /\ tick (at_time 1000 (ord "q") silent) initial = ([], Break)
  /\ calls (fst (tick (at_time 1000 (ord "q") silent) initial)) <> all_six.
Proof.
  split; [reflexivity|]. split; [discriminate|]. split; [reflexivity|].
  discriminate.
Qed.

(** ** C8: the time that [last_update] takes *)

Lemma advances_ret {A} (a : A) : advances (ret a : io A).
Proof. intros t. apply Qle_refl. Qed.

Lemma advances_lift {A} (r : result A) : advances (lift r).
Proof. intros t. apply Qle_refl. Qed.

Lemma advances_bind {A B} (c : io A) (f : A -> io B) :
  advances c -> (forall a, advances (f a)) -> advances (bind c f).
Proof.
  intros Hc Hf t. rewrite bind_io. specialize (Hc t).
  destruct (c t) as [[a|e] t']; cbn [snd] in *.
  - eapply Qle_trans; [exact Hc | apply Hf].
  - exact Hc.
Qed.

Lemma advances_run_cmd (m : os) (cmd : str) :
  (0 <= took m cmd)%Q -> advances (run_cmd m cmd).
Proof. intros H t. unfold run_cmd. cbn [snd]. lra. Qed.

Ltac advance :=
  repeat first
    [ apply advances_ret
    | apply advances_lift
    | apply advances_run_cmd; solve [auto]
    | apply advances_bind; [| intros ?]
    | match goal with
      | |- advances (match ?x with _ => _ end) => destruct x
      end ].

Lemma providers_advance (m : os) :
  (forall c, (0 <= took m c)%Q) ->
  advances (parse_ioreg_battery m) /\ advances (parse_pmset m)
  /\ advances (parse_thermal m) /\ advances (get_cpu_usage m)
  /\ advances (get_memory_info m) /\ advances (get_disk_info m).
Proof.
  intros H.
  unfold parse_ioreg_battery, parse_pmset, parse_thermal, get_cpu_usage,
    get_memory_info, get_disk_info.
  repeat split; advance.
Qed.

(** The clock when the sixth provider has returned is not before the clock
    at the top of the iteration. *)
Lemma collected_clock (i : tick_input) (s : batch) (ts : list Q) :
  (forall c, (0 <= took (machine i) c)%Q) ->
  collected i s ts -> (current_time i <= last ts 0)%Q.
Proof.
  intros Hpos (t1 & t2 & t3 & t4 & t5 & t6 & -> & E1 & E2 & E3 & E4 & E5 & E6).
  destruct (providers_advance (machine i) Hpos)
    as (A1 & A2 & A3 & A4 & A5 & A6).
  specialize (A1 (current_time i)). rewrite E1 in A1.
  specialize (A2 t1). rewrite E2 in A2.
  specialize (A3 t2). rewrite E3 in A3.
  specialize (A4 t3). rewrite E4 in A4.
  specialize (A5 t4). rewrite E5 in A5.
  specialize (A6 t5). rewrite E6 in A6.
  cbn in *. lra.
Qed.

(** C8, as the code has it.  An iteration that refreshes and goes on has
    called the six providers in the order of the source, holds their six
    samples, and has set [last_update] to the time read at the top of the
    iteration, before the first call; when no command takes negative time
    that is not after the time at which the six had returned and the
    assignment was made. *)
Theorem refresh_commits_tick_time (i : tick_input) (v v' : locals) :
  is_quit (key i) = false ->
  due i (if is_refresh (key i) then set_last_update 0 v else v) = true ->
  snd (tick i v) = Next v' ->
  exists s ts f,
    collected i s ts /\ holds v' s
    /\ last_update v' = current_time i
    /\ fst (tick i v) = refresh_trace i ts ++ [Drew v' f; Slept]
    /\ calls (fst (tick i v)) = all_six
    /\ commits (fst (tick i v)) = [(last ts 0%Q, current_time i)]
    /\ ((forall c, (0 <= took (machine i) c)%Q) ->
        (last_update v' <= last ts 0)%Q).
Proof.
  intros Hq Hd. unfold tick. rewrite Hq, Hd.
  destruct (refresh i _ (current_time i)) as [log [v1|e]] eqn:R;
    [|discriminate].
  destruct (refresh_ok _ _ _ _ R) as (s & ts & Hc & Hh & Hl & ->).
  pose proof Hh as (Hbat & _). rewrite Hbat.
  destruct (draw i v1) as [f|e]; [|discriminate].
  cbn [fst snd]. intros [= <-].
  exists s, ts, f.
  split; [exact Hc|]. split; [exact Hh|]. split; [exact Hl|].
  split; [reflexivity|].
  rewrite calls_app, commits_app.
  rewrite (calls_refresh_trace i s ts Hc), (commits_refresh_trace i s ts Hc).
  split; [reflexivity|]. split; [reflexivity|].
  intros Hpos. rewrite Hl. now apply (collected_clock i s ts).
Qed.

Lemma refresh_commits_tick_time_witness :
  is_quit (key (at_time 1000 no_key silent)) = false
  /\ last_update cached = 1000%Q
  /\ calls (fst (tick (at_time 1000 no_key silent) initial)) = all_six.
Proof.
  split; [reflexivity|].
  destruct (refresh_commits_tick_time (at_time 1000 no_key silent)
              initial cached)
    as (s & ts & f & _ & _ & Hl & _ & Hcalls & _);
    [reflexivity | reflexivity | reflexivity |].
  split; [exact Hl | exact Hcalls].
Defined.

(** C8, as the claim has it, fails on [silent]: every command takes its
    five seconds, the six providers have returned when the clock reads
    1040 s, and [last_update] is set to 1000 s, the time read before the
    first call. *)
Lemma commit_later_than_last_update :
  exists v' t6,
    snd (tick (at_time 1000 no_key silent) initial) = Next v'
    /\ commits (fst (tick (at_time 1000 no_key silent) initial))
       = [(t6, 1000%Q)]
    /\ (t6 == 1040)%Q
    /\ last_update v' = 1000%Q
    /\ (last_update v' < t6)%Q.
Proof.
  exists cached. eexists.
  split; [reflexivity|]. split; [reflexivity|].
  split; [reflexivity|]. split; reflexivity.
Qed.

(** * Further properties *)

(** ** The matcher finds only what the pattern describes *)

Lemma star_greedy_sound {R} (p : char -> bool) (s : str)
  (k : str -> option R) (res : R) :
  star_greedy p s k = Some res ->
  exists w s', s = w ++ s' /\ forallb p w = true /\ k s' = Some res.
Proof.
  induction s as [|c s IH]; simpl.
  - intros H. exists [], []. auto.
  - destruct (p c) eqn:Pc.
    + destruct (star_greedy p s k) as [r|] eqn:E; simpl.
      * intros [= <-]. destruct (IH eq_refl) as (w & s' & -> & Hw & Hk).
        exists (c :: w), s'. simpl. rewrite Pc, Hw. auto.
      * intros H. exists [], (c :: s). auto.
    + intros H. exists [], (c :: s). auto.
Qed.

Lemma star_lazy_sound {R} (p : char -> bool) (s : str)
  (k : str -> option R) (res : R) :
  star_lazy p s k = Some res ->
  exists w s', s = w ++ s' /\ forallb p w = true /\ k s' = Some res.
Proof.
  induction s as [|c s IH]; simpl.
  - destruct (k []) eqn:E; [|discriminate].
    intros [= <-]. exists [], []. auto.
  - destruct (k (c :: s)) eqn:E.
    + intros [= <-]. exists [], (c :: s). auto.
    + destruct (p c) eqn:Pc; [|discriminate].
      intros H. destruct (IH H) as (w & s' & -> & Hw & Hk).
      exists (c :: w), s'. simpl. rewrite Pc, Hw. auto.
Qed.

Lemma firstn_consumed (w s' : str) :
  firstn (List.length (w ++ s') - List.length s') (w ++ s') = w.
Proof.
  rewrite length_app.
  replace (List.length w + List.length s' - List.length s')%nat
    with (List.length w + 0)%nat by lia.
  rewrite firstn_app_2. simpl. apply app_nil_r.
Qed.

Lemma rmatch_sound (r : regex) :
  forall (s : str) (caps : groups) (k : str -> groups -> option groups)
         (res : groups),
    rmatch r s caps k = Some res ->
    exists w s' cs,
      s = w ++ s' /\ captures r w cs /\ k s' (caps ++ cs) = Some res.
Proof.
  induction r as [l | p | p | p | p | a IHa b IHb | a IHa b IHb | a IHa];
    intros s caps k res; simpl.
  - destruct (strip_prefix l s) as [s'|] eqn:E; [|discriminate].
    apply strip_prefix_spec in E. intros H.
    exists l, s', []. rewrite app_nil_r. auto.
  - intros H. apply star_greedy_sound in H.
    destruct H as (w & s' & -> & Hw & Hk).
    exists w, s', []. rewrite app_nil_r. auto.
  - destruct s as [|c s]; [discriminate|].
    destruct (p c) eqn:Pc; [|discriminate].
    intros H. apply star_greedy_sound in H.
    destruct H as (w & s' & -> & Hw & Hk).
    exists (c :: w), s', []. rewrite app_nil_r. simpl. rewrite Pc, Hw.
    repeat split; auto. discriminate.
  - intros H. apply star_lazy_sound in H.
    destruct H as (w & s' & -> & Hw & Hk).
    exists w, s', []. rewrite app_nil_r. auto.
  - assert (Hskip : k s caps = Some res ->
              exists w s' cs, s = w ++ s'
                /\ ((w = [] \/ exists c, w = [c] /\ p c = true) /\ cs = [])
                /\ k s' (caps ++ cs) = Some res).
    { intros H. exists [], s, []. rewrite app_nil_r. auto. }
    destruct s as [|c s]; [exact Hskip|].
    destruct (p c) eqn:Pc; [|exact Hskip].
    destruct (k s caps) as [r0|] eqn:E; simpl; [|exact Hskip].
    intros [= <-]. exists [c], s, []. rewrite app_nil_r.
    split; [reflexivity|]. split; [|exact E]. split; [|reflexivity].
    right. exists c. auto.
  - destruct (rmatch a s caps k) as [r0|] eqn:E; simpl.
    + intros [= <-]. destruct (IHa _ _ _ _ E) as (w & s' & cs & -> & Hc & Hk).
      exists w, s', cs. auto.
    + intros H. destruct (IHb _ _ _ _ H) as (w & s' & cs & -> & Hc & Hk).
      exists w, s', cs. auto.
  - intros H. destruct (IHa _ _ _ _ H) as (w1 & s1 & c1 & -> & Hc1 & H1).
    destruct (IHb _ _ _ _ H1) as (w2 & s2 & c2 & -> & Hc2 & H2).
    exists (w1 ++ w2), s2, (c1 ++ c2).
    split; [now rewrite app_assoc|]. split.
    + exists w1, w2, c1, c2. auto.
    + now rewrite app_assoc.
  - intros H. destruct (IHa _ _ _ _ H) as (w & s' & cs & -> & Hc & Hk).
    rewrite firstn_consumed in Hk.
    exists w, s', (cs ++ [w]). split; [reflexivity|]. split.
    + exists cs. auto.
    + now rewrite app_assoc.
Qed.

Lemma re_match_sound (r : regex) (s : str) (g : groups) :
  re_match r s = Some g -> exists w s', s = w ++ s' /\ captures r w g.
Proof.
  unfold re_match. intros H. apply rmatch_sound in H.
  destruct H as (w & s' & cs & -> & Hc & [= <-]). eauto.
Qed.

Lemma re_search_sound (r : regex) (s : str) (g : groups) :
  re_search r s = Some g ->
  exists a w s', s = a ++ w ++ s' /\ captures r w g.
Proof.
  induction s as [|c s IH]; simpl.
  - destruct (re_match r []) as [g0|] eqn:E; [|discriminate].
    intros [= <-]. apply re_match_sound in E.
    destruct E as (w & s' & -> & Hc). exists [], w, s'. auto.
  - destruct (re_match r (c :: s)) as [g0|] eqn:E.
    + intros [= <-]. apply re_match_sound in E.
      destruct E as (w & s' & -> & Hc). exists [], w, s'. auto.
    + intros H. destruct (IH H) as (a & w & s' & -> & Hc).
      exists (c :: a), w, s'. auto.
Qed.

Ltac open_captures H :=
  cbn [captures seq_of] in H;
  repeat match goal with
         | X : exists _, _ |- _ => destruct X
         | X : _ /\ _ |- _ => destruct X
         end;
  subst.

(** ** Numbers read from text *)

Lemma int_of_digits_acc (w : str) (acc : Z) :
  forallb is_digit w = true -> 0 <= acc ->
  0 <= fold_left (fun a c => 10 * a + (Z.of_N c - 48)) w acc.
Proof.
  revert acc. induction w as [|c w IH]; intros acc Hw Hacc; cbn [fold_left].
  - exact Hacc.
  - simpl in Hw. apply andb_true_iff in Hw. destruct Hw as [Hc Hw].
    apply IH; [exact Hw|].
    unfold is_digit in Hc. apply andb_true_iff in Hc. destruct Hc as [Hc _].
    apply N.leb_le in Hc. apply N2Z.inj_le in Hc.
    change (Z.of_N 48) with 48 in Hc. lia.
Qed.

Lemma int_of_digits_nonneg (w : str) :
  forallb is_digit w = true -> 0 <= int_of_digits w.
Proof. intros H. apply int_of_digits_acc; [exact H | lia]. Qed.

Lemma int_of_str_digits (w : str) :
  forallb is_digit w = true -> int_of_str w = int_of_digits w.
Proof.
  destruct w as [|c w]; [reflexivity|]. simpl. intros H.
  apply andb_true_iff in H. destruct H as [Hc _].
  unfold int_of_str.
  destruct (N.eq_dec c 45) as [-> | Hne]; [discriminate|].
  destruct c as [|c]; [reflexivity|].
  repeat (destruct c as [c|c|]; try reflexivity); congruence.
Qed.

Lemma int_of_str_nonneg (w : str) : digits w -> 0 <= int_of_str w.
Proof.
  intros [_ H]. rewrite int_of_str_digits by exact H.
  now apply int_of_digits_nonneg.
Qed.

(** A field read with a pattern whose first group is a run of digits is
    not negative, when its default is not. *)
Lemma int_field_nonneg (r : regex) (output : str) (d : Z) :
  (forall w g, captures r w g -> digits (group g 1)) ->
  0 <= d -> 0 <= int_field r output d.
Proof.
  intros Hr Hd. unfold int_field.
  destruct (re_search r output) as [g|] eqn:E; [|exact Hd].
  apply re_search_sound in E. destruct E as (a & w & s' & _ & Hc).
  apply int_of_str_nonneg. eapply Hr. exact Hc.
Qed.

Lemma key_spaced_digits (key : string) (w : str) (g : groups) :
  captures (re_key_spaced key) w g -> digits (group g 1).
Proof. unfold re_key_spaced. intros H. open_captures H. split; assumption. Qed.

Lemma key_tight_digits (key : string) (w : str) (g : groups) :
  captures (re_key_tight key) w g -> digits (group g 1).
Proof. unfold re_key_tight. intros H. open_captures H. split; assumption. Qed.

Lemma bind_run_cmd_ok {B} (m : os) (cmd : str) (f : str -> io B) (t t' : Q)
  (b : B) :
  bind (run_cmd m cmd) f t = (Ok b, t') ->
  exists output, f output (t + took m cmd)%Q = (Ok b, t').
Proof.
  rewrite bind_io. unfold run_cmd.
  destruct (sh m cmd); intros H; try discriminate; eauto.
Qed.

Lemma bind_io_raise {A B} (c : io A) (f : A -> io B) (t t' : Q) (e : exn) :
  bind c f t = (Raise e, t') ->
  c t = (Raise e, t')
  \/ exists a t1, c t = (Ok a, t1) /\ f a t1 = (Raise e, t').
Proof.
  rewrite bind_io. destruct (c t) as [[a|e0] t1]; intros H;
    [right; eauto | left; injection H as -> ->; reflexivity].
Qed.

Lemma run_cmd_raise (m : os) (cmd : str) (t t' : Q) (e : exn) :
  run_cmd m cmd t = (Raise e, t') ->
  e = KeyboardInterrupt /\ sh m cmd = Interrupted.
Proof.
  unfold run_cmd. destruct (sh m cmd); intros [= <- _]; auto.
Qed.

Lemma lift_eq {A} (r r' : result A) (t t' : Q) :
  lift r t = (r', t') -> r = r' /\ t' = t.
Proof. unfold lift. intros [= -> ->]. auto. Qed.

(** ** The battery sample *)

(** Whatever the registry dump holds, the capacities, voltages, currents,
    powers and the cycle count of the sample are not negative (only
    [amperage_ma] is read with a sign), and there are three cell voltages,
    none negative. *)
Theorem battery_sample_ranges (m : os) (t t' : Q) (b : battery_info) :
  parse_ioreg_battery m t = (Ok b, t') ->
  0 <= current_capacity_mah b /\ 0 <= max_capacity_mah b
  /\ 0 <= design_capacity_mah b /\ 0 <= voltage_mv b /\ 0 <= cycle_count b
  /\ 0 <= adapter_watts b /\ 0 <= adapter_voltage_mv b
  /\ 0 <= adapter_current_ma b /\ 0 <= system_power_mw b
  /\ 0 <= charging_current_ma b /\ 0 <= charging_voltage_mv b
  /\ List.length (cell_voltages b) = 3%nat
  /\ Forall (fun c => 0 <= c) (cell_voltages b).
Proof.
  unfold parse_ioreg_battery. intros H.
  apply bind_run_cmd_ok in H. destruct H as (output & [= <- _]).
  cbn [current_capacity_mah max_capacity_mah design_capacity_mah voltage_mv
       cycle_count adapter_watts adapter_voltage_mv adapter_current_ma
       system_power_mw charging_current_ma charging_voltage_mv cell_voltages].
  repeat (split;
          [first [ apply int_field_nonneg;
                   [first [apply key_spaced_digits | apply key_tight_digits]
                   | lia]
                 | idtac ] |]).
  - destruct (re_search re_cell_voltage output); reflexivity.
  - destruct (re_search re_cell_voltage output) as [g|] eqn:E.
    + apply re_search_sound in E. destruct E as (a & w & s' & _ & Hc).
      unfold re_cell_voltage in Hc. open_captures Hc.
      repeat constructor; cbn; apply int_of_str_nonneg; split; assumption.
    + repeat constructor; lia.
Qed.

Lemma battery_sample_ranges_witness :
  parse_ioreg_battery laptop 0%Q = (Ok on_battery, (1 # 10)%Q)
  /\ 0 <= design_capacity_mah on_battery
  /\ List.length (cell_voltages on_battery) = 3%nat.
Proof.
  assert (H : parse_ioreg_battery laptop 0%Q = (Ok on_battery, (1 # 10)%Q))
    by reflexivity.
  split; [exact H|].
  destruct (battery_sample_ranges laptop 0%Q (1 # 10)%Q on_battery H)
    as (_ & _ & Hd & _ & _ & _ & _ & _ & _ & _ & _ & Hl & _).
  split; [exact Hd | exact Hl].
Defined.

(** ** The power-management sample *)

(** The three statuses that C9 leaves: [Fully Charged] exactly when the
    output holds [charged] and not [charging] (letters of any case),
    [On AC] exactly when it holds neither and holds [AC Power] as written,
    [Unknown] exactly when it holds none of them; the status is always one
    of the five of the docstring. *)
Theorem pmset_status_table (output : str) :
  (pmset_status output = txt "Fully Charged" <->
   contains (txt "charging") (lower output) = false
   /\ contains (txt "charged") (lower output) = true)
  /\ (pmset_status output = txt "On AC" <->
      contains (txt "charging") (lower output) = false
      /\ contains (txt "charged") (lower output) = false
      /\ contains (txt "AC Power") output = true)
  /\ (pmset_status output = txt "Unknown" <->
      contains (txt "charging") (lower output) = false
      /\ contains (txt "charged") (lower output) = false
      /\ contains (txt "AC Power") output = false)
  /\ In (pmset_status output)
       [txt "Charging"; txt "Discharging"; txt "Fully Charged"; txt "On AC";
        txt "Unknown"].
Proof.
  pose proof (contains_suffix (txt "dis") (txt "charging") (lower output)) as Hsub.
  change (txt "dis" ++ txt "charging") with (txt "discharging") in Hsub.
  unfold pmset_status.
  destruct (contains (txt "discharging") (lower output)) eqn:Ed.
  - rewrite (Hsub eq_refl). cbn [andb negb].
    repeat split; try discriminate; try (intros [[=] _]).
    right. left. reflexivity.
  - clear Hsub.
    destruct (contains (txt "charging") (lower output)); cbn [andb negb].
    + repeat split; try discriminate; try (intros [[=] _]).
      left. reflexivity.
    + destruct (contains (txt "charged") (lower output)).
      * repeat split; try discriminate; try (intros (_ & [=] & _)).
        right. right. left. reflexivity.
      * destruct (contains (txt "AC Power") output).
        -- repeat split; try discriminate; try (intros (_ & [=]));
             try (intros (_ & _ & [=])).
           right. right. right. left. reflexivity.
        -- repeat split; try discriminate; try (intros (_ & [=]));
             try (intros (_ & _ & [=])).
           right. right. right. right. left. reflexivity.
Qed.

(** The percentage of the sample is not negative, and the remaining time is
    [N/A] or hours, a colon and minutes, each a run of digits. *)
Theorem pmset_sample_shape (m : os) (t t' : Q) (p : pmset_info) :
  parse_pmset m t = (Ok p, t') ->
  0 <= percentage p
  /\ (time_remaining p = txt "N/A"
      \/ exists h mm, digits h /\ digits mm
                      /\ time_remaining p = h ++ txt ":" ++ mm).
Proof.
  unfold parse_pmset. intros H.
  apply bind_run_cmd_ok in H. destruct H as (output & [= <- _]).
  cbn [percentage time_remaining]. split.
  - apply int_field_nonneg; [|lia].
    intros w g Hc. unfold re_percent in Hc. open_captures Hc.
    split; assumption.
  - destruct (re_search re_remaining output) as [g|] eqn:E; [|left; reflexivity].
    right. apply re_search_sound in E. destruct E as (a & w & s' & _ & Hc).
    unfold re_remaining in Hc. open_captures Hc.
    cbn [group nth Nat.sub app].
    match goal with
    | |- exists h mm, _ /\ _ /\ ?a ++ _ ++ ?b = _ => exists a, b
    end.
    repeat split; assumption.
Qed.

Lemma pmset_sample_shape_witness :
  exists p, parse_pmset laptop 0%Q = (Ok p, (1 # 10)%Q)
            /\ percentage p = 82 /\ status p = txt "Discharging"
            /\ time_remaining p = txt "3:15" /\ 0 <= percentage p.
Proof.
  eexists. split; [reflexivity|].
  split; [reflexivity|]. split; [reflexivity|]. split; [reflexivity|].
  eapply (pmset_sample_shape laptop 0%Q). reflexivity.
Defined.

(** ** Decimal numbers read from text *)

Lemma digit_not_dot (c : char) : is_digit c = true -> (c =? 46)%N = false.
Proof.
  unfold is_digit. intros H. apply andb_true_iff in H. destruct H as [H _].
  apply N.leb_le in H. apply N.eqb_neq. intros ->. revert H.
  apply N.lt_nge. reflexivity.
Qed.

Lemma split_dot_digits (d rest acc : str) :
  forallb is_digit d = true ->
  split_dot acc (d ++ rest) = split_dot (rev d ++ acc) rest.
Proof.
  revert acc. induction d as [|c d IH]; intros acc H; simpl.
  - reflexivity.
  - simpl in H. apply andb_true_iff in H. destruct H as [Hc Hd].
    rewrite (digit_not_dot c Hc), IH by exact Hd.
    now rewrite <- app_assoc.
Qed.

Lemma Qz_nonneg (z : Z) : 0 <= z -> (0 <= Qz z)%Q.
Proof. intros H. unfold Qz, Qle. simpl. lia. Qed.

Lemma Qz_pos (z : Z) : 0 < z -> (0 < Qz z)%Q.
Proof. intros H. unfold Qz, Qlt. simpl. lia. Qed.

Lemma decimal_nonneg (ip fp : str) :
  forallb is_digit ip = true -> forallb is_digit fp = true ->
  (0 <= Qz (int_of_digits ip)
        + Qz (int_of_digits fp) / Qz (10 ^ Z.of_nat (List.length fp)))%Q.
Proof.
  intros Hi Hf.
  pose proof (Qz_nonneg _ (int_of_digits_nonneg ip Hi)) as H1.
  pose proof (Qz_nonneg _ (int_of_digits_nonneg fp Hf)) as H2.
  assert (H3 : (0 < Qz (10 ^ Z.of_nat (List.length fp)))%Q).
  { apply Qz_pos. apply Z.pow_pos_nonneg; lia. }
  assert (H4 : (0 <= Qz (int_of_digits fp)
                     / Qz (10 ^ Z.of_nat (List.length fp)))%Q).
  { apply Qle_shift_div_l; [exact H3|]. now rewrite Qmult_0_l. }
  lra.
Qed.

Lemma some_digit (ip fp : str) :
  ip <> [] -> negb (Nat.eqb (List.length ip + List.length fp) 0) = true.
Proof. destruct ip; [congruence | reflexivity]. Qed.

(** [float] accepts digits, then a dot or none, then digits or none; what
    it returns is not negative. *)
Lemma py_float_decimal (d1 o d2 : str) :
  digits d1 -> o = [] \/ o = [46%N] -> forallb is_digit d2 = true ->
  exists q, py_float (d1 ++ o ++ d2) = Ok q /\ (0 <= q)%Q.
Proof.
  intros [Hne Hd1] Ho Hd2. unfold py_float.
  assert (H12 : forallb is_digit (d1 ++ d2) = true)
    by (rewrite forallb_app, Hd1, Hd2; reflexivity).
  destruct Ho as [-> | ->].
  - cbn [app]. rewrite <- (app_nil_r (d1 ++ d2)).
    rewrite split_dot_digits by exact H12.
    cbn [split_dot]. rewrite app_nil_r, rev_involutive.
    rewrite H12, some_digit by (destruct d1; [congruence | discriminate]).
    cbn [forallb andb]. eexists. split; [reflexivity|].
    apply decimal_nonneg; [exact H12 | reflexivity].
  - rewrite split_dot_digits by exact Hd1.
    cbn [app split_dot]. rewrite N.eqb_refl, app_nil_r, rev_involutive.
    rewrite Hd1, Hd2, some_digit by exact Hne.
    cbn [andb]. eexists. split; [reflexivity|].
    now apply decimal_nonneg.
Qed.

Lemma decimal_group (w : str) (g : groups) :
  captures re_decimal w g ->
  g = [w] /\ exists d1 o d2, w = d1 ++ o ++ d2 /\ digits d1
                             /\ (o = [] \/ o = [46%N])
                             /\ forallb is_digit d2 = true.
Proof.
  unfold re_decimal. intros H. open_captures H.
  split; [reflexivity|].
  eexists. eexists. eexists. split; [reflexivity|].
  split; [split; assumption|]. split; [|assumption].
  match goal with
  | X : _ \/ _ |- _ => destruct X as [-> | (c & -> & Hc)]
  end; [left; reflexivity | right].
  unfold is_chr in Hc. apply N.eqb_eq in Hc. now subst.
Qed.

(** ** The CPU sample *)

(** What [get_cpu_usage] makes of an output of [top]: the two figures
    of a match are accepted by [float]. *)
Lemma cpu_usage_of_output (output : str) (t0 : Q) :
  exists q, fst (match re_search re_cpu_usage output with
                 | Some g =>
                     user <- lift (py_float (group g 1)) ;;
                     sys <- lift (py_float (group g 2)) ;;
                     ret (user + sys)%Q
                 | None => ret 0%Q
                 end t0) = Ok q /\ (0 <= q)%Q.
Proof.
      destruct (re_search re_cpu_usage output) as [g|] eqn:E.
  - apply re_search_sound in E. destruct E as (a & w & s' & _ & Hc).
    unfold re_cpu_usage in Hc. cbn [captures seq_of] in Hc.
    destruct Hc as (w1 & r1 & c1 & k1 & _ & -> & H1 & Hc).
    destruct Hc as (? & r2 & ? & k2 & _ & -> & [_ ->] & Hc).
    destruct Hc as (? & r3 & ? & k3 & _ & -> & [_ ->] & Hc).
    destruct Hc as (? & r4 & ? & k4 & _ & -> & [_ ->] & Hc).
    destruct Hc as (? & r5 & ? & k5 & _ & -> & [_ ->] & Hc).
    destruct Hc as (w2 & r6 & c2 & k6 & _ & -> & H2 & Hc).
    destruct Hc as (? & r7 & ? & k7 & _ & -> & [_ ->] & Hc).
    destruct Hc as (? & r8 & ? & k8 & _ & -> & [_ ->] & [_ ->]).
    apply decimal_group in H1. destruct H1 as (-> & d1 & o & d2 & -> & Hd).
    apply decimal_group in H2. destruct H2 as (-> & e1 & o' & e2 & -> & He).
    cbn [app group nth Nat.sub].
    destruct Hd as (Hd1 & Ho & Hd2). destruct He as (He1 & Ho' & He2).
    destruct (py_float_decimal d1 o d2 Hd1 Ho Hd2) as (q1 & E1 & P1).
    destruct (py_float_decimal e1 o' e2 He1 Ho' He2) as (q2 & E2 & P2).
    rewrite !bind_io. unfold lift. rewrite E1. rewrite bind_io, E2.
    cbn. exists (q1 + q2)%Q. split; [reflexivity | lra].
  - exists 0%Q. split; [reflexivity | lra].
Qed.

Lemma cpu_usage_raises (m : os) (t t' : Q) (e : exn) :
  get_cpu_usage m t = (Raise e, t') -> e = KeyboardInterrupt.
Proof.
  unfold get_cpu_usage. intros H.
  apply bind_io_raise in H. destruct H as [H | (output & t1 & _ & H)].
  - now apply run_cmd_raise in H.
  - destruct (cpu_usage_of_output output t1) as (q & Hq & _).
    rewrite H in Hq. discriminate.
Qed.

(** [get_cpu_usage] returns a number that is not negative whatever [top]
    prints: the two figures that the pattern captures are always accepted
    by [float].  It raises only when the command is interrupted. *)
Theorem cpu_usage_total (m : os) (t : Q) :
  (sh m (txt "top -l 1 -n 0 | grep 'CPU usage'") <> Interrupted ->
   exists q, fst (get_cpu_usage m t) = Ok q /\ (0 <= q)%Q)
  /\ (forall e, fst (get_cpu_usage m t) = Raise e -> e = KeyboardInterrupt).
Proof.
  unfold get_cpu_usage. rewrite bind_io. unfold run_cmd.
  destruct (sh m (txt "top -l 1 -n 0 | grep 'CPU usage'")) as [out | | |].
  - split; [intros _; apply cpu_usage_of_output|].
    intros e He. destruct (cpu_usage_of_output out
      (t + took m (txt "top -l 1 -n 0 | grep 'CPU usage'"))%Q) as (q & Hq & _).
    congruence.
  - split; [intros _; apply cpu_usage_of_output|].
    intros e He. destruct (cpu_usage_of_output []
      (t + took m (txt "top -l 1 -n 0 | grep 'CPU usage'"))%Q) as (q & Hq & _).
    congruence.
  - split; [intros _; apply cpu_usage_of_output|].
    intros e He. destruct (cpu_usage_of_output []
      (t + took m (txt "top -l 1 -n 0 | grep 'CPU usage'"))%Q) as (q & Hq & _).
    congruence.
  - split; [congruence|]. cbn. intros e [= <-]. reflexivity.
Qed.

(** ** The disk sample *)

Lemma bind_lift {A B} (r : result A) (f : A -> io B) (t : Q) :
  bind (lift r) f t = match r with
                      | Ok a => f a t
                      | Raise e => (Raise e, t)
                      end.
Proof. rewrite bind_io. unfold lift. destruct r; reflexivity. Qed.

Lemma py_float_result (s : str) : size_result (py_float s).
Proof.
  unfold py_float. destruct (split_dot [] s) as [ip rest]. cbv zeta.
  destruct (forallb is_digit ip) eqn:Hi; [|exact eq_refl].
  match goal with
  | |- context [andb (andb true ?b) _] => destruct b eqn:Hf
  end; [|exact eq_refl].
  cbn [andb]. destruct (negb _); [|exact eq_refl].
  cbn [size_result]. now apply decimal_nonneg.
Qed.

Lemma size_gb_result (g : groups) : size_result (size_gb g).
Proof.
  unfold size_gb. pose proof (py_float_result (group g 1)) as H.
  destruct (py_float (group g 1)) as [size|e]; cbn [bind result_monad].
  - cbn [size_result] in H.
    destruct (str_eqb (group g 2) (txt "TB")); cbn [size_result]; [lra|].
    destruct (str_eqb (group g 2) (txt "MB")); cbn [size_result]; [|exact H].
    apply Qle_shift_div_l; [reflexivity | lra].
  - exact H.
Qed.

Lemma Qgtb_nonzero (a : Q) : Qgtb a 0 = true -> Qeq_bool a 0 = false.
Proof.
  intros H. apply Qgtb_gt in H.
  destruct (Qeq_bool a 0) eqn:E; [|reflexivity].
  apply Qeq_bool_iff in E. rewrite E in H. exfalso. revert H. apply Qlt_irrefl.
Qed.

(** The three sizes that [get_disk_info] reads, each with its default. *)
Lemma disk_total_result (output : str) :
  size_result match re_search (re_space "Container Total Space:" GB_TB)
                      output with
              | Some g => size_gb g
              | None => Ok 0%Q
              end.
Proof.
  destruct (re_search _ output); [apply size_gb_result | apply Qle_refl].
Qed.

Lemma disk_free_result (output : str) (r : result (Q * Q)) :
  match re_search (re_space "Container Free Space:" GB_TB) output with
  | Some g => size <- size_gb g ;; Ok (size, size)
  | None => Ok (0%Q, 0%Q)
  end = r ->
  match r with
  | Ok (a, p) => (0 <= a)%Q /\ p = a
  | Raise e => e = ValueError
  end.
Proof.
  intros <-. destruct (re_search _ output) as [g|].
  - pose proof (size_gb_result g) as H.
    destruct (size_gb g); cbn in *; auto.
  - split; [apply Qle_refl | reflexivity].
Qed.

Lemma disk_used_result (output : str) :
  size_result match re_search (re_space "Volume Used Space:" GB_TB_MB)
                      output with
              | Some g => size_gb g
              | None => Ok 0%Q
              end.
Proof.
  destruct (re_search _ output); [apply size_gb_result | apply Qle_refl].
Qed.

Lemma disk_pct_result (used total : Q) (r : result Z) :
  (if Qgtb total 0
   then ratio <- truediv used total ;; Ok (py_int (ratio * 100))
   else Ok 0) = r ->
  exists pct, r = Ok pct
              /\ ((total <= 0)%Q -> pct = 0)
              /\ ((0 < total)%Q -> pct = py_int (used / total * 100)).
Proof.
  intros <-. destruct (Qgtb total 0) eqn:E.
  - unfold truediv. rewrite (Qgtb_nonzero total E). apply Qgtb_gt in E.
    eexists. split; [reflexivity|]. split; [|reflexivity].
    intros H. exfalso. lra.
  - apply Qgtb_le in E. exists 0. split; [reflexivity|]. split; [reflexivity|].
    intros H. exfalso. lra.
Qed.

Lemma disk_raises (m : os) (t t' : Q) (e : exn) :
  get_disk_info m t = (Raise e, t') ->
  e = ValueError \/ e = KeyboardInterrupt.
Proof.
  intros H. unfold get_disk_info in H.
  cbn [Disk.total_gb Disk.used_gb Disk.available_gb Disk.used_pct
       Disk.purgeable_gb] in H.
  apply bind_io_raise in H. destruct H as [H | (output & t1 & _ & H)].
  { apply run_cmd_raise in H. right. apply H. }
  pose proof (disk_total_result output) as Rt.
  apply bind_io_raise in H. destruct H as [H | (total & t2 & _ & H)].
  { apply lift_eq in H. destruct H as [H _]. rewrite H in Rt. left. exact Rt. }
  apply bind_io_raise in H. destruct H as [H | (free & t3 & _ & H)].
  { apply lift_eq in H. destruct H as [H _].
    apply disk_free_result in H. left. exact H. }
  pose proof (disk_used_result output) as Ru.
  apply bind_io_raise in H. destruct H as [H | (used & t4 & _ & H)].
  { apply lift_eq in H. destruct H as [H _]. rewrite H in Ru. left. exact Ru. }
  apply bind_io_raise in H. destruct H as [H | (pct & t5 & _ & H)].
  { apply lift_eq in H. destruct H as [H _].
    apply disk_pct_result in H. destruct H as (pct & [=] & _). }
  discriminate.
Qed.

(** [get_disk_info] never divides by zero, whatever [diskutil] prints: the
    percentage is computed for a positive total only.  When it returns, the
    total and the available space are not negative, the purgeable space is
    the available space, and the percentage is 0 unless the total is
    positive. *)
Theorem disk_sample_shape (m : os) (t : Q) :
  fst (get_disk_info m t) <> Raise ZeroDivisionError
  /\ (forall d, fst (get_disk_info m t) = Ok d ->
      (0 <= Disk.total_gb d)%Q /\ (0 <= Disk.available_gb d)%Q
      /\ Disk.purgeable_gb d = Disk.available_gb d
      /\ ((Disk.total_gb d <= 0)%Q -> Disk.used_pct d = 0)).
Proof.
  destruct (get_disk_info m t) as [r t'] eqn:H. cbn [fst].
  unfold get_disk_info in H. cbn [Disk.total_gb Disk.used_gb Disk.available_gb
    Disk.used_pct Disk.purgeable_gb] in H.
  split.
  - intros ->. destruct (disk_raises _ _ _ _ H); discriminate.
  - intros d ->.
    apply bind_io_ok in H. destruct H as (output & t1 & _ & H).
    pose proof (disk_total_result output) as Rt.
    apply bind_io_ok in H. destruct H as (total & t2 & Ht & H).
    apply lift_eq in Ht. destruct Ht as [Ht _]. rewrite Ht in Rt.
    apply bind_io_ok in H. destruct H as ([avail purge] & t3 & Hf & H).
    apply lift_eq in Hf. destruct Hf as [Hf _].
    apply disk_free_result in Hf. destruct Hf as [Ha ->].
    apply bind_io_ok in H. destruct H as (used & t4 & _ & H).
    apply bind_io_ok in H. destruct H as (pct & t5 & Hp & H).
    apply lift_eq in Hp. destruct Hp as [Hp _].
    apply disk_pct_result in Hp. destruct Hp as (pct' & [= ->] & Hz & Hpos).
    injection H as <- _.
    cbn [Disk.total_gb Disk.used_gb Disk.available_gb Disk.used_pct
         Disk.purgeable_gb fst snd].
    repeat split; assumption.
Qed.

(** ** The memory sample *)

Lemma dict_get_nonneg (d : dict) (k : str) (default : Z) :
  Forall (fun kv => 0 <= snd kv) d -> 0 <= default ->
  0 <= dict_get d k default.
Proof.
  intros Hd H0. induction Hd as [|[k' v] d Hv Hd IH]; simpl.
  - exact H0.
  - destruct (str_eqb k' k); [exact Hv | exact IH].
Qed.

Lemma vm_stat_line_digits (w : str) (g : groups) :
  captures re_vm_stat_line w g -> digits (group g 2).
Proof. unfold re_vm_stat_line. intros H. open_captures H. split; assumption. Qed.

(** The page counts read from [vm_stat] are not negative. *)
Lemma pages_nonneg (lines : list str) (acc : dict) :
  Forall (fun kv => 0 <= snd kv) acc ->
  Forall (fun kv => 0 <= snd kv)
    (fold_left (fun pages line =>
                  match re_match re_vm_stat_line line with
                  | Some g => dict_set (strip (group g 1))
                                       (int_of_str (group g 2)) pages
                  | None => pages
                  end) lines acc).
Proof.
  revert acc. induction lines as [|line lines IH]; intros acc Hacc; simpl.
  - exact Hacc.
  - apply IH. destruct (re_match re_vm_stat_line line) as [g|] eqn:E;
      [|exact Hacc].
    apply re_match_sound in E. destruct E as (w & s' & _ & Hc).
    constructor; [|exact Hacc]. cbn [snd].
    apply int_of_str_nonneg. eapply vm_stat_line_digits. exact Hc.
Qed.

(** A number read with [int] after [isdigit], or its default. *)
Lemma int_or_default (s : str) (d n : Z) :
  0 <= d ->
  (if isdigit s then int_of_isdigit s else Ok d) = Ok n -> 0 <= n.
Proof.
  intros Hd. destruct (isdigit s); [|intros [= <-]; exact Hd].
  unfold int_of_isdigit. destruct (forallb is_digit s) eqn:E; [|discriminate].
  intros [= <-]. now apply int_of_digits_nonneg.
Qed.

Lemma int_or_default_raise (s : str) (d : Z) (e : exn) :
  (if isdigit s then int_of_isdigit s else Ok d) = Raise e -> e = ValueError.
Proof.
  destruct (isdigit s); [|discriminate].
  unfold int_of_isdigit. destruct (forallb is_digit s); [discriminate|].
  intros [= <-]. reflexivity.
Qed.

Lemma GiB_share (a b : Z) :
  0 <= a <= b -> (0 <= Qz a / Qz GiB <= Qz b / Qz GiB)%Q.
Proof.
  intros [Ha Hb]. unfold Qdiv.
  assert (Hg : (0 <= / Qz GiB)%Q) by discriminate.
  split.
  - apply Qmult_le_0_compat; [now apply Qz_nonneg | exact Hg].
  - apply Qmult_le_compat_r; [|exact Hg]. unfold Qz. now rewrite <- Zle_Qle.
Qed.

Lemma truediv_ok_nonneg (a b : Z) (q : Q) :
  0 <= a -> 0 <= b -> truediv (Qz a) (Qz b) = Ok q -> (0 <= q)%Q /\ b <> 0.
Proof.
  intros Ha Hb. unfold truediv.
  destruct (Qeq_bool (Qz b) 0) eqn:E; [discriminate|].
  intros [= <-].
  assert (Hne : b <> 0) by (intros ->; discriminate).
  split; [|exact Hne].
  apply Qle_shift_div_l; [apply Qz_pos; lia|].
  rewrite Qmult_0_l. now apply Qz_nonneg.
Qed.

Lemma memory_raises (m : os) (t t' : Q) (e : exn) :
  get_memory_info m t = (Raise e, t') ->
  e = KeyboardInterrupt \/ e = ValueError \/ e = ZeroDivisionError.
Proof.
  intros H. unfold get_memory_info in H. cbv zeta in H.
  apply bind_io_raise in H. destruct H as [H | (o1 & t1 & _ & H)].
  { apply run_cmd_raise in H. left. apply H. }
  apply bind_io_raise in H. destruct H as [H | (total_bytes & t2 & _ & H)].
  { apply lift_eq in H. destruct H as [H _].
    apply int_or_default_raise in H. auto. }
  apply bind_io_raise in H. destruct H as [H | (o2 & t3 & _ & H)].
  { apply run_cmd_raise in H. left. apply H. }
  apply bind_io_raise in H. destruct H as [H | (o3 & t4 & _ & H)].
  { apply run_cmd_raise in H. left. apply H. }
  apply bind_io_raise in H. destruct H as [H | (page_size & t5 & _ & H)].
  { apply lift_eq in H. destruct H as [H _].
    apply int_or_default_raise in H. auto. }
  apply bind_io_raise in H. destruct H as [H | (used & t6 & _ & H)].
  { apply lift_eq in H. destruct H as [H _]. unfold truediv in H.
    destruct (Qeq_bool _ _); [|discriminate].
    injection H as <-. auto. }
  discriminate.
Qed.

(** The output of a command is what it printed, or nothing. *)
Lemma run_cmd_output (m : os) (cmd : str) (t t' : Q) (o : str) :
  run_cmd m cmd t = (Ok o, t') -> sh m cmd = Completed o \/ o = [].
Proof.
  unfold run_cmd. destruct (sh m cmd); intros [= <- _]; auto.
Qed.

(** [get_memory_info] divides by the memory size without a test: it raises
    [ZeroDivisionError] only when [sysctl] prints digits that stand for 0,
    never on the fallback of 16 GB. *)
Lemma memory_zero_division (m : os) (t t' : Q) :
  get_memory_info m t = (Raise ZeroDivisionError, t') ->
  exists output,
    sh m (txt "sysctl -n hw.memsize") = Completed output
    /\ isdigit (strip output) = true
    /\ int_of_digits (strip output) = 0.
Proof.
  intros H. unfold get_memory_info in H. cbv zeta in H.
  apply bind_io_raise in H. destruct H as [H | (o1 & t1 & H1 & H)].
  { apply run_cmd_raise in H. destruct H as [H _]. discriminate. }
  apply bind_io_raise in H. destruct H as [H | (total_bytes & t2 & Ht & H)].
  { apply lift_eq in H. destruct H as [H _].
    apply int_or_default_raise in H. discriminate. }
  apply bind_io_raise in H. destruct H as [H | (o2 & t3 & _ & H)].
  { apply run_cmd_raise in H. destruct H as [H _]. discriminate. }
  apply bind_io_raise in H. destruct H as [H | (o3 & t4 & _ & H)].
  { apply run_cmd_raise in H. destruct H as [H _]. discriminate. }
  apply bind_io_raise in H. destruct H as [H | (page_size & t5 & _ & H)].
  { apply lift_eq in H. destruct H as [H _].
    apply int_or_default_raise in H. discriminate. }
  apply bind_io_raise in H. destruct H as [H | (used & t6 & _ & H)];
    [|discriminate].
  apply lift_eq in H. destruct H as [H _]. unfold truediv in H.
  destruct (Qeq_bool (Qz total_bytes) 0) eqn:E; [|discriminate].
  assert (H0 : total_bytes = 0).
  { destruct (Z.eq_dec total_bytes 0) as [E0 | E0]; [exact E0|].
    apply Qz_nonzero in E0. congruence. }
  subst total_bytes.
  apply lift_eq in Ht. destruct Ht as [Ht _].
  destruct (isdigit (strip o1)) eqn:Ed; [|discriminate].
  unfold int_of_isdigit in Ht.
  destruct (forallb is_digit (strip o1)); [|discriminate].
  injection Ht as Ht.
  apply run_cmd_output in H1. destruct H1 as [H1 | ->].
  - exists o1. split; [exact H1 | split; [exact Ed | exact Ht]].
  - discriminate.
Qed.

(** [get_memory_info] raises [ZeroDivisionError] only for a memory size
    printed as 0.  When it returns, every size and the percentage are not
    negative, the wired memory is part of the app memory and the purgeable
    memory part of the cached memory. *)
Theorem memory_sample_shape (m : os) (t : Q) :
  (fst (get_memory_info m t) = Raise ZeroDivisionError ->
   exists output,
     sh m (txt "sysctl -n hw.memsize") = Completed output
     /\ isdigit (strip output) = true
     /\ int_of_digits (strip output) = 0)
  /\ (forall mem, fst (get_memory_info m t) = Ok mem ->
      (0 <= Memory.total_gb mem)%Q
      /\ (0 <= Memory.wired_gb mem <= Memory.app_gb mem)%Q
      /\ (0 <= Memory.compressed_gb mem)%Q
      /\ (0 <= Memory.purgeable_gb mem <= Memory.cached_gb mem)%Q
      /\ (0 <= Memory.free_gb mem)%Q
      /\ (0 <= Memory.used_pct mem)%Q).
Proof.
  destruct (get_memory_info m t) as [r t'] eqn:H. cbn [fst].
  unfold get_memory_info in H. cbv zeta in H.
  split.
  - intros ->. eapply memory_zero_division. exact H.
  - intros mem ->.
    apply bind_io_ok in H. destruct H as (o1 & t1 & _ & H).
    apply bind_io_ok in H. destruct H as (total_bytes & t2 & Ht & H).
    apply lift_eq in Ht. destruct Ht as [Ht _].
    apply int_or_default in Ht; [|unfold GiB; lia].
    apply bind_io_ok in H. destruct H as (o2 & t3 & _ & H).
    apply bind_io_ok in H. destruct H as (o3 & t4 & _ & H).
    apply bind_io_ok in H. destruct H as (page_size & t5 & Hp & H).
    apply lift_eq in Hp. destruct Hp as [Hp _].
    apply int_or_default in Hp; [|lia].
    apply bind_io_ok in H. destruct H as (used & t6 & Hu & H).
    apply lift_eq in Hu. destruct Hu as [Hu _].
    injection H as <- _.
    cbn [Memory.total_gb Memory.app_gb Memory.wired_gb Memory.compressed_gb
         Memory.cached_gb Memory.free_gb Memory.purgeable_gb Memory.used_pct].
    match type of Hu with
    | context [dict_get ?d (txt "Pages active") 0] => set (pages := d) in *
    end.
    assert (Hpages : Forall (fun kv => 0 <= snd kv) pages)
      by (apply pages_nonneg; constructor).
    assert (Hget : forall k, 0 <= dict_get pages (txt k) 0 * page_size).
    { intros k. apply Z.mul_nonneg_nonneg; [|exact Hp].
      apply dict_get_nonneg; [exact Hpages | lia]. }
    pose proof (Hget "Pages free"%string) as Hfree.
    pose proof (Hget "Pages active"%string) as Hactive.
    pose proof (Hget "Pages inactive"%string) as Hinactive.
    pose proof (Hget "Pages speculative"%string) as Hspec.
    pose proof (Hget "Pages wired down"%string) as Hwired.
    pose proof (Hget "Pages occupied by compressor"%string) as Hcomp.
    pose proof (Hget "Pages purgeable"%string) as Hpurge.
    apply truediv_ok_nonneg in Hu; [|lia|exact Ht].
    destruct Hu as [Hu _].
    assert (Hshare : forall a, 0 <= a -> (0 <= Qz a / Qz GiB)%Q).
    { intros a Ha. apply (GiB_share a a). lia. }
    split; [apply Hshare; exact Ht|].
    split; [apply GiB_share; lia|].
    split; [apply Hshare; exact Hcomp|].
    split; [apply GiB_share; lia|].
    split; [apply Hshare; exact Hfree|].
    lra.
Qed.

(** ** What drawing can raise *)

Lemma battery_health_ok (b : battery_info) : exists h, battery_health b = Ok h.
Proof.
  unfold battery_health. destruct (0 <? design_capacity_mah b) eqn:E.
  - apply Z.ltb_lt in E. rewrite truediv_nonzero by lia. eexists. reflexivity.
  - eexists. reflexivity.
Qed.

Lemma balance_pct_ok (b : battery_info) : exists u, balance_pct b = Ok u.
Proof.
  unfold balance_pct. destruct (0 <? adapter_watts b) eqn:E.
  - apply Z.ltb_lt in E. rewrite truediv_nonzero by lia. eexists. reflexivity.
  - eexists. reflexivity.
Qed.

Lemma battery_section_ok (b : battery_info) (pm : pmset_info) (row : Z) :
  List.length (cell_voltages b) = 3%nat ->
  exists f, battery_section b (Some pm) row = Ok (f, row + 1 + 1 + 1 + 1 + 1 + 2).
Proof.
  intros Hc. unfold battery_section.
  destruct (battery_health_ok b) as (h & ->).
  destruct (cell_voltages b) as [|c0 [|c1 [|c2 [|c3 cs]]]]; try discriminate.
  eexists. reflexivity.
Qed.

Lemma charge_section_raise (b : battery_info) (row : Z) (e : exn) :
  charge_section b row = Raise e -> e = OverflowError.
Proof.
  unfold charge_section. destruct (is_charging b).
  - pose proof (time_to_full_raise b) as H.
    destruct (time_to_full b) as [l | e1]; cbn [bind result_monad];
      [discriminate|].
    intros [= <-]. now apply H.
  - destruct (external_connected b); cbn [negb]; [discriminate|].
    pose proof (time_to_empty_raise b) as H.
    destruct (time_to_empty b) as [l | e1]; cbn [bind result_monad];
      [discriminate|].
    intros [= <-]. now apply H.
Qed.

Lemma balance_section_ok (b : battery_info) (row : Z) :
  exists f r, balance_section b row = Ok (f, r).
Proof.
  unfold balance_section. destruct (external_connected b).
  - destruct (balance_pct_ok b) as (u & ->). eexists. eexists. reflexivity.
  - eexists. eexists. reflexivity.
Qed.

(** With six samples in hand, of which the battery sample has its three
    cell voltages, [draw] finds every sample and every cell and divides by
    no zero: it returns a frame, unless a time line overflows. *)
Lemma draw_raise (i : tick_input) (v : locals) (s : batch) (e : exn) :
  holds v s -> List.length (cell_voltages (b_battery s)) = 3%nat ->
  draw i v = Raise e -> e = OverflowError.
Proof.
  intros (Hb & Hp & Ht & _ & Hm & Hd) Hc. unfold draw.
  rewrite Hb, Hp, Ht, Hm, Hd. cbn [subscript bind result_monad].
  destruct (header_section (width i) (now i) 0) as [f1 r1].
  destruct (power_source_section (b_battery s) r1) as [f2 r2].
  unfold system_section, memory_section, disk_section.
  cbn [subscript bind result_monad].
  match goal with
  | |- context [battery_section ?b ?p ?r] =>
      destruct (battery_section_ok b (b_pmset s) r Hc) as (f6 & ->)
  end.
  cbn [bind result_monad].
  match goal with
  | |- context [charge_section ?b ?r] =>
      pose proof (charge_section_raise b r) as H7;
      destruct (charge_section b r) as [[f7 r7] | e7]
  end; cbn [bind result_monad].
  - destruct (balance_section_ok (b_battery s) r7) as (f8 & r8 & ->).
    discriminate.
  - intros [= <-]. now apply H7.
Qed.

Lemma battery_cells_three (m : os) (t t' : Q) (b : battery_info) :
  parse_ioreg_battery m t = (Ok b, t') ->
  List.length (cell_voltages b) = 3%nat.
Proof.
  unfold parse_ioreg_battery. intros H.
  apply bind_run_cmd_ok in H. destruct H as (output & [= <- _]).
  cbn [cell_voltages]. destruct (re_search re_cell_voltage output); reflexivity.
Qed.

Lemma batch_draws (i j : tick_input) (v : locals) (e : exn) :
  batch_of j v -> draw i v = Raise e -> e = OverflowError.
Proof.
  intros (s & ts & Hc & Hh). apply (draw_raise i v s e Hh).
  destruct Hc as (t1 & _ & _ & _ & _ & _ & _ & E1 & _).
  exact (battery_cells_three _ _ _ _ E1).
Qed.

(** ** What can end the loop *)

Lemma ret_run_cmd_raise {A} (m : os) (cmd : str) (f : str -> A) (t t' : Q)
  (e : exn) :
  bind (run_cmd m cmd) (fun output => ret (f output)) t = (Raise e, t') ->
  e = KeyboardInterrupt.
Proof.
  intros H. apply bind_io_raise in H. destruct H as [H | (o & t1 & _ & H)].
  - now apply run_cmd_raise in H.
  - discriminate.
Qed.

Lemma provider_raises (i : tick_input) (t t' : Q) (e : exn) :
  (parse_ioreg_battery (machine i) t = (Raise e, t') -> may_raise Pioreg e)
  /\ (parse_pmset (machine i) t = (Raise e, t') -> may_raise Ppmset e)
  /\ (parse_thermal (machine i) t = (Raise e, t') -> may_raise Pthermal e)
  /\ (get_cpu_usage (machine i) t = (Raise e, t') -> may_raise Pcpu e)
  /\ (get_memory_info (machine i) t = (Raise e, t') -> may_raise Pmemory e)
  /\ (get_disk_info (machine i) t = (Raise e, t') -> may_raise Pdisk e).
Proof.
  unfold may_raise.
  split; [| split; [| split; [| split; [| split]]]]; intros H.
  - left. unfold parse_ioreg_battery in H.
    now apply ret_run_cmd_raise in H.
  - left. unfold parse_pmset in H. now apply ret_run_cmd_raise in H.
  - left. unfold parse_thermal in H. now apply ret_run_cmd_raise in H.
  - left. exact (cpu_usage_raises _ _ _ _ H).
  - destruct (memory_raises _ _ _ _ H) as [E | E]; auto.
  - destruct (disk_raises _ _ _ _ H) as [E | E]; auto.
Qed.

(** A refresh that raises has just called the provider that raised. *)
Lemma refresh_raise (i : tick_input) (v : locals) (t : Q) (log : trace)
  (e : exn) :
  refresh i v t = (log, Raise e) ->
  exists log' p t0, log = log' ++ [Called p t0] /\ may_raise p e.
Proof.
  unfold refresh, call.
  destruct (parse_ioreg_battery (machine i) t) as [[x1|e1] t1] eqn:E1.
  2:{ intros [= <- <-]. exists [], Pioreg, t. split; [reflexivity|].
      eapply (provider_raises i). exact E1. }
  destruct (parse_pmset (machine i) t1) as [[x2|e2] t2] eqn:E2.
  2:{ intros [= <- <-]. exists [Called Pioreg t], Ppmset, t1.
      split; [reflexivity|]. eapply (provider_raises i). exact E2. }
  destruct (parse_thermal (machine i) t2) as [[x3|e3] t3] eqn:E3.
  2:{ intros [= <- <-].
      exists [Called Pioreg t; Called Ppmset t1], Pthermal, t2.
      split; [reflexivity|]. eapply (provider_raises i). exact E3. }
  destruct (get_cpu_usage (machine i) t3) as [[x4|e4] t4] eqn:E4.
  2:{ intros [= <- <-].
      exists [Called Pioreg t; Called Ppmset t1; Called Pthermal t2], Pcpu, t3.
      split; [reflexivity|]. eapply (provider_raises i). exact E4. }
  destruct (get_memory_info (machine i) t4) as [[x5|e5] t5] eqn:E5.
  2:{ intros [= <- <-].
      exists [Called Pioreg t; Called Ppmset t1; Called Pthermal t2;
              Called Pcpu t3], Pmemory, t4.
      split; [reflexivity|]. eapply (provider_raises i). exact E5. }
  destruct (get_disk_info (machine i) t5) as [[x6|e6] t6] eqn:E6.
  2:{ intros [= <- <-].
      exists [Called Pioreg t; Called Ppmset t1; Called Pthermal t2;
              Called Pcpu t3; Called Pmemory t4], Pdisk, t5.
      split; [reflexivity|]. eapply (provider_raises i). exact E6. }
  discriminate.
Qed.

(** An iteration that raises has just called the provider that raised,
    unless a time line of the frame overflowed. *)
Lemma tick_raise (P : tick_input -> Prop) (i : tick_input) (v : locals)
  (e : exn) :
  P i -> settled P v -> snd (tick i v) = Raised e ->
  (exists log' p t0, fst (tick i v) = log' ++ [Called p t0] /\ may_raise p e)
  \/ e = OverflowError.
Proof.
  intros Pi Hv. unfold tick.
  destruct (is_quit (key i)); [discriminate|].
  set (v0 := if is_refresh (key i) then set_last_update 0 v else v).
  assert (H0 : settled P v0).
  { subst v0. destruct (is_refresh (key i)); [|exact Hv].
    destruct Hv as [Hu | (j & Pj & s & ts & Hc & Hh)].
    - left. exact Hu.
    - right. exists j. split; [exact Pj|]. exists s, ts. split; assumption. }
  clearbody v0.
  destruct (due i v0).
  - destruct (refresh i v0 (current_time i)) as [log [v1|e1]] eqn:R.
    + destruct (refresh_ok _ _ _ _ R) as (s & ts & Hc & Hh & _ & _).
      assert (Hb : batch_of i v1) by (exists s, ts; split; assumption).
      pose proof (batch_draws i i v1 e Hb) as Hd.
      destruct Hh as (-> & _).
      destruct (draw i v1) as [f | e1]; [discriminate|].
      cbn [fst snd]. intros [= <-]. right. now apply Hd.
    + cbn [fst snd]. intros [= <-]. left. eapply refresh_raise. exact R.
  - destruct (battery v0) eqn:Eb; [|discriminate].
    destruct H0 as [(Hn & _) | (j & _ & Hb)]; [congruence|].
    pose proof (batch_draws i j v0 e Hb) as Hd.
    destruct (draw i v0) as [f | e1]; [discriminate|].
    cbn [fst snd]. intros [= <-]. right. now apply Hd.
Qed.

Lemma run_raise (P : tick_input -> Prop) (ins : list tick_input) :
  (forall i, In i ins -> P i) ->
  forall v e, settled P v -> snd (run ins v) = Raised e ->
  (exists log' p t0, fst (run ins v) = log' ++ [Called p t0] /\ may_raise p e)
  \/ e = OverflowError.
Proof.
  induction ins as [|i ins IH]; intros HP v e Hv; [discriminate|].
  assert (Pi : P i) by (apply HP; left; reflexivity).
  pose proof (tick_raise P i v e Pi Hv) as Hraise.
  destruct (tick_settled P i v Pi Hv) as [Hnext _].
  cbn [run]. destruct (tick i v) as [log o]. cbn [fst snd] in *.
  destruct o as [v1 | | e1]; cbn [fst snd].
  - specialize (IH (fun j Hj => HP j (or_intror Hj)) v1 e (Hnext v1 eq_refl)).
    destruct (run ins v1) as [log1 o1]. cbn [fst snd] in *.
    intros Ho. destruct (IH Ho) as [(log' & p & t0 & -> & Hm) | ->];
      [left | right; reflexivity].
    exists (log ++ log'), p, t0. split; [now rewrite app_assoc | exact Hm].
  - discriminate.
  - exact Hraise.
Qed.

(** Whatever the commands print, the loop never ends in [TypeError] or
    [IndexError]: a frame is drawn only with the six samples in hand, and
    the battery sample has its three cell voltages.  It ends in
    [ZeroDivisionError] only out of [get_memory_info], whose call is then
    the last event: every division of the rendering code is guarded. *)
Theorem rendering_is_guarded (ins : list tick_input) (e : exn) :
  snd (draw_dashboard ins) = Raised e ->
  e <> TypeError /\ e <> IndexError
  /\ (e = ZeroDivisionError ->
      exists log t0, fst (draw_dashboard ins) = log ++ [Called Pmemory t0]).
Proof.
  intros H.
  destruct (run_raise (fun i => In i ins) ins (fun i Hi => Hi) initial e)
    as [(log & p & t0 & Hl & Hm) | ->]; [left; repeat split | exact H | |].
  - destruct Hm as [-> | [(-> & [-> | ->]) | (-> & ->)]];
      (split; [discriminate|]); (split; [discriminate|]);
      try discriminate.
    intros _. exists log, t0. exact Hl.
  - split; [discriminate|]. split; discriminate.
Qed.

Lemma rendering_is_guarded_witness :
  snd (draw_dashboard [at_time 1000 no_key no_memory])
  = Raised ZeroDivisionError
  /\ exists log t0,
       fst (draw_dashboard [at_time 1000 no_key no_memory])
       = log ++ [Called Pmemory t0].
Proof.
  split; [reflexivity|].
  apply (rendering_is_guarded [at_time 1000 no_key no_memory]
           ZeroDivisionError); reflexivity.
Defined.

(** ** More on the progress bar *)

Lemma clamp_low (p : Q) : (p <= 0)%Q -> py_max 0 (py_min 100 p) = 0%Q.
Proof.
  intros Hp. unfold py_max, py_min.
  destruct (Qltb p 100) eqn:E1.
  - destruct (Qgtb p 0) eqn:E2; [|reflexivity].
    apply Qgtb_gt in E2. exfalso. lra.
  - apply Qltb_ge in E1. exfalso. lra.
Qed.

Lemma clamp_high (p : Q) : (100 <= p)%Q -> py_max 0 (py_min 100 p) = 100%Q.
Proof.
  intros Hp. unfold py_max, py_min.
  destruct (Qltb p 100) eqn:E1.
  - apply Qltb_lt in E1. exfalso. lra.
  - reflexivity.
Qed.

Lemma clamp_mono (p q : Q) :
  (p <= q)%Q -> (py_max 0 (py_min 100 p) <= py_max 0 (py_min 100 q))%Q.
Proof.
  intros Hpq. unfold py_max, py_min.
  destruct (Qltb p 100) eqn:P1; destruct (Qltb q 100) eqn:Q1;
    try apply Qltb_lt in P1; try apply Qltb_ge in P1;
    try apply Qltb_lt in Q1; try apply Qltb_ge in Q1;
    repeat match goal with
           | |- context [Qgtb ?a ?b] =>
               let E := fresh "E" in
               destruct (Qgtb a b) eqn:E;
               [apply Qgtb_gt in E | apply Qgtb_le in E]
           end; lra.
Qed.

Lemma py_int_eq (x : Q) (z : Z) : (x == Qz z)%Q -> py_int x = z.
Proof.
  intros H. destruct x as [n d]. unfold py_int, Qz, Qeq in *. simpl in *.
  rewrite Z.mul_1_r in H. subst n.
  apply Z.quot_mul. discriminate.
Qed.

(** [int] of a number that is not positive lies between it and 0. *)
Lemma py_int_nonpos (x : Q) (w : Z) :
  (Qz w <= x)%Q -> (x <= 0)%Q -> w <= py_int x <= 0.
Proof.
  destruct x as [n d]. unfold py_int, Qz, Qle. simpl.
  rewrite !Z.mul_1_r. intros Hw Hn.
  assert (Hq : Z.quot n (Zpos d) = - Z.quot (- n) (Zpos d)).
  { rewrite Z.quot_opp_l by discriminate. lia. }
  rewrite Hq.
  assert (H0 : 0 <= Z.quot (- n) (Zpos d)) by (apply Z.quot_pos; lia).
  split; [|lia].
  assert (Hle : Z.quot (- n) (Zpos d) <= - w); [|lia].
  rewrite Z.quot_div_nonneg by lia.
  apply Z.div_le_upper_bound; lia.
Qed.

(** The edges of [make_bar]: a width that is not positive gives the empty
    string; a percentage of 0 or less gives [w] empty glyphs, one of 100 or
    more [w] filled glyphs; and a larger percentage never fills fewer
    glyphs. *)
Theorem make_bar_edges (p q : Q) (w : Z) (fill empty : str) :
  (w <= 0 -> make_bar p w fill empty = [])
  /\ (0 <= w -> (p <= 0)%Q -> make_bar p w fill empty = str_repeat empty w)
  /\ (0 <= w -> (100 <= p)%Q -> make_bar p w fill empty = str_repeat fill w)
  /\ (0 <= w -> (p <= q)%Q ->
      exists n k,
        0 <= n <= k /\ k <= w
        /\ make_bar p w fill empty
           = str_repeat fill n ++ str_repeat empty (w - n)
        /\ make_bar q w fill empty
           = str_repeat fill k ++ str_repeat empty (w - k)).
Proof.
  unfold make_bar.
  split; [| split; [| split]].
  - intros Hw. pose proof (clamp_bounds p) as [Hlo Hhi].
    set (c := py_max 0 (py_min 100 p)) in *.
    assert (HwQ : (Qz w <= 0)%Q) by (unfold Qz, Qle; simpl; lia).
    assert (H1 : (Qz w * c / 100 <= 0)%Q).
    { apply Qle_shift_div_r; [reflexivity|]. nra. }
    assert (H2 : (Qz w <= Qz w * c / 100)%Q).
    { apply Qle_shift_div_l; [reflexivity|]. nra. }
    pose proof (py_int_nonpos _ w H2 H1) as [Ha Hb].
    unfold str_repeat.
    replace (Z.to_nat (py_int (Qz w * c / 100))) with 0%nat by lia.
    replace (Z.to_nat (w - py_int (Qz w * c / 100))) with 0%nat by lia.
    reflexivity.
  - intros Hw Hp. rewrite (clamp_low p Hp).
    rewrite (py_int_eq _ 0) by (unfold Qz, Qdiv; ring).
    rewrite Z.sub_0_r. reflexivity.
  - intros Hw Hp. rewrite (clamp_high p Hp).
    rewrite (py_int_eq _ w) by (unfold Qz; field).
    rewrite Z.sub_diag. unfold str_repeat at 2. apply app_nil_r.
  - intros Hw Hpq.
    pose proof (filled_bounds p w Hw) as Hp.
    pose proof (filled_bounds q w Hw) as Hq.
    pose proof (clamp_mono p q Hpq) as Hc.
    pose proof (clamp_bounds p) as [Hlo _].
    set (cp := py_max 0 (py_min 100 p)) in *.
    set (cq := py_max 0 (py_min 100 q)) in *.
    exists (py_int (Qz w * cp / 100)), (py_int (Qz w * cq / 100)).
    split; [|split; [lia | split; reflexivity]].
    split; [lia|].
    assert (HwQ : (0 <= Qz w)%Q) by (now apply Qz_nonneg).
    assert (H0 : (0 <= Qz w * cp / 100)%Q).
    { apply Qle_shift_div_l; [reflexivity|]. rewrite Qmult_0_l.
      apply Qmult_le_0_compat; assumption. }
    assert (H1 : (Qz w * cp / 100 <= Qz w * cq / 100)%Q).
    { apply Qmult_le_compat_r; [|discriminate].
      rewrite (Qmult_comm (Qz w) cp), (Qmult_comm (Qz w) cq).
      apply Qmult_le_compat_r; assumption. }
    rewrite !py_int_floor by lra.
    now apply Qfloor_resp_le.
Qed.

(** ** The rows of a frame *)

Lemma within_app (lo hi : Z) (f g : frame) :
  within lo hi f -> within lo hi g -> within lo hi (f ++ g).
Proof. intros Hf Hg. apply Forall_app. split; assumption. Qed.

Lemma within_wider (lo hi lo' hi' : Z) (f : frame) :
  lo' <= lo -> hi <= hi' -> within lo hi f -> within lo' hi' f.
Proof.
  intros Hlo Hhi H. eapply Forall_impl; [|exact H].
  cbn beta. intros c Hc. lia.
Qed.

Ltac rows := unfold within; repeat constructor; cbn [at_row addstr]; lia.

Lemma header_rows (w : Z) (n : str) (r : Z) :
  snd (header_section w n r) = r + 4
  /\ within r (r + 4) (fst (header_section w n r)).
Proof. split; [reflexivity | rows]. Qed.

Lemma power_source_rows (b : battery_info) (r : Z) :
  r + 3 <= snd (power_source_section b r) <= r + 4
  /\ within r (snd (power_source_section b r))
       (fst (power_source_section b r)).
Proof.
  unfold power_source_section.
  destruct (external_connected b); cbn [fst snd]; (split; [lia | rows]).
Qed.

Lemma system_rows (b : battery_info) (c : Q) (th : option thermal_info)
  (r r' : Z) (f : frame) :
  system_section b c th r = Ok (f, r') -> r' = r + 5 /\ within r r' f.
Proof.
  unfold system_section. destruct th as [t|]; [|discriminate].
  cbn [subscript bind result_monad]. intros [= <- <-].
  split; [lia | rows].
Qed.

Lemma memory_rows (m : option Memory.info) (r r' : Z) (f : frame) :
  memory_section m r = Ok (f, r') -> r' = r + 4 /\ within r r' f.
Proof.
  unfold memory_section. destruct m as [m|]; [|discriminate].
  cbn [subscript bind result_monad]. intros [= <- <-].
  split; [lia | rows].
Qed.

Lemma disk_rows (d : option Disk.info) (r r' : Z) (f : frame) :
  disk_section d r = Ok (f, r') -> r' = r + 4 /\ within r r' f.
Proof.
  unfold disk_section. destruct d as [d|]; [|discriminate].
  cbn [subscript bind result_monad]. intros [= <- <-].
  split; [lia | rows].
Qed.

Lemma battery_rows (b : battery_info) (p : option pmset_info) (r r' : Z)
  (f : frame) :
  battery_section b p r = Ok (f, r') -> r' = r + 7 /\ within r r' f.
Proof.
  unfold battery_section. destruct p as [p|]; [|discriminate].
  cbn [subscript bind result_monad].
  destruct (battery_health b) as [h|e]; [|discriminate].
  cbn [bind result_monad].
  destruct (item (cell_voltages b) 0) as [c0|e]; [|discriminate].
  destruct (item (cell_voltages b) 1) as [c1|e]; [|discriminate].
  destruct (item (cell_voltages b) 2) as [c2|e]; [|discriminate].
  cbn [bind result_monad]. intros [= <- <-].
  split; [lia | rows].
Qed.

(** The charging or discharging block takes four rows, or two when
    neither is drawn, which is only with an adapter connected. *)
Lemma charge_rows (b : battery_info) (r r' : Z) (f : frame) :
  charge_section b r = Ok (f, r') ->
  within r r' f
  /\ (r' = r + 4 \/ (r' = r + 2 /\ external_connected b = true)).
Proof.
  unfold charge_section. destruct (is_charging b).
  - destruct (time_to_full b) as [[l|]|e]; [| |discriminate];
      cbn [bind result_monad]; intros [= <- <-];
      (split; [rows | left; lia]).
  - destruct (external_connected b); cbn [negb].
    + intros [= <- <-]. split; [rows | right; split; [lia | reflexivity]].
    + destruct (time_to_empty b) as [[l|]|e]; [| |discriminate];
        cbn [bind result_monad]; intros [= <- <-];
        (split; [rows | left; lia]).
Qed.

Lemma balance_rows (b : battery_info) (r r' : Z) (f : frame) :
  balance_section b r = Ok (f, r') ->
  (external_connected b = true /\ r' = r + 5 /\ within r (r + 4) f)
  \/ (external_connected b = false /\ r' = r /\ f = []).
Proof.
  unfold balance_section. destruct (external_connected b).
  - destruct (balance_pct b) as [u|e]; [|discriminate].
    cbn [bind result_monad]. intros [= <- <-]. left.
    split; [reflexivity|]. split; [lia|].
    destruct (Qgeb (balance_headroom b) 0); rows.
  - intros [= <- <-]. right. repeat split.
Qed.

Lemma footer_rows (w : Z) (a b : Q) (r : Z) (d : cell) :
  within r (r + 2) (footer_section w a b r)
  /\ last (footer_section w a b r) d
     = addstr (r + 1) 0
         (txt " [Q] Quit  [R] Refresh  Next update: "
          ++ str_of_Z (py_int (update_interval - (a - b))) ++ txt "s ")
         (plain WHITE).
Proof. split; [rows | reflexivity]. Qed.

(** A frame is its body, above the footer, and the two lines of the
    footer. *)
Lemma draw_rows (i : tick_input) (v : locals) (f : frame) :
  draw i v = Ok f ->
  exists body r,
    f = body ++ footer_section (width i) (current_time i) (last_update v) r
    /\ 31 <= r <= 37 /\ within 0 r body.
Proof.
  unfold draw. destruct (battery v) as [b|]; [|discriminate].
  cbn [subscript bind result_monad].
  pose proof (header_rows (width i) (now i) 0) as [H1r H1].
  destruct (header_section (width i) (now i) 0) as [f1 r1].
  cbn [fst snd] in *.
  pose proof (power_source_rows b r1) as [H2r H2].
  assert (H2e : external_connected b = false ->
                snd (power_source_section b r1) = r1 + 3).
  { unfold power_source_section. intros ->. cbn [snd]. lia. }
  assert (H2t : external_connected b = true ->
                snd (power_source_section b r1) = r1 + 4).
  { unfold power_source_section. intros ->. cbn [snd]. lia. }
  destruct (power_source_section b r1) as [f2 r2]. cbn [fst snd] in *.
  destruct (system_section b (cpu v) (thermal v) r2) as [[f3 r3]|e] eqn:E3;
    [|discriminate].
  apply system_rows in E3. destruct E3 as [H3r H3].
  cbn [bind result_monad].
  destruct (memory_section (memory v) r3) as [[f4 r4]|e] eqn:E4;
    [|discriminate].
  apply memory_rows in E4. destruct E4 as [H4r H4].
  cbn [bind result_monad].
  destruct (disk_section (disk v) r4) as [[f5 r5]|e] eqn:E5; [|discriminate].
  apply disk_rows in E5. destruct E5 as [H5r H5].
  cbn [bind result_monad].
  destruct (battery_section b (pmset v) r5) as [[f6 r6]|e] eqn:E6;
    [|discriminate].
  apply battery_rows in E6. destruct E6 as [H6r H6].
  cbn [bind result_monad].
  destruct (charge_section b r6) as [[f7 r7]|e] eqn:E7; [|discriminate].
  apply charge_rows in E7. destruct E7 as [H7 H7r].
  cbn [bind result_monad].
  destruct (balance_section b r7) as [[f8 r8]|e] eqn:E8; [|discriminate].
  apply balance_rows in E8.
  cbn [bind result_monad]. intros [= <-].
  exists (f1 ++ f2 ++ f3 ++ f4 ++ f5 ++ f6 ++ f7 ++ f8), r8.
  split; [now rewrite <- !app_assoc|].
  assert (Hr8 : 31 <= r8 <= 37 /\ r7 <= r8 /\ within 0 r8 f8).
  { destruct E8 as [(Ex & -> & H8) | (Ex & -> & ->)].
    - specialize (H2t Ex). split; [lia|]. split; [lia|].
      eapply within_wider; [| |exact H8]; lia.
    - specialize (H2e Ex). rewrite Ex in H7r.
      destruct H7r as [H7r | [_ [=]]].
      split; [lia|]. split; [lia | constructor]. }
  destruct Hr8 as (Hr8 & Hle & W8).
  split; [exact Hr8|].
  repeat apply within_app;
    (exact W8 || (eapply within_wider; [| |eassumption]; lia)).
Qed.

Lemma last_footer (body : frame) (w : Z) (a b : Q) (r : Z) (d : cell) :
  last (body ++ footer_section w a b r) d
  = legend (r + 1) (py_int (update_interval - (a - b))).
Proof.
  unfold footer_section.
  change (body ++ [?x; ?y]) with (body ++ [x] ++ [y]).
  rewrite app_assoc. apply last_last.
Qed.

(** Every frame fits in 39 rows: each write is at a row from 0 to 38, and
    the last write is the key legend, at a row from 32 to 38. *)
Theorem frame_rows (i : tick_input) (v : locals) (f : frame) :
  draw i v = Ok f ->
  Forall (fun c => 0 <= at_row c <= 38) f
  /\ exists r n, 32 <= r <= 38 /\ forall d, last f d = legend r n.
Proof.
  intros H. apply draw_rows in H.
  destruct H as (body & r & -> & Hr & Hbody).
  split.
  - apply Forall_app. split.
    + eapply Forall_impl; [|exact Hbody]. cbn beta. intros c Hc. lia.
    + pose proof (footer_rows (width i) (current_time i) (last_update v) r
                    (legend 0 0)) as [Hf _].
      eapply Forall_impl; [|exact Hf]. cbn beta. intros c Hc. lia.
  - exists (r + 1), (py_int (update_interval
                              - (current_time i - last_update v))).
    split; [lia|]. intros d. apply last_footer.
Qed.

Lemma frame_rows_witness :
  draw (at_time 1000 no_key silent) cached = Ok first_frame
  /\ Forall (fun c => 0 <= at_row c <= 38) first_frame
  /\ exists r n, 32 <= r <= 38 /\ forall d, last first_frame d = legend r n.
Proof.
  assert (H : draw (at_time 1000 no_key silent) cached = Ok first_frame)
    by reflexivity.
  split; [exact H|].
  exact (frame_rows (at_time 1000 no_key silent) cached first_frame H).
Defined.

(** ** The countdown *)

(** What an iteration draws: the locals it is left with, which were
    refreshed in this iteration or were not due. *)
Lemma tick_drew (i : tick_input) (v seen : locals) (f : frame) :
  In (Drew seen f) (fst (tick i v)) ->
  draw i seen = Ok f
  /\ (last_update seen = current_time i
      \/ (due i seen = false
          /\ (last_update seen = last_update v \/ last_update seen = 0%Q))).
Proof.
  unfold tick. destruct (is_quit (key i)); [intros []|].
  set (v0 := if is_refresh (key i) then set_last_update 0 v else v).
  assert (H0 : last_update v0 = last_update v \/ last_update v0 = 0%Q).
  { subst v0. destruct (is_refresh (key i)); [right | left]; reflexivity. }
  clearbody v0.
  destruct (due i v0) eqn:Ed.
  - assert (Hnd : forall seen f,
               ~ In (Drew seen f) (fst (refresh i v0 (current_time i)))).
    { intros s0 f0. apply refresh_no_draw. }
    destruct (refresh i v0 (current_time i)) as [log [v1|e]] eqn:R;
      cbn [fst] in Hnd.
    + destruct (refresh_ok _ _ _ _ R) as (s & ts & _ & _ & Hl & _).
      destruct (battery v1); [|intros Hin; exfalso; exact (Hnd _ _ Hin)].
      destruct (draw i v1) as [f1|e] eqn:D; cbn [fst];
        [|intros Hin; exfalso; exact (Hnd _ _ Hin)].
      intros Hin. apply in_app_or in Hin.
      destruct Hin as [Hin | [Heq | [Heq | []]]];
        [exfalso; exact (Hnd _ _ Hin) | | discriminate].
      injection Heq as <- <-. split; [exact D | left; exact Hl].
    + cbn [fst]. intros Hin. exfalso. exact (Hnd _ _ Hin).
  - destruct (battery v0); [|intros []].
    destruct (draw i v0) as [f1|e] eqn:D; cbn [fst]; [|intros []].
    intros [Heq | [Heq | []]]; [|discriminate].
    injection Heq as <- <-. split; [exact D | right; split; assumption].
Qed.

(** While the clock does not run backwards (it reads no less than 0 and
    no less than [last_update]), the legend of every frame counts between
    0 and 10 seconds to the next refresh, and 10 right after a refresh. *)
Theorem countdown_range (i : tick_input) (v seen : locals) (f : frame) :
  In (Drew seen f) (fst (tick i v)) ->
  (0 <= current_time i)%Q -> (last_update v <= current_time i)%Q ->
  exists r n,
    (forall d, last f d = legend r n)
    /\ 0 <= n <= 10
    /\ (last_update seen = current_time i -> n = 10).
Proof.
  intros Hin H0 Hv. apply tick_drew in Hin. destruct Hin as [D Hl].
  apply draw_rows in D. destruct D as (body & r & -> & _ & _).
  exists (r + 1), (py_int (update_interval
                            - (current_time i - last_update seen))).
  split; [intros d; apply last_footer|].
  assert (Hx : (0 <= update_interval - (current_time i - last_update seen)
                <= 10)%Q).
  { unfold update_interval.
    destruct Hl as [-> | [Hd Hl]]; [split; lra|].
    unfold due, Qgeb, update_interval in Hd.
    assert (Hlt : ~ (10 <= current_time i - last_update seen)%Q).
    { intros Hle. apply Qle_bool_iff in Hle. congruence. }
    apply Qnot_le_lt in Hlt.
    destruct Hl as [Hl | Hl]; rewrite Hl in *; split; lra. }
  destruct Hx as [Hx0 Hx10].
  rewrite py_int_floor by exact Hx0.
  split.
  - split.
    + change 0 with (Qfloor 0). now apply Qfloor_resp_le.
    + change 10 with (Qfloor 10). now apply Qfloor_resp_le.
  - intros ->.
    assert (E : (update_interval - (current_time i - current_time i) == 10)%Q)
      by (unfold update_interval; ring).
    rewrite (Qfloor_comp _ _ E). reflexivity.
Qed.

Lemma countdown_range_witness :
  In (Drew cached first_frame) (fst (tick (at_time 1000 no_key silent) initial))
  /\ exists r n,
       (forall d, last first_frame d = legend r n)
       /\ 0 <= n <= 10
       /\ (last_update cached = current_time (at_time 1000 no_key silent) ->
           n = 10).
Proof.
  assert (H : In (Drew cached first_frame)
                (fst (tick (at_time 1000 no_key silent) initial))).
  { vm_compute. do 7 right. left. reflexivity. }
  split; [exact H|].
  apply (countdown_range (at_time 1000 no_key silent) initial cached
           first_frame H); discriminate.
Defined.

(** ** The keys *)

Lemma run_app_next (a b : list tick_input) (v v1 : locals) (log : trace) :
  run a v = (log, Next v1) ->
  run (a ++ b) v = (log ++ fst (run b v1), snd (run b v1)).
Proof.
  revert v log. induction a as [|i a IH]; intros v log; cbn [run app].
  - intros [= <- <-]. destruct (run b v). reflexivity.
  - destruct (tick i v) as [l o]. destruct o as [v2 | | e]; try discriminate.
    destruct (run a v2) as [l' o'] eqn:R. intros [= <- ->].
    rewrite (IH v2 l' R). cbn [fst snd]. now rewrite app_assoc.
Qed.

(** When [q] or [Q] is read the loop is left at once: in that iteration
    and after it no provider is called and nothing is drawn, whatever the
    locals and however late the refresh. *)
Theorem quit_ends_loop (a b : list tick_input) (i : tick_input)
  (v v1 : locals) (log : trace) :
  run a v = (log, Next v1) ->
  key i = ord "q" \/ key i = ord "Q" ->
  run (a ++ i :: b) v = (log, Break).
Proof.
  intros Ha Hk. rewrite (run_app_next a (i :: b) v v1 log Ha).
  assert (Hq : is_quit (key i) = true).
  { unfold is_quit. destruct Hk as [-> | ->]; reflexivity. }
  cbn [run]. unfold tick. rewrite Hq. cbn [fst snd].
  now rewrite app_nil_r.
Qed.

Lemma quit_ends_loop_witness :
  run [at_time 1000 no_key silent] initial
  = (fst (run [at_time 1000 no_key silent] initial), Next cached)
  /\ run ([at_time 1000 no_key silent]
          ++ at_time 1001 (ord "Q") silent :: [at_time 1020 no_key silent])
         initial
     = (fst (run [at_time 1000 no_key silent] initial), Break).
Proof.
  assert (H : run [at_time 1000 no_key silent] initial
              = (fst (run [at_time 1000 no_key silent] initial), Next cached))
    by reflexivity.
  split; [exact H|].
  apply (quit_ends_loop _ _ _ _ _ _ H). right. reflexivity.
Defined.

(** A key other than [q], [Q], [r] and [R] does what no key does, and the
    case of the letter makes no difference. *)
Theorem other_keys_ignored (i : tick_input) (v : locals) (k : Z) :
  (k <> ord "q" -> k <> ord "Q" -> k <> ord "r" -> k <> ord "R" ->
   tick (with_key k i) v = tick (with_key no_key i) v)
  /\ tick (with_key (ord "Q") i) v = tick (with_key (ord "q") i) v
  /\ tick (with_key (ord "R") i) v = tick (with_key (ord "r") i) v.
Proof.
  split; [|split; reflexivity].
  intros Hq HQ Hr HR. unfold tick.
  assert (E1 : is_quit (key (with_key k i)) = false).
  { unfold is_quit. cbn [key with_key].
    apply orb_false_iff. split; apply Z.eqb_neq; assumption. }
  assert (E2 : is_refresh (key (with_key k i)) = false).
  { unfold is_refresh. cbn [key with_key].
    apply orb_false_iff. split; apply Z.eqb_neq; assumption. }
  rewrite E1, E2. reflexivity.
Qed.

(** ** Printing an integer and reading it back *)

Lemma txt_cons (c : ascii) (s : string) :
  txt (String c s) = N_of_ascii c :: txt s.
Proof. reflexivity. Qed.

Lemma uint_digits (d : Decimal.uint) :
  forallb is_digit (txt (NilEmpty.string_of_uint d)) = true.
Proof.
  induction d; cbn [NilEmpty.string_of_uint]; [reflexivity | ..];
    rewrite txt_cons; cbn [forallb]; rewrite IHd; reflexivity.
Qed.

Lemma uint_fold_acc (d : Decimal.uint) (acc : positive) :
  fold_left (fun a c => 10 * a + (Z.of_N c - 48))
    (txt (NilEmpty.string_of_uint d)) (Zpos acc)
  = Zpos (Pos.of_uint_acc d acc).
Proof.
  revert acc. induction d; intros acc;
    cbn [NilEmpty.string_of_uint Pos.of_uint_acc]; [reflexivity | ..];
    rewrite txt_cons; cbn [fold_left]; rewrite <- IHd; f_equal;
    match goal with
    | |- context [Z.of_N (N_of_ascii ?c)] =>
        let v := eval vm_compute in (Z.of_N (N_of_ascii c)) in
        change (Z.of_N (N_of_ascii c)) with v
    end; lia.
Qed.

Lemma uint_fold (d : Decimal.uint) :
  int_of_digits (txt (NilEmpty.string_of_uint d)) = Z.of_N (Pos.of_uint d).
Proof.
  unfold int_of_digits.
  induction d; cbn [NilEmpty.string_of_uint Pos.of_uint];
    [reflexivity | ..]; rewrite txt_cons; cbn [fold_left];
    first [ exact IHd | apply uint_fold_acc ].
Qed.

Lemma string_of_uint_nonnil (d : Decimal.uint) :
  d <> Decimal.Nil -> NilZero.string_of_uint d = NilEmpty.string_of_uint d.
Proof. destruct d; [congruence | reflexivity ..]. Qed.

(** [int(str(n))] is [n]. *)
Lemma int_of_str_of_Z (n : Z) : int_of_str (str_of_Z n) = n.
Proof.
  unfold str_of_Z. destruct n as [|p|p]; [reflexivity | |];
    cbn [Z.to_int NilZero.string_of_int];
    rewrite string_of_uint_nonnil
      by apply DecimalPos.Unsigned.to_uint_nonnil.
  - rewrite int_of_str_digits by apply uint_digits.
    now rewrite uint_fold, DecimalPos.Unsigned.of_to.
  - rewrite txt_cons. change (N_of_ascii "-") with 45%N.
    cbn [int_of_str].
    now rewrite uint_fold, DecimalPos.Unsigned.of_to.
Qed.

Lemma str_of_Z_digits (n : Z) : 0 <= n -> digits (str_of_Z n).
Proof.
  intros Hn. unfold str_of_Z.
  destruct n as [|p|p]; [split; [discriminate | reflexivity] | | lia].
  cbn [Z.to_int NilZero.string_of_int].
  rewrite string_of_uint_nonnil by apply DecimalPos.Unsigned.to_uint_nonnil.
  split; [|apply uint_digits].
  pose proof (DecimalPos.Unsigned.to_uint_nonnil p) as Hnn.
  destruct (Pos.to_uint p); [congruence | ..];
    cbn [NilEmpty.string_of_uint]; rewrite txt_cons; discriminate.
Qed.

(** ** Reading back a printed figure *)

Lemma star_greedy_stop {R} (p : char -> bool) (s : str) (k : str -> option R) :
  stops p s -> star_greedy p s k = k s.
Proof. destruct s as [|c s]; [reflexivity|]. simpl. now intros ->. Qed.

(** A greedy repetition takes the whole run when what follows it then
    matches. *)
Lemma star_greedy_run {R} (p : char -> bool) (w rest : str)
  (k : str -> option R) (res : R) :
  forallb p w = true -> stops p rest -> k rest = Some res ->
  star_greedy p (w ++ rest) k = Some res.
Proof.
  intros Hw Hstop Hk. induction w as [|c w IH]; cbn [app].
  - now rewrite star_greedy_stop.
  - simpl in Hw. apply andb_true_iff in Hw. destruct Hw as [Hc Hw].
    cbn [star_greedy]. rewrite Hc, (IH Hw). reflexivity.
Qed.

Lemma strip_prefix_shorter (x y z r : str) :
  strip_prefix x (y ++ z) = Some r ->
  (List.length x <= List.length y)%nat ->
  exists r', strip_prefix x y = Some r'.
Proof.
  revert y. induction x as [|c x IH]; intros y H Hlen.
  - exists y. reflexivity.
  - destruct y as [|d y]; [simpl in Hlen; lia|].
    cbn [app strip_prefix] in *. destruct (chr_eqb c d); [|discriminate].
    apply IH; [exact H | simpl in Hlen; lia].
Qed.

(** When the literal does not stand anywhere before the end of [pre], the
    leftmost match of a pattern that starts with it is the match after
    [pre]. *)
Lemma re_search_after (l : str) (r : regex) (pre s : str) (g : groups) :
  l <> [] ->
  contains l (pre ++ removelast l) = false ->
  re_match (Seq (Lit l) r) (l ++ s) = Some g ->
  re_search (Seq (Lit l) r) (pre ++ l ++ s) = Some g.
Proof.
  intros Hl Hno Hm. induction pre as [|c pre IH]; cbn [app].
  - destruct (l ++ s); cbn [re_search]; now rewrite Hm.
  - cbn [re_search].
    assert (Hfail : re_match (Seq (Lit l) r) (c :: pre ++ l ++ s) = None).
    { unfold re_match. cbn [rmatch].
      destruct (strip_prefix l (c :: pre ++ l ++ s)) as [r0|] eqn:E;
        [|reflexivity].
      exfalso.
      rewrite (app_removelast_last 0%N Hl) in E at 2.
      rewrite <- app_assoc in E.
      change (c :: pre ++ removelast l ++ [last l 0%N] ++ s)
        with ((c :: pre) ++ removelast l ++ [last l 0%N] ++ s) in E.
      rewrite app_assoc in E.
      apply strip_prefix_shorter in E.
      - destruct E as (r' & E). cbn [app contains] in Hno.
        cbn [app] in E. rewrite E in Hno. discriminate.
      - rewrite length_app. cbn [List.length].
        assert (Hr : List.length l = S (List.length (removelast l))).
        { rewrite (app_removelast_last 0%N Hl) at 1.
          rewrite length_app. cbn [List.length]. unfold char. lia. }
        unfold char in *. lia. }
    rewrite Hfail. apply IH.
    cbn [app contains] in Hno.
    destruct (strip_prefix l (c :: pre ++ removelast l)); [discriminate|].
    exact Hno.
Qed.

Lemma digit_not_space (c : char) : is_digit c = true -> is_space c = false.
Proof.
  unfold is_digit, is_space. intros H.
  apply andb_true_iff in H. destruct H as [H1 H2].
  apply N.leb_le in H1. apply N.leb_le in H2. unfold char in *.
  repeat rewrite orb_false_iff. repeat split.
  - apply andb_false_iff. right. apply N.leb_gt. lia.
  - apply andb_false_iff. right. apply N.leb_gt. lia.
  - apply N.eqb_neq. lia.
  - apply N.eqb_neq. lia.
Qed.

(** The pattern [<literal>\s*=\s*(\d+)] at the start of a text that is the
    literal, white space, an equals sign, white space, digits, and a rest
    that starts with no digit: the group is the digits. *)
Lemma spaced_field_match (l ws1 ws2 ds rest : str) :
  forallb is_space ws1 = true -> forallb is_space ws2 = true ->
  digits ds -> stops is_digit rest ->
  re_match (Seq (Lit l)
              (seq_of [Star is_space; Lit (txt "="); Star is_space;
                       Group (Plus is_digit)]))
    (l ++ ws1 ++ txt "=" ++ ws2 ++ ds ++ rest) = Some [ds].
Proof.
  intros H1 H2 [Hne Hd] Hstop.
  unfold re_match. cbn [rmatch seq_of]. rewrite strip_prefix_app.
  apply star_greedy_run; [exact H1 | reflexivity |].
  cbn [strip_prefix txt list_ascii_of_string map app].
  change (chr_eqb (N_of_ascii "=") (N_of_ascii "=")) with true. cbv iota.
  assert (Hds : stops is_space (ds ++ rest)).
  { destruct ds as [|c ds]; [congruence|]. cbn [app stops].
    apply digit_not_space. simpl in Hd. apply andb_true_iff in Hd. apply Hd. }
  apply star_greedy_run; [exact H2 | exact Hds |].
  destruct ds as [|c ds]; [congruence|].
  simpl in Hd. apply andb_true_iff in Hd. destruct Hd as [Hc Hd].
  cbn [app]. rewrite Hc.
  apply star_greedy_run; [exact Hd | exact Hstop |].
  cbn [app]. f_equal. f_equal.
  change (c :: ds ++ rest) with ((c :: ds) ++ rest).
  apply firstn_consumed.
Qed.

(** [parse_thermal] reads back a speed limit that is printed in decimal:
    when the output holds [CPU_Speed_Limit], white space or none, [=],
    white space or none and the digits of [n], with no digit after them and
    no [CPU_Speed_Limit] before, the sample holds [n]. *)
Theorem thermal_reads_back (m : os) (t : Q) (pre ws1 ws2 rest : str) (n : Z) :
  0 <= n ->
  forallb is_space ws1 = true -> forallb is_space ws2 = true ->
  stops is_digit rest ->
  contains (txt "CPU_Speed_Limit") (pre ++ txt "CPU_Speed_Limi") = false ->
  sh m (txt "pmset -g therm")
  = Completed (pre ++ txt "CPU_Speed_Limit" ++ ws1 ++ txt "=" ++ ws2
               ++ str_of_Z n ++ rest) ->
  fst (parse_thermal m t) = Ok {| cpu_speed_limit := n |}.
Proof.
  intros Hn H1 H2 Hstop Hno Hsh. unfold parse_thermal.
  rewrite (bind_run_cmd_completed _ _ _ _ _ Hsh). cbn [ret io_monad fst].
  unfold int_field.
  change re_speed_limit
    with (Seq (Lit (txt "CPU_Speed_Limit"))
            (seq_of [Star is_space; Lit (txt "="); Star is_space;
                     Group (Plus is_digit)])).
  rewrite (re_search_after _ _ pre _ [str_of_Z n]).
  - cbn [group Nat.sub nth]. now rewrite int_of_str_of_Z.
  - discriminate.
  - exact Hno.
  - apply spaced_field_match; try assumption. now apply str_of_Z_digits.
Qed.

Lemma thermal_reads_back_witness :
  sh laptop (txt "pmset -g therm") = Completed (txt "CPU_Speed_Limit 	= 90")
  /\ fst (parse_thermal laptop 0%Q) = Ok {| cpu_speed_limit := 90 |}.
Proof.
  split; [reflexivity|].
  apply (thermal_reads_back laptop 0%Q [] (txt " 	") (txt " ") [] 90);
    try reflexivity.
  lia.
Defined.

(** ** Batches of calls, frames and sleeps over a whole run *)

Lemma tick_calls (i : tick_input) (v : locals) :
  (calls (fst (tick i v)) = [] \/ calls (fst (tick i v)) = all_six
   \/ exists e, snd (tick i v) = Raised e)
  /\ frames (fst (tick i v)) = sleeps (fst (tick i v))
  /\ (frames (fst (tick i v)) <= 1)%nat.
Proof.
  unfold tick. destruct (is_quit (key i)).
  { cbn. split; [left; reflexivity | split; [reflexivity | lia]]. }
  set (v0 := if is_refresh (key i) then set_last_update 0 v else v).
  clearbody v0.
  destruct (due i v0).
  - destruct (refresh i v0 (current_time i)) as [log [v1|e]] eqn:R.
    + destruct (refresh_ok _ _ _ _ R) as (s & ts & Hc & _ & _ & ->).
      pose proof (calls_refresh_trace i s ts Hc) as Hcalls.
      assert (Hfs : frames (refresh_trace i ts) = 0%nat
                    /\ sleeps (refresh_trace i ts) = 0%nat).
      { destruct Hc as (t1 & t2 & t3 & t4 & t5 & t6 & -> & _).
        split; reflexivity. }
      destruct Hfs as [Hf Hs].
      destruct (battery v1); [destruct (draw i v1)|]; cbn [fst snd].
      * unfold frames, sleeps in *.
        rewrite calls_app, Hcalls, !filter_app, !length_app, Hf, Hs.
        split; [right; left; reflexivity | split; [reflexivity | cbn; lia]].
      * rewrite Hcalls, Hf, Hs.
        split; [right; left; reflexivity | split; [reflexivity | lia]].
      * rewrite Hcalls, Hf, Hs.
        split; [right; left; reflexivity | split; [reflexivity | lia]].
    + cbn [fst snd]. split; [right; right; eauto|].
      assert (Hfs : frames log = 0%nat /\ sleeps log = 0%nat).
      { revert R. unfold refresh, call.
        destruct (parse_ioreg_battery (machine i) (current_time i))
          as [[x1|e1] t1];
        [destruct (parse_pmset (machine i) t1) as [[x2|e2] t2];
         [destruct (parse_thermal (machine i) t2) as [[x3|e3] t3];
          [destruct (get_cpu_usage (machine i) t3) as [[x4|e4] t4];
           [destruct (get_memory_info (machine i) t4) as [[x5|e5] t5];
            [destruct (get_disk_info (machine i) t5) as [[x6|e6] t6]|]|]|]|]|];
        intros [= <- <-] || discriminate; split; reflexivity. }
      destruct Hfs as [-> ->]. split; [reflexivity | lia].
  - destruct (battery v0); [destruct (draw i v0)|]; cbn;
      (split; [left; reflexivity | split; [reflexivity | lia]]).
Qed.

Lemma frames_app (a b : trace) : frames (a ++ b) = (frames a + frames b)%nat.
Proof. unfold frames. now rewrite filter_app, length_app. Qed.

Lemma sleeps_app (a b : trace) : sleeps (a ++ b) = (sleeps a + sleeps b)%nat.
Proof. unfold sleeps. now rewrite filter_app, length_app. Qed.

(** Over a run that is not ended by an exception, the providers are
    called in whole batches, the six in the order of the source each time,
    one batch at most per iteration; and at every point the loop has slept
    exactly once for each frame it has drawn, one frame at most per
    iteration. *)
Theorem calls_in_batches (ins : list tick_input) (v : locals) :
  ((forall e, snd (run ins v) <> Raised e) ->
   exists n, (n <= List.length ins)%nat
             /\ calls (fst (run ins v)) = List.concat (List.repeat all_six n))
  /\ frames (fst (run ins v)) = sleeps (fst (run ins v))
  /\ (frames (fst (run ins v)) <= List.length ins)%nat.
Proof.
  revert v. induction ins as [|i ins IH]; intros v.
  - cbn. split; [intros _; exists 0%nat; split; [lia | reflexivity]|].
    split; [reflexivity | lia].
  - pose proof (tick_calls i v) as (Hc & Hfs & Hf1).
    cbn [run]. destruct (tick i v) as [log o]. cbn [fst snd] in *.
    destruct o as [v1 | | e].
    + specialize (IH v1). destruct (run ins v1) as [log1 o1].
      cbn [fst snd] in *. destruct IH as (IHc & IHfs & IHf).
      rewrite calls_app, frames_app, sleeps_app.
      split; [|split; [lia | cbn [List.length]; lia]].
      intros Hne. destruct (IHc Hne) as (n & Hn & ->).
      destruct Hc as [-> | [-> | (e & [=])]].
      * exists n. split; [cbn [List.length]; lia | reflexivity].
      * exists (S n). split; [cbn [List.length]; lia | reflexivity].
    + cbn [fst snd].
      split; [|split; [exact Hfs | cbn [List.length]; lia]].
      intros _. destruct Hc as [-> | [-> | (e & [=])]].
      * exists 0%nat. split; [lia | reflexivity].
      * exists 1%nat. split; [cbn [List.length]; lia | reflexivity].
    + cbn [fst snd].
      split; [|split; [exact Hfs | cbn [List.length]; lia]].
      intros Hne. exfalso. exact (Hne e eq_refl).
Qed.

(** ** Reading back a signed current *)

Lemma str_of_Z_neg (p : positive) :
  str_of_Z (Zneg p) = 45%N :: str_of_Z (Zpos p).
Proof. reflexivity. Qed.

Lemma rmatch_seq (a b : regex) (s : str) (caps : groups)
  (k : str -> groups -> option groups) :
  rmatch (Seq a b) s caps k
  = rmatch a s caps (fun s' caps' => rmatch b s' caps' k).
Proof. reflexivity. Qed.

Lemma opt_take (p : char -> bool) (c : char) (s : str) (caps : groups)
  (k : str -> groups -> option groups) (res : groups) :
  p c = true -> k s caps = Some res ->
  rmatch (Opt p) (c :: s) caps k = Some res.
Proof. intros Hp Hk. cbn [rmatch]. now rewrite Hp, Hk. Qed.

Lemma opt_skip (p : char -> bool) (s : str) (caps : groups)
  (k : str -> groups -> option groups) :
  stops p s -> rmatch (Opt p) s caps k = k s caps.
Proof. destruct s as [|c s]; [reflexivity|]. cbn [rmatch stops]. now intros ->. Qed.

Lemma plus_run (ds rest : str) (caps : groups)
  (k : str -> groups -> option groups) (res : groups) :
  digits ds -> stops is_digit rest -> k rest caps = Some res ->
  rmatch (Plus is_digit) (ds ++ rest) caps k = Some res.
Proof.
  intros [Hne Hd] Hstop Hk.
  destruct ds as [|c ds]; [congruence|].
  simpl in Hd. apply andb_true_iff in Hd. destruct Hd as [Hc Hd].
  cbn [app rmatch]. rewrite Hc.
  apply star_greedy_run; assumption.
Qed.

(** An optional minus sign and digits match the whole of [str(n)]. *)
Lemma signed_run (n : Z) (rest : str) (caps : groups)
  (k : str -> groups -> option groups) (res : groups) :
  stops is_digit rest -> k rest caps = Some res ->
  rmatch (Seq (Opt (is_chr 45)) (Plus is_digit)) (str_of_Z n ++ rest) caps k
  = Some res.
Proof.
  intros Hstop Hk. rewrite rmatch_seq.
  destruct (Z_lt_le_dec n 0) as [Hneg | Hpos].
  - destruct n as [|p|p]; try lia. rewrite str_of_Z_neg. cbn [app].
    apply opt_take; [reflexivity|].
    apply plus_run; [apply str_of_Z_digits; lia | assumption..].
  - pose proof (str_of_Z_digits n Hpos) as Hds.
    rewrite opt_skip; [now apply plus_run|].
    destruct Hds as [Hne Hd].
    destruct (str_of_Z n) as [|c ds]; [congruence|].
    simpl in Hd. apply andb_true_iff in Hd. destruct Hd as [Hc _].
    cbn [app stops]. unfold is_chr.
    unfold is_digit in Hc. apply andb_true_iff in Hc.
    destruct Hc as [Hc _]. apply N.leb_le in Hc.
    apply N.eqb_neq. unfold char in *. lia.
Qed.

Lemma signed_stops (n : Z) (rest : str) : stops is_space (str_of_Z n ++ rest).
Proof.
  destruct (Z_lt_le_dec n 0) as [Hneg | Hpos].
  - destruct n as [|p|p]; try lia. rewrite str_of_Z_neg. reflexivity.
  - destruct (str_of_Z_digits n Hpos) as [Hne Hd].
    destruct (str_of_Z n) as [|c ds]; [congruence|].
    simpl in Hd. apply andb_true_iff in Hd. destruct Hd as [Hc _].
    cbn [app stops]. now apply digit_not_space.
Qed.

Lemma rmatch_lit (l s : str) (caps : groups)
  (k : str -> groups -> option groups) :
  rmatch (Lit l) (l ++ s) caps k = k s caps.
Proof. cbn [rmatch]. now rewrite strip_prefix_app. Qed.

Lemma rmatch_star (p : char -> bool) (s : str) (caps : groups)
  (k : str -> groups -> option groups) :
  rmatch (Star p) s caps k = star_greedy p s (fun s' => k s' caps).
Proof. reflexivity. Qed.

Lemma rmatch_group (a : regex) (s : str) (caps : groups)
  (k : str -> groups -> option groups) :
  rmatch (Group a) s caps k
  = rmatch a s caps (fun s' caps' =>
      k s' (caps' ++ [firstn (List.length s - List.length s') s])).
Proof. reflexivity. Qed.

Lemma signed_field_match (l ws1 ws2 rest : str) (n : Z) :
  forallb is_space ws1 = true -> forallb is_space ws2 = true ->
  stops is_digit rest ->
  re_match (Seq (Lit l)
              (seq_of [Star is_space; Lit (txt "="); Star is_space;
                       Group (Seq (Opt (is_chr 45)) (Plus is_digit))]))
    (l ++ ws1 ++ txt "=" ++ ws2 ++ str_of_Z n ++ rest) = Some [str_of_Z n].
Proof.
  intros H1 H2 Hstop.
  unfold re_match. cbn [seq_of].
  rewrite rmatch_seq, rmatch_lit, rmatch_seq, rmatch_star.
  apply star_greedy_run; [exact H1 | reflexivity |].
  rewrite rmatch_seq, rmatch_lit, rmatch_seq, rmatch_star.
  apply star_greedy_run; [exact H2 | apply signed_stops |].
  rewrite rmatch_group.
  apply signed_run; [exact Hstop|].
  cbn [app]. now rewrite firstn_consumed.
Qed.

(** [parse_ioreg_battery] reads back a current that is printed in decimal,
    with its sign: when the dump holds ["InstantAmperage"], white space or
    none, [=], white space or none and [str(n)], with no digit after it and
    no ["InstantAmperage"] before, the sample holds [n], negative when the
    battery discharges. *)
Theorem amperage_reads_back (m : os) (t : Q) (pre ws1 ws2 rest : str)
  (n : Z) :
  forallb is_space ws1 = true -> forallb is_space ws2 = true ->
  stops is_digit rest ->
  contains (quoted "InstantAmperage")
    (pre ++ 34%N :: txt "InstantAmperage") = false ->
  sh m (txt "ioreg -rn AppleSmartBattery")
  = Completed (pre ++ quoted "InstantAmperage" ++ ws1 ++ txt "=" ++ ws2
               ++ str_of_Z n ++ rest) ->
  exists b, fst (parse_ioreg_battery m t) = Ok b /\ amperage_ma b = n.
Proof.
  intros H1 H2 Hstop Hno Hsh. unfold parse_ioreg_battery.
  rewrite (bind_run_cmd_completed _ _ _ _ _ Hsh). cbn [ret io_monad fst].
  eexists. split; [reflexivity|]. cbn [amperage_ma].
  unfold int_field.
  change re_amperage
    with (Seq (Lit (quoted "InstantAmperage"))
            (seq_of [Star is_space; Lit (txt "="); Star is_space;
                     Group (Seq (Opt (is_chr 45)) (Plus is_digit))])).
  rewrite (re_search_after _ _ pre _ [str_of_Z n]).
  - cbn [group Nat.sub nth]. apply int_of_str_of_Z.
  - discriminate.
  - exact Hno.
  - now apply signed_field_match.
Qed.

Lemma amperage_reads_back_witness :
  exists b, fst (parse_ioreg_battery laptop 0%Q) = Ok b
            /\ amperage_ma b = -2500.
Proof.
  apply (amperage_reads_back laptop 0%Q
           (txt "      " ++ quoted "CurrentCapacity" ++ txt " = 4000
      " ++ quoted "MaxCapacity" ++ txt " = 5000
      " ++ quoted "DesignCapacity" ++ txt "=5500
      " ++ quoted "Voltage" ++ txt " = 11100
      ")
           (txt " ") (txt " ")
           (txt "
      " ++ quoted "IsCharging" ++ txt " = No
      " ++ quoted "ExternalConnected" ++ txt " = No
      " ++ quoted "CycleCount" ++ txt "=120
      " ++ quoted "CellVoltage" ++ txt "=(3700,3701,3699)
")
           (-2500)); reflexivity.
Defined.

(** ** The used space of the disk when it is not printed *)

(** When [diskutil] prints no [Volume Used Space:] and the total is
    positive, the used space is the total less the available space. *)
Theorem disk_used_fallback (m : os) (t : Q) (output : str) (d : Disk.info) :
  sh m (txt "diskutil info /") = Completed output ->
  contains (txt "Volume Used Space:") output = false ->
  fst (get_disk_info m t) = Ok d ->
  (0 < Disk.total_gb d)%Q ->
  Disk.used_gb d = (Disk.total_gb d - Disk.available_gb d)%Q.
Proof.
  intros Hsh Hno. destruct (get_disk_info m t) as [r t'] eqn:H.
  cbn [fst]. intros -> Hpos.
  unfold get_disk_info in H.
  rewrite (bind_run_cmd_completed _ _ _ _ _ Hsh) in H.
  apply bind_io_ok in H. destruct H as (total & t2 & _ & H).
  apply bind_io_ok in H. destruct H as ([avail purge] & t3 & _ & H).
  apply bind_io_ok in H. destruct H as (used & t4 & Hu & H).
  apply lift_eq in Hu. destruct Hu as [Hu _].
  unfold re_space in Hu. cbn [seq_of] in Hu.
  rewrite (re_search_literal _ _ _ Hno) in Hu.
  cbn [Disk.used_gb] in Hu. injection Hu as <-.
  apply bind_io_ok in H. destruct H as (pct & t5 & _ & H).
  injection H as <- _.
  cbn [Disk.total_gb Disk.used_gb Disk.available_gb fst] in *.
  apply Qgtb_gt in Hpos. rewrite Hpos. reflexivity.
Qed.

Lemma disk_used_fallback_witness :
  fst (get_disk_info no_used 0%Q) = Ok no_used_disk
  /\ Disk.used_pct no_used_disk = 60
  /\ Disk.used_gb no_used_disk
     = (Disk.total_gb no_used_disk - Disk.available_gb no_used_disk)%Q.
Proof.
  split; [reflexivity|]. split; [reflexivity|].
  apply (disk_used_fallback no_used 0%Q
           (txt "   Container Total Space:     500.0 GB
   Container Free Space:      200.0 GB
") no_used_disk); reflexivity.
Defined.
